(** * LPC176X serial driver (serial_api.c): a shallow embedding and its properties

    The driver is a C file that programs four memory-mapped UART blocks,
    the interrupt controller and a few GPIO pins.  It is embedded here as
    functions over an explicit [machine] state:

    - configuration registers (IER, LCR, MCR, FCR, DLL, DLM, FDR, PCONP,
      PCLKSEL) behave as memory and are fields of the state;
    - status and data registers whose value is decided by the hardware
      (LSR, IIR, RBR, GPIO input) are read from [hw_in], the list of values
      the hardware will answer to the coming volatile reads, in order;
    - writes with an external effect (THR, GPIO) and calls of the
      registered handler are recorded in [trace], newest event first;
    - a call through the handler pointer runs the code behind the pointer,
      [handler_code], a parameter of the interrupt functions; a call
      through a null pointer is undefined behaviour ([Undef]);
    - [error] ends the program: a computation that calls it stops in
      [Fatal] with the state at the call.

    C integers are [Z]; the places where the C type truncates (uint8_t
    flags and counter, uint16_t divisor latch, uint32_t registers) are
    written out.  The baud search computes in IEEE-754 binary32, modelled
    with the Standard Library's [SpecFloat] at precision 24; an error
    analysis of its operations relates the rounded error of a candidate to
    the exact rational one. *)

From Stdlib Require Import ZArith QArith Qabs Qpower List Bool String Lia Lqa.
From Stdlib Require Import Floats.SpecFloat.
Import ListNotations.
Local Close Scope Q_scope.
Local Open Scope Z_scope.

(** ** Constants of the target (PeripheralNames.h, PinNames.h, LPC17xx.h) *)

Definition NC : Z := 4294967295.

Definition UART_0 : Z := 1073790976.  (* LPC_UART0_BASE 0x4000C000 *)
Definition UART_1 : Z := 1073807360.  (* LPC_UART1_BASE 0x40010000 *)
Definition UART_2 : Z := 1074364416.  (* LPC_UART2_BASE 0x40098000 *)
Definition UART_3 : Z := 1074380800.  (* LPC_UART3_BASE 0x4009C000 *)
Definition STDIO_UART : Z := UART_0.
Definition UART_NUM : Z := 4.

Definition UART0_IRQn : Z := 5.
Definition UART1_IRQn : Z := 6.
Definition UART2_IRQn : Z := 7.
Definition UART3_IRQn : Z := 8.

(** SerialIrq, SerialParity, FlowControl, PinDirection, PinMode enumerators. *)
Definition RxIrq : Z := 0.
Definition TxIrq : Z := 1.

Definition ParityNone : Z := 0.
Definition ParityOdd : Z := 1.
Definition ParityEven : Z := 2.
Definition ParityForced1 : Z := 3.
Definition ParityForced0 : Z := 4.

Definition FlowControlNone : Z := 0.
Definition FlowControlRTS : Z := 1.
Definition FlowControlCTS : Z := 2.
Definition FlowControlRTSCTS : Z := 3.

Definition PIN_INPUT : Z := 0.
Definition PIN_OUTPUT : Z := 1.
Definition PullUp : Z := 0.

(** Pin names: [Pp_b] is LPC_GPIO0_BASE + 32 p + b. *)
Definition LPC_GPIO0_BASE : Z := 537509888.  (* 0x2009C000 *)
Definition Pin (port bit : Z) : Z := LPC_GPIO0_BASE + 32 * port + bit.
Definition P0_0 := Pin 0 0.
Definition P0_1 := Pin 0 1.
Definition P0_2 := Pin 0 2.
Definition P0_3 := Pin 0 3.
Definition P0_10 := Pin 0 10.
Definition P0_11 := Pin 0 11.
Definition P0_15 := Pin 0 15.
Definition P0_16 := Pin 0 16.
Definition P0_17 := Pin 0 17.
Definition P0_22 := Pin 0 22.
Definition P0_25 := Pin 0 25.
Definition P0_26 := Pin 0 26.
Definition P2_0 := Pin 2 0.
Definition P2_1 := Pin 2 1.
Definition P2_2 := Pin 2 2.
Definition P2_7 := Pin 2 7.
Definition P2_8 := Pin 2 8.
Definition P2_9 := Pin 2 9.
Definition P4_28 := Pin 4 28.
Definition P4_29 := Pin 4 29.

Record PinMap := mkPinMap { pm_pin : Z; pm_peripheral : Z; pm_function : Z }.

(** The tables of the source, without the {NC, NC, 0} terminator: the list
    ends where the C array has its sentinel. *)
Definition PinMap_UART_TX : list PinMap :=
  [ mkPinMap P0_0 UART_3 2; mkPinMap P0_2 UART_0 1; mkPinMap P0_10 UART_2 1;
    mkPinMap P0_15 UART_1 1; mkPinMap P0_25 UART_3 3; mkPinMap P2_0 UART_1 2;
    mkPinMap P2_8 UART_2 2; mkPinMap P4_28 UART_3 3 ].

Definition PinMap_UART_RX : list PinMap :=
  [ mkPinMap P0_1 UART_3 2; mkPinMap P0_3 UART_0 1; mkPinMap P0_11 UART_2 1;
    mkPinMap P0_16 UART_1 1; mkPinMap P0_26 UART_3 3; mkPinMap P2_1 UART_1 2;
    mkPinMap P2_9 UART_2 2; mkPinMap P4_29 UART_3 3 ].

Definition PinMap_UART_RTS : list PinMap :=
  [ mkPinMap P0_22 UART_1 1; mkPinMap P2_7 UART_1 2 ].

Definition PinMap_UART_CTS : list PinMap :=
  [ mkPinMap P0_17 UART_1 1; mkPinMap P2_2 UART_1 2 ].

Definition UART_MCR_RTSEN_MASK : Z := Z.shiftl 1 6.
Definition UART_MCR_CTSEN_MASK : Z := Z.shiftl 1 7.
Definition UART_MCR_FLOWCTRL_MASK : Z :=
  Z.lor UART_MCR_RTSEN_MASK UART_MCR_CTSEN_MASK.

Definition TX_FIFO_DEPTH : Z := 16.

(** ** Data model *)

(** 32-bit register contents and the narrower C types. *)
Definition u32 (x : Z) : Z := x mod 4294967296.
Definition u16 (x : Z) : Z := x mod 65536.
Definition u8 (x : Z) : Z := x mod 256.

(** The configuration registers of one UART block. *)
Record uart_regs := mkRegs {
  IER : Z; LCR : Z; MCR : Z; FCR : Z; DLL : Z; DLM : Z; FDR : Z
}.

(** gpio_t: the driver only ever reads or overwrites the [pin] member. *)
Record gpio_t := mkGpio { pin : Z }.

Record serial_global_data_s := mkData {
  sw_rts : gpio_t;
  sw_cts : gpio_t;
  count : Z;
  initialized : Z;
  irq_set_flow : Z;
  irq_set_api : Z
}.

(** serial_t: the register block (as the UARTName address) and the index
    into [uart_data]. *)
Record serial_t := mkSerial { uart : Z; index : Z }.

Inductive isr := uart0_irq_vec | uart1_irq_vec | uart2_irq_vec | uart3_irq_vec.

Inductive hwreg := LSR | IIR | RBR | THR.

Inductive event :=
| EvRead (u : Z) (r : hwreg) (v : Z)
| EvWrite (u : Z) (r : hwreg) (v : Z)
| EvGpioInit (p : Z) (dir : Z)
| EvGpioRead (p : Z) (v : Z)
| EvGpioWrite (p : Z) (v : Z)
| EvPinout (p : Z) (fn : Z)
| EvPinMode (p : Z) (mode : Z)
| EvHandler (fn : Z) (id : Z) (irq : Z).

Record machine := mkMachine {
  regs : Z -> uart_regs;
  PCONP : Z;
  PCLKSEL0 : Z;
  PCLKSEL1 : Z;
  SystemCoreClock : Z;
  nvic_enabled : Z -> bool;
  nvic_vector : Z -> option isr;
  gpio_level : Z -> Z;
  uart_data : Z -> serial_global_data_s;
  serial_irq_ids : Z -> Z;
  irq_handler : Z;
  stdio_uart_inited : Z;
  stdio_uart : serial_t;
  hw_in : list Z;
  trace : list event
}.

(** ** State access *)

(** Arrays and register banks are total maps; [upd] overwrites one key. *)
Definition upd {A : Type} (f : Z -> A) (k : Z) (v : A) : Z -> A :=
  fun x => if x =? k then v else f x.

Definition set_IER (v : Z) (r : uart_regs) : uart_regs :=
  mkRegs v (LCR r) (MCR r) (FCR r) (DLL r) (DLM r) (FDR r).
Definition set_LCR (v : Z) (r : uart_regs) : uart_regs :=
  mkRegs (IER r) v (MCR r) (FCR r) (DLL r) (DLM r) (FDR r).
Definition set_MCR (v : Z) (r : uart_regs) : uart_regs :=
  mkRegs (IER r) (LCR r) v (FCR r) (DLL r) (DLM r) (FDR r).
Definition set_FCR (v : Z) (r : uart_regs) : uart_regs :=
  mkRegs (IER r) (LCR r) (MCR r) v (DLL r) (DLM r) (FDR r).
Definition set_DLL (v : Z) (r : uart_regs) : uart_regs :=
  mkRegs (IER r) (LCR r) (MCR r) (FCR r) v (DLM r) (FDR r).
Definition set_DLM (v : Z) (r : uart_regs) : uart_regs :=
  mkRegs (IER r) (LCR r) (MCR r) (FCR r) (DLL r) v (FDR r).
Definition set_FDR (v : Z) (r : uart_regs) : uart_regs :=
  mkRegs (IER r) (LCR r) (MCR r) (FCR r) (DLL r) (DLM r) v.

Definition set_sw_rts (g : gpio_t) (d : serial_global_data_s) :=
  mkData g (sw_cts d) (count d) (initialized d) (irq_set_flow d) (irq_set_api d).
Definition set_sw_cts (g : gpio_t) (d : serial_global_data_s) :=
  mkData (sw_rts d) g (count d) (initialized d) (irq_set_flow d) (irq_set_api d).
Definition set_count (v : Z) (d : serial_global_data_s) :=
  mkData (sw_rts d) (sw_cts d) v (initialized d) (irq_set_flow d) (irq_set_api d).
Definition set_initialized (v : Z) (d : serial_global_data_s) :=
  mkData (sw_rts d) (sw_cts d) (count d) v (irq_set_flow d) (irq_set_api d).
Definition set_irq_set_flow (v : Z) (d : serial_global_data_s) :=
  mkData (sw_rts d) (sw_cts d) (count d) (initialized d) v (irq_set_api d).
Definition set_irq_set_api (v : Z) (d : serial_global_data_s) :=
  mkData (sw_rts d) (sw_cts d) (count d) (initialized d) (irq_set_flow d) v.

Definition with_regs (f : Z -> uart_regs) (m : machine) :=
  mkMachine f (PCONP m) (PCLKSEL0 m) (PCLKSEL1 m) (SystemCoreClock m)
    (nvic_enabled m) (nvic_vector m) (gpio_level m) (uart_data m)
    (serial_irq_ids m) (irq_handler m) (stdio_uart_inited m) (stdio_uart m)
    (hw_in m) (trace m).
Definition with_PCONP (v : Z) (m : machine) :=
  mkMachine (regs m) v (PCLKSEL0 m) (PCLKSEL1 m) (SystemCoreClock m)
    (nvic_enabled m) (nvic_vector m) (gpio_level m) (uart_data m)
    (serial_irq_ids m) (irq_handler m) (stdio_uart_inited m) (stdio_uart m)
    (hw_in m) (trace m).
Definition with_PCLKSEL0 (v : Z) (m : machine) :=
  mkMachine (regs m) (PCONP m) v (PCLKSEL1 m) (SystemCoreClock m)
    (nvic_enabled m) (nvic_vector m) (gpio_level m) (uart_data m)
    (serial_irq_ids m) (irq_handler m) (stdio_uart_inited m) (stdio_uart m)
    (hw_in m) (trace m).
Definition with_PCLKSEL1 (v : Z) (m : machine) :=
  mkMachine (regs m) (PCONP m) (PCLKSEL0 m) v (SystemCoreClock m)
    (nvic_enabled m) (nvic_vector m) (gpio_level m) (uart_data m)
    (serial_irq_ids m) (irq_handler m) (stdio_uart_inited m) (stdio_uart m)
    (hw_in m) (trace m).
Definition with_nvic_enabled (f : Z -> bool) (m : machine) :=
  mkMachine (regs m) (PCONP m) (PCLKSEL0 m) (PCLKSEL1 m) (SystemCoreClock m)
    f (nvic_vector m) (gpio_level m) (uart_data m)
    (serial_irq_ids m) (irq_handler m) (stdio_uart_inited m) (stdio_uart m)
    (hw_in m) (trace m).
Definition with_nvic_vector (f : Z -> option isr) (m : machine) :=
  mkMachine (regs m) (PCONP m) (PCLKSEL0 m) (PCLKSEL1 m) (SystemCoreClock m)
    (nvic_enabled m) f (gpio_level m) (uart_data m)
    (serial_irq_ids m) (irq_handler m) (stdio_uart_inited m) (stdio_uart m)
    (hw_in m) (trace m).
Definition with_gpio_level (f : Z -> Z) (m : machine) :=
  mkMachine (regs m) (PCONP m) (PCLKSEL0 m) (PCLKSEL1 m) (SystemCoreClock m)
    (nvic_enabled m) (nvic_vector m) f (uart_data m)
    (serial_irq_ids m) (irq_handler m) (stdio_uart_inited m) (stdio_uart m)
    (hw_in m) (trace m).
Definition with_uart_data (f : Z -> serial_global_data_s) (m : machine) :=
  mkMachine (regs m) (PCONP m) (PCLKSEL0 m) (PCLKSEL1 m) (SystemCoreClock m)
    (nvic_enabled m) (nvic_vector m) (gpio_level m) f
    (serial_irq_ids m) (irq_handler m) (stdio_uart_inited m) (stdio_uart m)
    (hw_in m) (trace m).
Definition with_serial_irq_ids (f : Z -> Z) (m : machine) :=
  mkMachine (regs m) (PCONP m) (PCLKSEL0 m) (PCLKSEL1 m) (SystemCoreClock m)
    (nvic_enabled m) (nvic_vector m) (gpio_level m) (uart_data m)
    f (irq_handler m) (stdio_uart_inited m) (stdio_uart m)
    (hw_in m) (trace m).
Definition with_irq_handler (h : Z) (m : machine) :=
  mkMachine (regs m) (PCONP m) (PCLKSEL0 m) (PCLKSEL1 m) (SystemCoreClock m)
    (nvic_enabled m) (nvic_vector m) (gpio_level m) (uart_data m)
    (serial_irq_ids m) h (stdio_uart_inited m) (stdio_uart m)
    (hw_in m) (trace m).
Definition with_stdio (inited : Z) (obj : serial_t) (m : machine) :=
  mkMachine (regs m) (PCONP m) (PCLKSEL0 m) (PCLKSEL1 m) (SystemCoreClock m)
    (nvic_enabled m) (nvic_vector m) (gpio_level m) (uart_data m)
    (serial_irq_ids m) (irq_handler m) inited obj
    (hw_in m) (trace m).
Definition with_hw_in (l : list Z) (m : machine) :=
  mkMachine (regs m) (PCONP m) (PCLKSEL0 m) (PCLKSEL1 m) (SystemCoreClock m)
    (nvic_enabled m) (nvic_vector m) (gpio_level m) (uart_data m)
    (serial_irq_ids m) (irq_handler m) (stdio_uart_inited m) (stdio_uart m)
    l (trace m).
Definition with_trace (t : list event) (m : machine) :=
  mkMachine (regs m) (PCONP m) (PCLKSEL0 m) (PCLKSEL1 m) (SystemCoreClock m)
    (nvic_enabled m) (nvic_vector m) (gpio_level m) (uart_data m)
    (serial_irq_ids m) (irq_handler m) (stdio_uart_inited m) (stdio_uart m)
    (hw_in m) t.

(** obj->uart->R = f(obj->uart->R) and uart_data[i].x = ... *)
Definition reg_write (u : Z) (f : uart_regs -> uart_regs) (m : machine) :=
  with_regs (upd (regs m) u (f (regs m u))) m.
Definition data_write (i : Z) (f : serial_global_data_s -> serial_global_data_s)
    (m : machine) :=
  with_uart_data (upd (uart_data m) i (f (uart_data m i))) m.
Definition emit (e : event) (m : machine) := with_trace (e :: trace m) m.

(** ** The monad of fallible, blocking driver code *)

Inductive outcome (A : Type) :=
| Ret (a : A) (m : machine)          (* returned normally *)
| Fatal (msg : string) (m : machine) (* error() was called: program ended *)
| Spin (m : machine)                 (* still waiting on the hardware *)
| Undef (m : machine).               (* undefined behaviour in C *)
Arguments Ret {A} a m.
Arguments Fatal {A} msg m.
Arguments Spin {A} m.
Arguments Undef {A} m.

Definition M (A : Type) := machine -> outcome A.

Definition ret {A} (a : A) : M A := fun m => Ret a m.
Definition bind {A B} (c : M A) (k : A -> M B) : M B :=
  fun m => match c m with
           | Ret a m' => k a m'
           | Fatal msg m' => Fatal msg m'
           | Spin m' => Spin m'
           | Undef m' => Undef m'
           end.

Notation "x <- c ;; k" := (bind c (fun x => k))
  (at level 61, c at next level, right associativity).
Notation "c ;; k" := (bind c (fun _ => k))
  (at level 61, right associativity).

Definition error {A} (msg : string) : M A := fun m => Fatal msg m.
Definition lift (f : machine -> machine) : M unit := fun m => Ret tt (f m).
Definition gets {A} (f : machine -> A) : M A := fun m => Ret (f m) m.
Definition when (b : bool) (c : M unit) : M unit := if b then c else ret tt.

(** A volatile read of a hardware-driven location takes the next value the
    hardware supplies; with none left the caller is still waiting. *)
Definition hw_read : M Z :=
  fun m => match hw_in m with
           | [] => Spin m
           | v :: rest => Ret v (with_hw_in rest m)
           end.

(** ** Services the driver consumes *)

(** Modelled from the spec: the pin-mux service (pinmap.h; its C file is not
    among the sources).  [find_peripheral] scans a table for a pin and
    answers NC when the pin is not listed; [peripheral_of] fails when the
    lookup of a pin finds nothing; [merge] fails when the two peripherals
    differ and neither is NC; [pinout] and [pin_mode] program the
    pin-connect block, seen here as events.  The spec does not say what an
    absent (NC) pin does: it is passed through as NC, the case the check
    after the merge in serial_init is there for. *)
Fixpoint pinmap_find_peripheral (p : Z) (map : list PinMap) : Z :=
  match map with
  | [] => NC
  | e :: rest =>
      if pm_pin e =? p then pm_peripheral e else pinmap_find_peripheral p rest
  end.

(** Modelled from the spec: the alt-function column of the same lookup,
    which [pinout] programs. *)
Fixpoint pinmap_find_function (p : Z) (map : list PinMap) : option Z :=
  match map with
  | [] => None
  | e :: rest =>
      if pm_pin e =? p then Some (pm_function e) else pinmap_find_function p rest
  end.

(** Modelled from the spec: peripheral_of(pin, table) of the pin-mux
    service. *)
Definition pinmap_peripheral (p : Z) (map : list PinMap) : M Z :=
  if p =? NC then ret NC
  else
    let peripheral := pinmap_find_peripheral p map in
    if peripheral =? NC then error "pinmap not found for peripheral"
    else ret peripheral.

(** Modelled from the spec: merge(a, b) of the pin-mux service. *)
Definition pinmap_merge (a b : Z) : M Z :=
  if a =? b then ret a
  else if a =? NC then ret b
  else if b =? NC then ret a
  else error "pinmap mis-match".

(** Modelled from the spec: pinout(pin, table) of the pin-mux service. *)
Definition pinmap_pinout (p : Z) (map : list PinMap) : M unit :=
  if p =? NC then ret tt
  else match pinmap_find_function p map with
       | Some fn => lift (emit (EvPinout p fn))
       | None => error "could not pinout"
       end.

(** Modelled from the spec: pin_mode(pin, mode) of the pin-mux service. *)
Definition pin_mode (p : Z) (mode : Z) : M unit :=
  if p =? NC then ret tt else lift (emit (EvPinMode p mode)).

(** Modelled from the spec: the GPIO service (gpio_api.h).  [gpio_init]
    binds the gpio_t to the pin and sets its direction, [gpio_write] drives
    the pin to 0 or 1, [gpio_read] samples it. *)
Definition gpio_init (p : Z) (direction : Z) : gpio_t * (machine -> machine) :=
  (mkGpio p, emit (EvGpioInit p direction)).

(** Modelled from the spec: write(gpio, 0|1) of the GPIO service. *)
Definition gpio_write (g : gpio_t) (value : Z) (m : machine) : machine :=
  let v := if value =? 0 then 0 else 1 in
  emit (EvGpioWrite (pin g) v) (with_gpio_level (upd (gpio_level m) (pin g) v) m).

(** Modelled from the spec: read(gpio) of the GPIO service; the level is
    what the hardware answers. *)
Definition gpio_read (g : gpio_t) : M Z :=
  v <- hw_read ;;
  lift (emit (EvGpioRead (pin g) v)) ;;
  ret (if v =? 0 then 0 else 1).

(** Modelled from the spec: set_vector(line, address) of the interrupt
    controller (CMSIS NVIC); the address is the entry vector it names. *)
Definition NVIC_SetVector (irq_n : Z) (vector : option isr) (m : machine) :=
  with_nvic_vector (upd (nvic_vector m) irq_n vector) m.
(** Modelled from the spec: enable(line) of the interrupt controller. *)
Definition NVIC_EnableIRQ (irq_n : Z) (m : machine) :=
  with_nvic_enabled (upd (nvic_enabled m) irq_n true) m.
(** Modelled from the spec: disable(line) of the interrupt controller. *)
Definition NVIC_DisableIRQ (irq_n : Z) (m : machine) :=
  with_nvic_enabled (upd (nvic_enabled m) irq_n false) m.

(** ** serial_baud: the divisor calculator *)

(** C [float] is IEEE-754 binary32, every operation rounded to nearest even
    (no extended intermediate precision on this target). *)
Definition float := spec_float.
Definition f_prec : Z := 24.
Definition f_emax : Z := 128.

Definition float_of_int (n : Z) : float := binary_normalize f_prec f_emax n 0 false.
Definition fadd : float -> float -> float := SFadd f_prec f_emax.
Definition fsub : float -> float -> float := SFsub f_prec f_emax.
Definition fmul : float -> float -> float := SFmul f_prec f_emax.
Definition fdiv : float -> float -> float := SFdiv f_prec f_emax.
Definition fabs : float -> float := SFabs.
Definition flt : float -> float -> bool := SFltb.

Definition f_1_0 : float := float_of_int 1.
Definition f_16_0 : float := float_of_int 16.
(** 0.001f, the binary32 number nearest to 1/1000: 8589935 * 2^-33. *)
Definition f_0_001 : float := S754_finite false 8589935 (-33).

(** The body of the innermost loop up to the comparison: the error of the
    candidate (dlv, mv, dav). *)
Definition baud_err (PCLK baudrate dlv mv dav : Z) : float :=
  let ratio := fadd f_1_0 (fdiv (float_of_int dav) (float_of_int mv)) in
  let calcbaud :=
    fdiv (float_of_int PCLK) (fmul (fmul f_16_0 (float_of_int dlv)) ratio) in
  fabs (fdiv (fsub (float_of_int baudrate) calcbaud) (float_of_int baudrate)).

(** The locals the search updates. *)
Record search_state := mkSearch {
  s_DL : Z;
  s_DivAddVal : Z;
  s_MulVal : Z;
  s_err_best : float;
  s_hit : bool
}.

Definition search_step (PCLK baudrate : Z) (st : search_state)
    (c : Z * Z * Z) : search_state :=
  let '(dlv, mv, dav) := c in
  let err := baud_err PCLK baudrate dlv mv dav in
  if flt err (s_err_best st) then
    mkSearch dlv dav mv err (if flt err f_0_001 then true else s_hit st)
  else st.

(** [zseq lo n] is lo, lo+1, ..., lo+n-1: the values a counting loop takes. *)
Fixpoint zseq (lo : Z) (n : nat) : list Z :=
  match n with
  | O => []
  | S n' => lo :: zseq (lo + 1) n'
  end.

(** for (dav = 1; dav < mv; dav++) *)
Definition dav_loop (PCLK baudrate dlv mv : Z) (st : search_state) :=
  fold_left (fun s dav => search_step PCLK baudrate s (dlv, mv, dav))
            (zseq 1 (Z.to_nat (mv - 1))) st.

(** for (mv = 1; mv <= 15; mv++) *)
Definition mv_loop (PCLK baudrate dlv : Z) (st : search_state) :=
  fold_left (fun s mv => dav_loop PCLK baudrate dlv mv s) (zseq 1 15) st.

(** for (dlv = dlmax/2; (dlv <= dlmax) && !hit; dlv++), dlv a uint16_t: the
    increment wraps.  [None] when the loop is still running after [fuel]
    iterations; the final value of dlv is returned with the state. *)
Fixpoint dlv_loop (fuel : nat) (PCLK baudrate dlmax dlv : Z)
    (st : search_state) : option (search_state * Z) :=
  if (dlv <=? dlmax) && negb (s_hit st) then
    match fuel with
    | O => None
    | S fuel' =>
        dlv_loop fuel' PCLK baudrate dlmax (u16 (dlv + 1))
                 (mv_loop PCLK baudrate dlv st)
    end
  else Some (st, dlv).

Inductive divisors :=
| Divisors (DL DivAddVal MulVal : Z)
| DivUndefined      (* signed overflow of 16 * baudrate, or division by 0 *)
| DivSearching.     (* the search loop has not ended within the fuel *)

Definition int_range (x : Z) : bool :=
  (-2147483648 <=? x) && (x <=? 2147483647).

(** Lines 180-208: from PCLK (uint32_t) and baudrate (int) to the values
    programmed into DLM:DLL and FDR. *)
Definition baud_divisors (fuel : nat) (PCLK baudrate : Z) : divisors :=
  let d := 16 * baudrate in
  if negb (int_range d) then DivUndefined
  else
    let du := u32 d in
    if du =? 0 then DivUndefined
    else
      let DL := u16 (PCLK / du) in
      if negb (PCLK mod du =? 0) then
        let dlmax := DL in
        match dlv_loop fuel PCLK baudrate dlmax (dlmax / 2)
                (mkSearch DL 0 1 (float_of_int baudrate) false) with
        | Some (st, _) => Divisors (s_DL st) (s_DivAddVal st) (s_MulVal st)
        | None => DivSearching
        end
      else Divisors DL 0 1.

(** One full cycle of the 16-bit loop counter.  The counter can only wrap
    when dlmax = 65535; below that the loop ends within dlmax + 1 - dlmax/2
    iterations ([dlv_loop_total]). *)
Definition search_fuel : nat := Z.to_nat 65536.

(** PCLKSEL &= ~(0x3 << sh); PCLKSEL |= (0x1 << sh) *)
Definition pclk_div1 (sel sh : Z) : Z :=
  u32 (Z.lor (u32 (Z.land sel (Z.lnot (Z.shiftl 3 sh)))) (Z.shiftl 1 sh)).

Definition serial_baud (obj : serial_t) (baudrate : Z) : M unit :=
  let u := uart obj in
  (if u =? UART_0 then lift (fun m => with_PCLKSEL0 (pclk_div1 (PCLKSEL0 m) 6) m)
   else if u =? UART_1 then lift (fun m => with_PCLKSEL0 (pclk_div1 (PCLKSEL0 m) 8) m)
   else if u =? UART_2 then lift (fun m => with_PCLKSEL1 (pclk_div1 (PCLKSEL1 m) 16) m)
   else if u =? UART_3 then lift (fun m => with_PCLKSEL1 (pclk_div1 (PCLKSEL1 m) 18) m)
   else error "serial_baud") ;;
  PCLK <- gets (fun m => u32 (SystemCoreClock m)) ;;
  match baud_divisors search_fuel PCLK baudrate with
  | Divisors DL DivAddVal MulVal =>
      (* set LCR[DLAB] to enable writing to divider registers *)
      lift (reg_write u (fun r => set_LCR (u8 (Z.lor (LCR r) (Z.shiftl 1 7))) r)) ;;
      lift (reg_write u (set_DLM (Z.land (Z.shiftr DL 8) 255))) ;;
      lift (reg_write u (set_DLL (Z.land (Z.shiftr DL 0) 255))) ;;
      lift (reg_write u
              (set_FDR (u8 (Z.lor (Z.shiftl DivAddVal 0) (Z.shiftl MulVal 4))))) ;;
      (* clear LCR[DLAB] *)
      lift (reg_write u
              (fun r => set_LCR (u8 (Z.land (LCR r) (Z.lnot (Z.shiftl 1 7)))) r))
  | DivUndefined => fun m => Undef m
  | DivSearching => fun m => Spin m
  end.

(** ** serial_format *)

Definition parity_bits (parity : Z) : option (Z * Z) :=
  if parity =? ParityNone then Some (0, 0)
  else if parity =? ParityOdd then Some (1, 0)
  else if parity =? ParityEven then Some (1, 1)
  else if parity =? ParityForced1 then Some (1, 2)
  else if parity =? ParityForced0 then Some (1, 3)
  else None.

Definition serial_format (obj : serial_t) (data_bits parity stop_bits : Z)
    : M unit :=
  (* 0: 1 stop bits, 1: 2 stop bits *)
  when (negb (stop_bits =? 1) && negb (stop_bits =? 2))
       (error "Invalid stop bits specified") ;;
  let stop_bits := stop_bits - 1 in
  (* 0: 5 data bits ... 3: 8 data bits *)
  when ((data_bits <? 5) || (data_bits >? 8))
       (error "Invalid number of bits (%d) in serial format, should be 5..8") ;;
  let data_bits := data_bits - 5 in
  match parity_bits parity with
  | Some (parity_enable, parity_select) =>
      lift (reg_write (uart obj)
              (set_LCR (u8 (Z.lor (Z.lor (Z.lor (Z.shiftl data_bits 0)
                                                (Z.shiftl stop_bits 2))
                                         (Z.shiftl parity_enable 3))
                                  (Z.shiftl parity_select 4)))))
  | None => error "Invalid serial parity setting"
  end.

(** ** serial_init, serial_free *)

Definition power_bit (u : Z) : option Z :=
  if u =? UART_0 then Some 3
  else if u =? UART_1 then Some 4
  else if u =? UART_2 then Some 24
  else if u =? UART_3 then Some 25
  else None.

Definition index_of_uart (u : Z) (old : Z) : Z :=
  if u =? UART_0 then 0
  else if u =? UART_1 then 1
  else if u =? UART_2 then 2
  else if u =? UART_3 then 3
  else old.

(** serial_init fills *obj; the filled handle is the result. *)
Definition serial_init (obj : serial_t) (tx rx : Z) : M serial_t :=
  (* determine the UART to use *)
  uart_tx <- pinmap_peripheral tx PinMap_UART_TX ;;
  uart_rx <- pinmap_peripheral rx PinMap_UART_RX ;;
  u <- pinmap_merge uart_tx uart_rx ;;
  when (u =? NC) (error "Serial pinout mapping failed") ;;
  let obj := mkSerial u (index obj) in
  (* enable power *)
  lift (fun m => match power_bit u with
                 | Some b => with_PCONP (u32 (Z.lor (PCONP m) (Z.shiftl 1 b))) m
                 | None => m
                 end) ;;
  (* enable fifos and default rx trigger level *)
  lift (reg_write u (set_FCR (Z.lor (Z.lor (Z.lor (Z.shiftl 1 0) (Z.shiftl 0 1))
                                           (Z.shiftl 0 2)) (Z.shiftl 0 6)))) ;;
  (* disable irqs *)
  lift (reg_write u (set_IER (Z.lor (Z.lor (Z.shiftl 0 0) (Z.shiftl 0 1))
                                    (Z.shiftl 0 2)))) ;;
  (* set default baud rate and format *)
  serial_baud obj 9600 ;;
  serial_format obj 8 ParityNone 1 ;;
  (* pinout the chosen uart *)
  pinmap_pinout tx PinMap_UART_TX ;;
  pinmap_pinout rx PinMap_UART_RX ;;
  (* set rx/tx pins in PullUp mode *)
  pin_mode tx PullUp ;;
  pin_mode rx PullUp ;;
  let obj := mkSerial u (index_of_uart u (index obj)) in
  d <- gets (fun m => uart_data m (index obj)) ;;
  when (initialized d =? 0)
       (lift (data_write (index obj) (set_sw_rts (mkGpio NC))) ;;
        lift (data_write (index obj) (set_sw_cts (mkGpio NC))) ;;
        lift (data_write (index obj) (set_initialized 1))) ;;
  let is_stdio_uart := if u =? STDIO_UART then 1 else 0 in
  when (negb (is_stdio_uart =? 0)) (lift (with_stdio 1 obj)) ;;
  ret obj.

Definition serial_free (obj : serial_t) (m : machine) : machine :=
  with_serial_irq_ids (upd (serial_irq_ids m) (index obj) 0) m.

(** ** Interrupt handling *)

Section InterruptHandling.

(** The code behind a callback address: [handler_code fn id irq] is what a
    call of the function at address [fn] with arguments (id, irq) does.  The
    driver knows nothing about it. *)
Variable handler_code : Z -> Z -> Z -> M unit.

(** irq_handler(id, irq_type): a call through the static pointer.  A call
    through a null pointer is undefined behaviour; otherwise control goes to
    the callee, and the dispatcher goes on when the callee returns. *)
Definition call_irq_handler (id irq_type : Z) : M unit :=
  fn <- gets irq_handler ;;
  if fn =? 0 then (fun m => Undef m)
  else lift (emit (EvHandler fn id irq_type)) ;; handler_code fn id irq_type.

Definition uart_irq (iir index : Z) : M unit :=
  match (if iir =? 1 then Some TxIrq
         else if iir =? 2 then Some RxIrq
         else None) with
  | None => ret tt
  | Some irq_type =>
      d <- gets (fun m => uart_data m index) ;;
      when ((RxIrq =? irq_type) && negb (pin (sw_rts d) =? NC))
           (lift (gpio_write (sw_rts d) 1)) ;;
      id <- gets (fun m => serial_irq_ids m index) ;;
      when (negb (id =? 0)) (call_irq_handler id irq_type)
  end.

Definition uart_isr (u index : Z) : M unit :=
  v <- hw_read ;;
  lift (emit (EvRead u IIR v)) ;;
  uart_irq (Z.land (Z.shiftr v 1) 7) index.


End InterruptHandling.

Definition serial_irq_handler (obj : serial_t) (handler id : Z) (m : machine) :=
  with_serial_irq_ids (upd (serial_irq_ids m) (index obj) id)
    (with_irq_handler handler m).

Definition irq_line (u : Z) : Z * option isr :=
  if u =? UART_0 then (UART0_IRQn, Some uart0_irq_vec)
  else if u =? UART_1 then (UART1_IRQn, Some uart1_irq_vec)
  else if u =? UART_2 then (UART2_IRQn, Some uart2_irq_vec)
  else if u =? UART_3 then (UART3_IRQn, Some uart3_irq_vec)
  else (0, None).

Definition serial_irq_set_internal (obj : serial_t) (irq enable : Z)
    (m : machine) : machine :=
  let '(irq_n, vector) := irq_line (uart obj) in
  let d := uart_data m (index obj) in
  if negb (enable =? 0) then
    let m1 := reg_write (uart obj)
                (fun r => set_IER (u32 (Z.lor (IER r) (Z.shiftl 1 irq))) r) m in
    NVIC_EnableIRQ irq_n (NVIC_SetVector irq_n vector m1)
  else if irq_set_api d + irq_set_flow d =? 0 then (* disable *)
    let other_irq := if irq =? RxIrq then TxIrq else RxIrq in
    let m1 := reg_write (uart obj)
                (fun r => set_IER (u32 (Z.land (IER r) (Z.lnot (Z.shiftl 1 irq)))) r)
                m in
    let all_disabled :=
      Z.land (IER (regs m1 (uart obj))) (Z.shiftl 1 other_irq) =? 0 in
    if all_disabled then NVIC_DisableIRQ irq_n m1 else m1
  else m.

(** The flag members are uint8_t: the uint32_t argument is truncated. *)
Definition serial_irq_set (obj : serial_t) (irq enable : Z) (m : machine) :=
  serial_irq_set_internal obj irq enable
    (data_write (index obj) (set_irq_set_api (u8 enable)) m).

Definition serial_flow_irq_set (obj : serial_t) (irq enable : Z) (m : machine) :=
  serial_irq_set_internal obj irq enable
    (data_write (index obj) (set_irq_set_flow (u8 enable)) m).

(** ** Read / write *)

Definition serial_readable (obj : serial_t) : M Z :=
  v <- hw_read ;;
  lift (emit (EvRead (uart obj) LSR v)) ;;
  ret (Z.land v 1).

Definition serial_writable (obj : serial_t) : M Z :=
  d <- gets (fun m => uart_data m (index obj)) ;;
  isWritable <- (if negb (NC =? pin (sw_cts d))
                 then v <- gpio_read (sw_cts d) ;; ret (if v =? 0 then 1 else 0)
                 else ret 1) ;;
  if negb (isWritable =? 0) then
    lsr <- hw_read ;;
    lift (emit (EvRead (uart obj) LSR lsr)) ;;
    if negb (Z.land lsr 32 =? 0) then
      lift (data_write (index obj) (set_count 0)) ;;
      ret isWritable
    else
      c <- gets (fun m => count (uart_data m (index obj))) ;;
      if c >=? 16 then ret 0 else ret isWritable
  else ret isWritable.

(** while (!cond(obj)); -- one poll per iteration.  Every poll takes at
    least one value from [hw_in], so [S (length hw_in)] iterations are never
    used up before the hardware answers run out. *)
Fixpoint spin_until (fuel : nat) (cond : M Z) : M unit :=
  match fuel with
  | O => fun m => Spin m
  | S fuel' => r <- cond ;; if r =? 0 then spin_until fuel' cond else ret tt
  end.

Definition busy_wait (cond : M Z) : M unit :=
  fun m => spin_until (S (List.length (hw_in m))) cond m.

Definition serial_getc (obj : serial_t) : M Z :=
  busy_wait (serial_readable obj) ;;
  d <- gets (fun m => uart_data m (index obj)) ;;
  when (negb (NC =? pin (sw_rts d))) (lift (gpio_write (sw_rts d) 0)) ;;
  v <- hw_read ;;
  lift (emit (EvRead (uart obj) RBR v)) ;;
  ret v.

Definition serial_putc (obj : serial_t) (c : Z) : M unit :=
  busy_wait (serial_writable obj) ;;
  lift (emit (EvWrite (uart obj) THR (u8 c))) ;;
  lift (data_write (index obj) (fun d => set_count (u8 (count d + 1)) d)).

Definition serial_clear (obj : serial_t) (m : machine) : machine :=
  reg_write (uart obj)
    (set_FCR (Z.lor (Z.lor (Z.lor (Z.shiftl 1 0) (Z.shiftl 1 1)) (Z.shiftl 1 2))
                    (Z.shiftl 0 6))) m.

Definition serial_pinout_tx (tx : Z) : M unit := pinmap_pinout tx PinMap_UART_TX.

Definition serial_break_set (obj : serial_t) (m : machine) : machine :=
  reg_write (uart obj) (fun r => set_LCR (u8 (Z.lor (LCR r) (Z.shiftl 1 6))) r) m.

Definition serial_break_clear (obj : serial_t) (m : machine) : machine :=
  reg_write (uart obj)
    (fun r => set_LCR (u8 (Z.land (LCR r) (Z.lnot (Z.shiftl 1 6)))) r) m.

(** ** Flow control *)

Definition serial_set_flow_control (obj : serial_t) (type rxflow txflow : Z)
    : M unit :=
  (* Only UART1 has hardware flow control on LPC176x *)
  let uart1 := uart obj =? UART_1 in
  let index := index obj in
  (* First, disable flow control completely *)
  when uart1
       (lift (reg_write UART_1
                (fun r => set_MCR (u8 (Z.land (MCR r)
                                         (Z.lnot UART_MCR_FLOWCTRL_MASK))) r))) ;;
  lift (serial_flow_irq_set obj RxIrq 0) ;;
  lift (data_write index (set_sw_cts (mkGpio NC))) ;;
  lift (data_write index (set_sw_rts (mkGpio NC))) ;;
  if FlowControlNone =? type then ret tt
  else
    (* Check type(s) of flow control to use *)
    let uart_rts := pinmap_find_peripheral rxflow PinMap_UART_RTS in
    let uart_cts := pinmap_find_peripheral txflow PinMap_UART_CTS in
    when (((FlowControlCTS =? type) || (FlowControlRTSCTS =? type))
          && negb (NC =? txflow))
         ((* Can this be enabled in hardware? *)
          if (UART_1 =? uart_cts) && uart1 then
            (* Enable auto-CTS mode *)
            lift (reg_write UART_1
                    (fun r => set_MCR (u8 (Z.lor (MCR r) UART_MCR_CTSEN_MASK)) r))
          else
            (* Can't enable in hardware, use software emulation *)
            let '(g, init) := gpio_init txflow PIN_INPUT in
            lift (data_write index (set_sw_cts g)) ;; lift init) ;;
    when (((FlowControlRTS =? type) || (FlowControlRTSCTS =? type))
          && negb (NC =? rxflow))
         ((* Enable FIFOs, trigger level of 1 char on RX FIFO *)
          lift (reg_write (uart obj)
                  (set_FCR (Z.lor (Z.lor (Z.lor (Z.shiftl 1 0) (Z.shiftl 1 1))
                                         (Z.shiftl 1 2)) (Z.shiftl 0 6)))) ;;
          (* Can this be enabled in hardware? *)
          if (UART_1 =? uart_rts) && uart1 then
            (* Enable auto-RTS mode *)
            lift (reg_write UART_1
                    (fun r => set_MCR (u8 (Z.lor (MCR r) UART_MCR_RTSEN_MASK)) r))
          else
            (* can't enable in hardware, use software emulation *)
            let '(g, init) := gpio_init rxflow PIN_OUTPUT in
            lift (data_write index (set_sw_rts g)) ;; lift init ;;
            lift (gpio_write g 0) ;;
            (* Enable RX interrupt *)
            lift (serial_flow_irq_set obj RxIrq 1)).

(** ** Vocabulary of the properties *)

(** The state at reset: statics zero-initialised, registers cleared; the
    core clock and the hardware's future answers are given. *)
Definition zero_data : serial_global_data_s :=
  mkData (mkGpio 0) (mkGpio 0) 0 0 0 0.

Definition reset_machine (clock : Z) (inputs : list Z) : machine :=
  mkMachine (fun _ => mkRegs 0 0 0 0 0 0 0) 0 0 0 clock
            (fun _ => false) (fun _ => None) (fun _ => 0)
            (fun _ => zero_data) (fun _ => 0) 0 0 (mkSerial 0 0)
            inputs [].

(** The handle serial_init produces for peripheral number [i]. *)
Definition uart_of_index (i : Z) : Z :=
  if i =? 0 then UART_0
  else if i =? 1 then UART_1
  else if i =? 2 then UART_2
  else UART_3.

Definition port (i : Z) : serial_t := mkSerial (uart_of_index i) i.

Definition valid_handle (obj : serial_t) : bool :=
  (0 <=? index obj) && (index obj <? UART_NUM)
  && (uart obj =? uart_of_index (index obj)).

Definition state_of {A} (o : outcome A) : machine :=
  match o with
  | Ret _ m | Fatal _ m | Spin m | Undef m => m
  end.

(** Interrupt arbiter: the enable bit of a direction in IER, the two
    requester flags of the port, and sequences of calls. *)
Definition ier_bit (m : machine) (obj : serial_t) (irq : Z) : bool :=
  Z.testbit (IER (regs m (uart obj))) irq.

Definition irq_api (m : machine) (obj : serial_t) : bool :=
  negb (irq_set_api (uart_data m (index obj)) =? 0).
Definition irq_flow (m : machine) (obj : serial_t) : bool :=
  negb (irq_set_flow (uart_data m (index obj)) =? 0).


Inductive irq_call :=
| ApiCall (obj : serial_t) (irq enable : Z)
| FlowCall (obj : serial_t) (irq enable : Z).

Definition call_obj (c : irq_call) : serial_t :=
  match c with ApiCall o _ _ | FlowCall o _ _ => o end.
Definition call_irq (c : irq_call) : Z :=
  match c with ApiCall _ i _ | FlowCall _ i _ => i end.
Definition call_enable (c : irq_call) : Z :=
  match c with ApiCall _ _ e | FlowCall _ _ e => e end.

Definition run_irq_call (m : machine) (c : irq_call) : machine :=
  match c with
  | ApiCall o i e => serial_irq_set o i e m
  | FlowCall o i e => serial_flow_irq_set o i e m
  end.

Definition run_irq_calls (cs : list irq_call) (m : machine) : machine :=
  fold_left run_irq_call cs m.

(** A call the arbiter is specified for: a handle made by serial_init, a
    direction of the enumeration, an enable of 0 or 1. *)
Definition call_ok (c : irq_call) : bool :=
  valid_handle (call_obj c)
  && ((call_irq c =? RxIrq) || (call_irq c =? TxIrq))
  && ((call_enable c =? 0) || (call_enable c =? 1)).

(** The calls in [cs] that address the port of [obj] all name direction [d]. *)
Definition only_direction (obj : serial_t) (d : Z) (cs : list irq_call) : bool :=
  forallb (fun c => negb (index (call_obj c) =? index obj) || (call_irq c =? d)) cs.

(** TX credit counter. *)
Definition tx_count (m : machine) (obj : serial_t) : Z :=
  count (uart_data m (index obj)).

(** A list of events holds a read of [u]'s line status with the
    transmitter-empty bit (0x20) set. *)
Definition tx_empty_seen (u : Z) (evs : list event) : bool :=
  existsb (fun e => match e with
                    | EvRead u' LSR v => (u' =? u) && negb (Z.land v 32 =? 0)
                    | _ => false
                    end) evs.

Fixpoint run_putcs (calls : list (serial_t * Z)) : M unit :=
  match calls with
  | [] => ret tt
  | (obj, c) :: rest => serial_putc obj c ;; run_putcs rest
  end.

Definition is_lsr_read (u : Z) (e : event) : bool :=
  match e with
  | EvRead u' LSR _ => u' =? u
  | _ => false
  end.

(** Format programmer: the fields of a line-control word and the inverse
    of the encoding.  This follows the spec's description of the word. *)
Definition lcr_data_bits (w : Z) : Z := Z.land w 3.
Definition lcr_stop_bit (w : Z) : Z := Z.land (Z.shiftr w 2) 1.
Definition lcr_parity_enable (w : Z) : Z := Z.land (Z.shiftr w 3) 1.
Definition lcr_parity_select (w : Z) : Z := Z.land (Z.shiftr w 4) 3.

Definition lcr_decode (w : Z) : Z * Z * Z :=
  let parity :=
    if lcr_parity_enable w =? 0 then ParityNone
    else if lcr_parity_select w =? 0 then ParityOdd
    else if lcr_parity_select w =? 1 then ParityEven
    else if lcr_parity_select w =? 2 then ParityForced1
    else ParityForced0 in
  (lcr_data_bits w + 5, parity, lcr_stop_bit w + 1).

Definition legal_format (data_bits parity stop_bits : Z) : bool :=
  ((5 <=? data_bits) && (data_bits <=? 8))
  && ((stop_bits =? 1) || (stop_bits =? 2))
  && ((0 <=? parity) && (parity <=? 4)).

(** Divisor calculator: the search space of the spec, the order in which
    the loops visit it, and the error of a tuple as an exact rational,
    |PCLK / (16 dl (1 + dav/mv)) - baud| / baud. *)
Definition candidates (dlv : Z) : list (Z * Z * Z) :=
  flat_map (fun mv => map (fun dav => (dlv, mv, dav)) (zseq 1 (Z.to_nat (mv - 1))))
           (zseq 1 15).

(** The candidates of dlv = lo, lo+1, ..., hi-1 in visiting order. *)
Definition scan_order (lo hi : Z) : list (Z * Z * Z) :=
  flat_map candidates (zseq lo (Z.to_nat (hi - lo))).

Definition err_of (PCLK baudrate : Z) (c : Z * Z * Z) : float :=
  let '(dlv, mv, dav) := c in baud_err PCLK baudrate dlv mv dav.

Definition in_search_space (DL0 : Z) (c : Z * Z * Z) : Prop :=
  let '(dl, mv, dav) := c in
  DL0 / 2 <= dl <= DL0 /\ 1 <= mv <= 15 /\ 1 <= dav <= mv - 1.

Definition exact_err (PCLK baudrate dl mv dav : Z) : Q :=
  (Qabs (inject_Z PCLK
         / (inject_Z 16 * inject_Z dl * (1 + inject_Z dav / inject_Z mv))
         - inject_Z baudrate)
   / inject_Z baudrate)%Q.

(** The inputs the search is meant for: a positive rate whose 16-fold is an
    int, a 32-bit clock that is not an exact multiple, and an integer
    divisor that fits the 16-bit latch with room for the loop counter. *)
Definition admitted (PCLK baudrate : Z) : Prop :=
  0 < baudrate /\ 16 * baudrate <= 2147483647 /\
  0 <= PCLK < 4294967296 /\
  PCLK mod (16 * baudrate) <> 0 /\
  PCLK / (16 * baudrate) < 65535.

(** The word serial_format writes for a legal triple, in closed form. *)
Definition lcr_word (data_bits parity stop_bits : Z) : Z :=
  match parity_bits parity with
  | Some (pe, ps) =>
      u8 (Z.lor (Z.lor (Z.lor (Z.shiftl (data_bits - 5) 0)
                              (Z.shiftl (stop_bits - 1) 2))
                       (Z.shiftl pe 3))
                (Z.shiftl ps 4))
  | None => 0
  end.

(** ** Binary32 numbers as rationals *)

(** The power of two with an integer exponent. *)
Definition bpow (e : Z) : Q := (2 ^ e)%Q.

(** A shifted mantissa with its round and sticky bits stands for a
    rational [v] when [v] lies where the bits say between the mantissa and
    its successor. *)
Definition rep (mrs : shr_record) (v : Q) : Prop :=
  let m := inject_Z (shr_m mrs) in
  match shr_r mrs, shr_s mrs with
  | false, false => (v == m)%Q
  | false, true => (m < v /\ v < m + (1#2))%Q
  | true, false => (v == m + (1#2))%Q
  | true, true => (m + (1#2) < v /\ v < m + 1)%Q
  end.

(** The value of a finite number; the zeros, the infinities and NaN count 0. *)
Definition F2Q (f : float) : Q :=
  match f with
  | S754_finite s m e =>
      ((if s then - inject_Z (Zpos m) else inject_Z (Zpos m)) * bpow e)%Q
  | _ => 0%Q
  end.

(** A normal binary32 number: a mantissa of 24 bits, and room around the
    exponent. *)
Definition normal (f : float) : Prop :=
  match f with
  | S754_finite _ m e => Zpos (digits2_pos m) = 24 /\ -149 <= e <= 104
  | _ => False
  end.

(** Zero or normal. *)
Definition regular (f : float) : Prop :=
  match f with
  | S754_zero _ => True
  | _ => normal f
  end.

(** Half a unit in the last place of a number in [1, 2): 2^-24. *)
Definition ulp_half : Q := 1 # 16777216.

(** [x] is [X] up to one rounding: relative error at most 2^-24. *)
Definition close (x X : Q) : Prop := (Qabs (x - X) <= ulp_half * Qabs X)%Q.

Definition sgn (s : bool) : Q := if s then (-1)%Q else 1%Q.

Definition fexpo (f : float) : Z :=
  match f with S754_finite _ _ e => e | _ => 0 end.

(** Zero, or normal and positive: what fabs returns on a regular number. *)
Definition nonneg (f : float) : Prop :=
  match f with
  | S754_zero _ => True
  | S754_finite false _ _ => normal f
  | _ => False
  end.

(** [x] is the positive number [X] up to the relative error [k]. *)
Definition within (k x X : Q) : Prop :=
  (X * (1 - k) <= x /\ x <= X * (1 + k))%Q.

(** A binary32 number that is normal and stands for the positive rational
    [X], known to lie in [lo, hi], up to the relative error [k]. *)
Definition good (k : Q) (f : float) (X lo hi : Q) : Prop :=
  normal f /\ within k (F2Q f) X /\ (lo <= X)%Q /\ (X <= hi)%Q.

Definition ok_k (k : Q) : Prop := (0 <= k /\ k <= 1 # 1000)%Q.

Definition ok_range (lo hi : Q) : Prop :=
  ((1 # 1099511627776) <= lo /\ hi <= 549755813888)%Q.

(** What the search keeps true of its locals: the flag is up exactly when
    the best error is below 0.001f, and the best error is a number. *)
Definition hit_inv (st : search_state) : Prop :=
  s_hit st = flt (s_err_best st) f_0_001 /\ s_err_best st <> S754_nan.

(** binary32 less-or-equal. *)
Definition fle : float -> float -> bool := SFleb.

(** Finite numbers of one sign are ordered by (exponent, mantissa). *)
Definition lex_lt (e1 : Z) (m1 : positive) (e2 : Z) (m2 : positive) : Prop :=
  e1 < e2 \/ (e1 = e2 /\ (m1 < m2)%positive).

(** The tuple held in the locals of the search. *)
Definition picked (st : search_state) (c : Z * Z * Z) : Prop :=
  (s_DL st, s_MulVal st, s_DivAddVal st) = c.

(** The claim of the spec, with the exact error: the emitted tuple is at
    least as good as every tuple of the search space. *)
Definition search_optimal (PCLK baudrate : Z) : Prop :=
  forall DL dav mv,
    baud_divisors search_fuel PCLK baudrate = Divisors DL dav mv ->
    forall dl mv' dav',
      in_search_space (PCLK / (16 * baudrate)) (dl, mv', dav') ->
      (exact_err PCLK baudrate DL mv dav <= exact_err PCLK baudrate dl mv' dav')%Q.

(** A computation keeps the slots of [uart_data] that are marked
    initialized, whatever its outcome. *)
Definition keeps_initialized {A} (c : M A) : Prop :=
  forall m i, initialized (uart_data m i) <> 0 ->
              uart_data (state_of (c m)) i = uart_data m i.

(** A computation returns from every state, with a result in [P]. *)
Definition returns_with {A} (P : A -> Prop) (c : M A) : Prop :=
  forall m, exists a m', c m = Ret a m' /\ P a.

(** ** Vocabulary of the further properties *)

(** The values the search holds fit the fields they are programmed into:
    a 16-bit divisor latch, MulVal in 1..15, DivAddVal below MulVal. *)
Definition in_fields (DL DivAddVal MulVal : Z) : Prop :=
  0 <= DL < 65536 /\ 1 <= MulVal <= 15 /\ 0 <= DivAddVal < MulVal.

(** The peripheral-clock selector of a UART: which PCLKSEL register
    ([false] PCLKSEL0, [true] PCLKSEL1) and the position of its 2-bit
    field, as the switch of serial_baud has them. *)
Definition pclksel_field (u : Z) : option (bool * Z) :=
  if u =? UART_0 then Some (false, 6)
  else if u =? UART_1 then Some (false, 8)
  else if u =? UART_2 then Some (true, 16)
  else if u =? UART_3 then Some (true, 18)
  else None.

Definition pclksel (m : machine) (reg : bool) : Z :=
  if reg then PCLKSEL1 m else PCLKSEL0 m.


(** The two directions of the SerialIrq enumeration. *)
Definition is_direction (irq : Z) : bool := (irq =? RxIrq) || (irq =? TxIrq).

(** An arbiter call on a handle made by serial_init, for a direction of the
    enumeration; the enable argument is any uint32_t. *)
Definition call_wf (c : irq_call) : bool :=
  valid_handle (call_obj c) && is_direction (call_irq c).


(** A call of the public serial_irq_set. *)
Definition is_api_call (c : irq_call) : bool :=
  match c with ApiCall _ _ _ => true | FlowCall _ _ _ => false end.

(** The events of a run of line-status polls of [u], oldest first. *)
Definition lsr_polls (u : Z) (vs : list Z) : list event :=
  map (fun v => EvRead u LSR v) vs.

(** The events of a run of samples of the GPIO pin [p], oldest first. *)
Definition gpio_samples (p : Z) (vs : list Z) : list event :=
  map (fun v => EvGpioRead p v) vs.

(** The state after the driver has consumed hardware answers and logged
    [evs] (oldest first), with [rest] still to come. *)
Definition after_io (evs : list event) (rest : list Z) (m : machine) : machine :=
  with_trace (rev evs ++ trace m) (with_hw_in rest m).

(** The events of transmitting the bytes [cs], one line-status poll each. *)
Definition tx_events (u : Z) (lsrs cs : list Z) : list event :=
  flat_map (fun x => [EvRead u LSR (fst x); EvWrite u THR (u8 (snd x))])
           (combine lsrs cs).

(** The conditions serial_set_flow_control tests: a channel is asked for
    when the mode names it and its pin is connected; it is done in hardware
    when the pin is the UART1 flow pin of the table and the port is UART1. *)
Definition wants_rts (type rxflow : Z) : bool :=
  ((FlowControlRTS =? type) || (FlowControlRTSCTS =? type)) && negb (NC =? rxflow).
Definition wants_cts (type txflow : Z) : bool :=
  ((FlowControlCTS =? type) || (FlowControlRTSCTS =? type)) && negb (NC =? txflow).
Definition hw_rts (obj : serial_t) (rxflow : Z) : bool :=
  (UART_1 =? pinmap_find_peripheral rxflow PinMap_UART_RTS) && (uart obj =? UART_1).
Definition hw_cts (obj : serial_t) (txflow : Z) : bool :=
  (UART_1 =? pinmap_find_peripheral txflow PinMap_UART_CTS) && (uart obj =? UART_1).

(** ** FunctionPointer.h *)

(** FunctionPointer0<R>.  Addresses are numbers, 0 the null pointer.  The
    union [_p] is one word, read as [function] or as [object]; [_member] is
    the raw storage uintptr_t[4] a member pointer is copied into, word by
    word; [_membercaller] is null or the address of the instantiation
    membercaller<T> that knows how to read it back. *)
Module FunctionPointer0.

Record t := mk { _p : Z; _member : list Z; _membercaller : Z }.

(** What [call] hands control to. *)
Inductive invoked :=
| Function (function : Z)                                (* _p.function() *)
| Membercaller (caller object : Z) (storage : list Z)    (* _membercaller(_p.object, _member) *)
| Nothing.

Definition attach (this : t) (function : Z) : t :=
  mk function (_member this) 0.

(** The assignment through the reinterpret_cast of [_member] overwrites
    the first words of the storage with the member pointer's own. *)
Definition attach_member (this : t) (membercaller_T object : Z) (member : list Z)
    : t :=
  mk object (member ++ skipn (List.length member) (_member this)) membercaller_T.

Definition call (this : t) : invoked :=
  if (_membercaller this =? 0) && negb (_p this =? 0) then Function (_p this)
  else if negb (_membercaller this =? 0) && negb (_p this =? 0)
       then Membercaller (_membercaller this) (_p this) (_member this)
       else Nothing.

Definition get_function (this : t) : Z := _p this.

(** membercaller<T>: the object and the member pointer of [size] words
    read back from the storage, on which (o->**m)() is run. *)
Definition membercaller (size : nat) (object : Z) (storage : list Z)
    : Z * list Z :=
  (object, firstn size storage).

End FunctionPointer0.

(** FunctionPointer1<R, A1>: the same with one argument, a result, and the
    conversion to bool. *)
Module FunctionPointer1.

Record t := mk { _p : Z; _member : list Z; _membercaller : Z }.

(** What [call] returns: the result of the function or of the member
    caller on the argument, or (R)0. *)
Inductive invoked (A1 : Type) :=
| Function (function : Z) (a : A1)
| Membercaller (caller object : Z) (storage : list Z) (a : A1)
| Zero.
Arguments Function {A1} function a.
Arguments Membercaller {A1} caller object storage a.
Arguments Zero {A1}.

Definition attach (this : t) (function : Z) : t :=
  mk function (_member this) 0.

Definition attach_member (this : t) (membercaller_T object : Z) (member : list Z)
    : t :=
  mk object (member ++ skipn (List.length member) (_member this)) membercaller_T.

Definition call {A1} (this : t) (a : A1) : invoked A1 :=
  if (_membercaller this =? 0) && negb (_p this =? 0) then Function (_p this) a
  else if negb (_membercaller this =? 0) && negb (_p this =? 0)
       then Membercaller (_membercaller this) (_p this) (_member this) a
       else Zero.

Definition get_function (this : t) : Z := _p this.

(** R operator ()(A1 a) *)
Definition operator_call {A1} (this : t) (a : A1) : invoked A1 := call this a.

(** operator bool: (_membercaller != NULL ? _p.object : (void* )_p.function)
    != NULL; both arms read the one word of the union. *)
Definition operator_bool (this : t) : bool :=
  negb ((if negb (_membercaller this =? 0) then _p this else _p this) =? 0).

Definition membercaller (size : nat) (object : Z) (storage : list Z)
    : Z * list Z :=
  (object, firstn size storage).

End FunctionPointer1.

(** * Properties *)

(** ** Reasoning about the monad and the maps *)

Lemma bind_Ret {A B} (c : M A) (k : A -> M B) m b m' :
  bind c k m = Ret b m' ->
  exists a m1, c m = Ret a m1 /\ k a m1 = Ret b m'.
Proof.
  unfold bind. destruct (c m) as [a m1| | |]; try discriminate.
  intros H. exists a, m1. auto.
Qed.

Lemma bind_of_Ret {A B} (c : M A) (k : A -> M B) m a m1 :
  c m = Ret a m1 -> bind c k m = k a m1.
Proof. unfold bind. intros ->. reflexivity. Qed.

Lemma upd_same {A} (f : Z -> A) k v : upd f k v k = v.
Proof. unfold upd. now rewrite Z.eqb_refl. Qed.

Lemma upd_other {A} (f : Z -> A) k v x : x <> k -> upd f k v x = f x.
Proof. unfold upd. intros H. apply Z.eqb_neq in H. now rewrite H. Qed.

Lemma u32_testbit x i : 0 <= i < 32 -> Z.testbit (u32 x) i = Z.testbit x i.
Proof.
  intros H. unfold u32. change 4294967296 with (2 ^ 32).
  apply Z.mod_pow2_bits_low. lia.
Qed.

Lemma u8_testbit x i : 0 <= i < 8 -> Z.testbit (u8 x) i = Z.testbit x i.
Proof.
  intros H. unfold u8. change 256 with (2 ^ 8).
  apply Z.mod_pow2_bits_low. lia.
Qed.

(** ** Format programmer *)

Lemma legal_format_cases d p s :
  legal_format d p s = true ->
  (d = 5 \/ d = 6 \/ d = 7 \/ d = 8) /\ (s = 1 \/ s = 2) /\
  (p = 0 \/ p = 1 \/ p = 2 \/ p = 3 \/ p = 4).
Proof. unfold legal_format. lia. Qed.

Lemma serial_format_legal obj d p s m :
  legal_format d p s = true ->
  serial_format obj d p s m
  = Ret tt (reg_write (uart obj) (set_LCR (lcr_word d p s)) m).
Proof.
  intros H. apply legal_format_cases in H.
  destruct H as (Hd & Hs & Hp).
  destruct Hd as [->|[->|[->| ->]]], Hs as [->| ->],
    Hp as [->|[->|[->|[->| ->]]]]; reflexivity.
Qed.

Lemma serial_format_illegal obj d p s m :
  legal_format d p s = false ->
  exists msg, serial_format obj d p s m = Fatal msg m.
Proof.
  intros H. unfold serial_format, bind, when, error, ret.
  destruct (negb (s =? 1) && negb (s =? 2)) eqn:Es; [eauto|].
  destruct ((d <? 5) || (d >? 8)) eqn:Ed; [eauto|].
  destruct (parity_bits p) as [[pe ps]|] eqn:Ep; [|eauto].
  exfalso. unfold legal_format in H. unfold parity_bits in Ep.
  unfold ParityNone, ParityOdd, ParityEven, ParityForced1, ParityForced0 in Ep.
  destruct (p =? 0) eqn:E0; [lia|]. destruct (p =? 1) eqn:E1; [lia|].
  destruct (p =? 2) eqn:E2; [lia|]. destruct (p =? 3) eqn:E3; [lia|].
  destruct (p =? 4) eqn:E4; [lia|]. discriminate.
Qed.

(** C7. serial_format ends in the fatal error reporter exactly when an input
    is out of range (data bits outside 5..8, stop bits outside 1..2, parity
    outside the five enumerators); the state at the error is the entry
    state, so no register was written, and a failing call does not return.
    format(4, none, 1) and format(8, none, 3) fail. *)
Theorem serial_format_error_iff_out_of_range :
  forall obj data_bits parity stop_bits m,
    ((exists msg, serial_format obj data_bits parity stop_bits m = Fatal msg m)
     <-> legal_format data_bits parity stop_bits = false)
    /\ ((exists m', serial_format obj data_bits parity stop_bits m = Ret tt m')
        <-> legal_format data_bits parity stop_bits = true)
    /\ (exists msg, serial_format obj 4 ParityNone 1 m = Fatal msg m)
    /\ (exists msg, serial_format obj 8 ParityNone 3 m = Fatal msg m).
Proof.
  intros obj d p s m. repeat split.
  - intros [msg H]. destruct (legal_format d p s) eqn:E; [|reflexivity].
    rewrite (serial_format_legal obj d p s m E) in H. discriminate.
  - apply serial_format_illegal.
  - intros [m' H]. destruct (legal_format d p s) eqn:E; [reflexivity|].
    destruct (serial_format_illegal obj d p s m E) as [msg Hm].
    rewrite Hm in H. discriminate.
  - intros E. eexists. apply serial_format_legal, E.
  - apply serial_format_illegal. reflexivity.
  - apply serial_format_illegal. reflexivity.
Qed.

(** C6. For every legal (data_bits, parity, stop_bits) serial_format returns,
    and the line-control word it leaves in LCR has data_bits - 5 in bits
    0..1, stop_bits - 1 in bit 2, parity-enable in bit 3 (0 iff parity is
    none), parity-select in bits 4..5 (0 odd, 1 even, 2 forced-1, 3
    forced-0, and 0 when parity is none); decoding the word gives the triple
    back. *)
Theorem serial_format_round_trip :
  forall obj data_bits parity stop_bits m,
    legal_format data_bits parity stop_bits = true ->
    exists m',
      serial_format obj data_bits parity stop_bits m = Ret tt m' /\
      let w := LCR (regs m' (uart obj)) in
      lcr_data_bits w = data_bits - 5 /\
      lcr_stop_bit w = stop_bits - 1 /\
      (lcr_parity_enable w = 0 <-> parity = ParityNone) /\
      lcr_parity_select w = Z.max 0 (parity - 1) /\
      lcr_decode w = (data_bits, parity, stop_bits).
Proof.
  intros obj d p s m H. eexists. split.
  - apply serial_format_legal, H.
  - unfold reg_write. cbn [regs with_regs]. rewrite upd_same.
    cbn [LCR set_LCR].
    apply legal_format_cases in H. destruct H as (Hd & Hs & Hp).
    destruct Hd as [->|[->|[->| ->]]], Hs as [->| ->],
      Hp as [->|[->|[->|[->| ->]]]];
      vm_compute; repeat split; intros; congruence.
Qed.

Lemma serial_format_round_trip_witness :
  exists m',
    serial_format (port 0) 8 ParityEven 2 (reset_machine 96000000 []) = Ret tt m' /\
    LCR (regs m' UART_0) = 31 /\
    lcr_decode (LCR (regs m' UART_0)) = (8, ParityEven, 2).
Proof.
  destruct (serial_format_round_trip (port 0) 8 ParityEven 2
              (reset_machine 96000000 []) eq_refl) as (m' & Hrun & _ & _ & _ & _ & Hdec).
  exists m'. split; [exact Hrun|]. split; [|exact Hdec].
  rewrite (serial_format_legal (port 0) 8 ParityEven 2 _ eq_refl) in Hrun.
  injection Hrun as <-. reflexivity.
Defined.

(** ** Interrupt arbiter *)

Lemma testbit_shiftl_1 irq j :
  0 <= irq -> Z.testbit (Z.shiftl 1 irq) j = (irq =? j).
Proof.
  intros H. rewrite Z.shiftl_1_l. apply Z.pow2_bits_eqb. exact H.
Qed.


(** serial_irq_set_internal never touches the requester flags. *)
Lemma internal_uart_data obj irq enable m :
  uart_data (serial_irq_set_internal obj irq enable m) = uart_data m.
Proof.
  unfold serial_irq_set_internal.
  destruct (irq_line (uart obj)) as [irq_n vector].
  destruct (negb (enable =? 0)); [reflexivity|].
  destruct (_ + _ =? 0); [|reflexivity].
  match goal with |- context [if ?b then _ else _] => destruct b end;
    reflexivity.
Qed.

(** Its effect on the IER bits of the port it is called for. *)
Lemma internal_ier_bit obj irq enable m j :
  0 <= irq < 32 -> 0 <= j < 32 ->
  ier_bit (serial_irq_set_internal obj irq enable m) obj j
  = if negb (enable =? 0) then (irq =? j) || ier_bit m obj j
    else if irq_set_api (uart_data m (index obj))
            + irq_set_flow (uart_data m (index obj)) =? 0
         then ier_bit m obj j && negb (irq =? j)
         else ier_bit m obj j.
Proof.
  intros Hi Hj. unfold serial_irq_set_internal, ier_bit.
  destruct (irq_line (uart obj)) as [irq_n vector].
  destruct (negb (enable =? 0)).
  - cbn. rewrite upd_same. cbn.
    rewrite u32_testbit, Z.lor_spec, testbit_shiftl_1 by lia.
    apply orb_comm.
  - destruct (_ + _ =? 0); [|reflexivity].
    match goal with |- context [if ?b then _ else _] => destruct b end;
      cbn; rewrite upd_same; cbn;
      rewrite u32_testbit, Z.land_spec, Z.lnot_spec, testbit_shiftl_1 by lia;
      reflexivity.
Qed.

(** Registers of another UART block are left alone. *)
Lemma internal_regs_other obj irq enable m u :
  u <> uart obj ->
  regs (serial_irq_set_internal obj irq enable m) u = regs m u.
Proof.
  intros Hu. unfold serial_irq_set_internal.
  destruct (irq_line (uart obj)) as [irq_n vector].
  destruct (negb (enable =? 0)).
  - cbn. now rewrite upd_other.
  - destruct (_ + _ =? 0); [|reflexivity].
    match goal with |- context [if ?b then _ else _] => destruct b end;
      cbn; now rewrite upd_other.
Qed.

Lemma valid_handle_inv obj :
  valid_handle obj = true ->
  0 <= index obj < 4 /\ uart obj = uart_of_index (index obj).
Proof. unfold valid_handle, UART_NUM. lia. Qed.

Lemma uart_of_index_inj i j :
  0 <= i < 4 -> 0 <= j < 4 -> uart_of_index i = uart_of_index j -> i = j.
Proof.
  intros Hi Hj.
  assert (Ci : i = 0 \/ i = 1 \/ i = 2 \/ i = 3) by lia.
  assert (Cj : j = 0 \/ j = 1 \/ j = 2 \/ j = 3) by lia.
  destruct Ci as [->|[->|[->| ->]]], Cj as [->|[->|[->| ->]]];
    vm_compute; congruence.
Qed.

(** The decision of the applicator on the bit, as boolean arithmetic. *)
Lemma arbiter_api_case a f e bit :
  e = 0 \/ e = 1 ->
  bit = negb (a =? 0) || negb (f =? 0) ->
  (if negb (e =? 0) then true || bit
   else if u8 e + f =? 0 then bit && negb true else bit)
  = negb (u8 e =? 0) || negb (f =? 0).
Proof.
  intros [-> | ->] ->; [|reflexivity].
  change (u8 0) with 0. rewrite Z.add_0_l. cbn.
  destruct (f =? 0); cbn; [apply andb_false_r|apply orb_true_r].
Qed.

Lemma arbiter_flow_case a f e bit :
  e = 0 \/ e = 1 ->
  bit = negb (a =? 0) || negb (f =? 0) ->
  (if negb (e =? 0) then true || bit
   else if a + u8 e =? 0 then bit && negb true else bit)
  = negb (a =? 0) || negb (u8 e =? 0).
Proof.
  intros [-> | ->] ->; [|cbn; symmetry; apply orb_true_r].
  change (u8 0) with 0. rewrite Z.add_0_r. cbn.
  destruct (a =? 0); cbn; [apply andb_false_r|reflexivity].
Qed.

(** One call, seen from the port of [obj] in direction [d]. *)
Lemma irq_call_step obj d c m :
  valid_handle obj = true -> (d = RxIrq \/ d = TxIrq) ->
  call_ok c = true ->
  (index (call_obj c) = index obj -> call_irq c = d) ->
  ier_bit m obj d = irq_api m obj || irq_flow m obj ->
  let m' := run_irq_call m c in
  ier_bit m' obj d = irq_api m' obj || irq_flow m' obj.
Proof.
  intros Hobj Hd Hc Hdir Inv.
  apply valid_handle_inv in Hobj. destruct Hobj as [Hi Hu].
  unfold call_ok in Hc. apply andb_prop in Hc. destruct Hc as [Hc He].
  apply andb_prop in Hc. destruct Hc as [Hv Hq].
  apply valid_handle_inv in Hv. destruct Hv as [Hi' Hu'].
  assert (Hd32 : 0 <= d < 32) by (unfold RxIrq, TxIrq in Hd; lia).
  destruct (Z.eq_dec (index (call_obj c)) (index obj)) as [Esame|Ediff].
  - (* the call addresses this port, in direction d *)
    specialize (Hdir Esame).
    assert (Eu : uart (call_obj c) = uart obj) by congruence.
    assert (Hrw : forall e m0, ier_bit (serial_irq_set_internal (call_obj c) d e m0) obj d
                  = ier_bit (serial_irq_set_internal (call_obj c) d e m0) (call_obj c) d).
    { intros. unfold ier_bit. now rewrite Eu. }
    unfold irq_api, irq_flow, ier_bit in Inv.
    destruct c as [o i e|o i e]; cbn [call_obj call_irq call_enable] in *;
      subst i; cbn [run_irq_call]; unfold serial_irq_set, serial_flow_irq_set;
      rewrite Hrw, internal_ier_bit by lia;
      unfold irq_api, irq_flow; rewrite internal_uart_data;
      unfold data_write, ier_bit; cbn [uart_data regs with_uart_data];
      rewrite Esame, !upd_same, Eu;
      cbn [irq_set_api irq_set_flow set_irq_set_api set_irq_set_flow];
      rewrite Z.eqb_refl;
      [eapply arbiter_api_case|eapply arbiter_flow_case]; try exact Inv; lia.
  - (* the call addresses another port *)
    assert (Eu : uart obj <> uart (call_obj c)).
    { rewrite Hu, Hu'. intros E. apply uart_of_index_inj in E; lia. }
    destruct c as [o i e|o i e]; cbn [call_obj call_irq call_enable] in *;
      cbn [run_irq_call]; unfold serial_irq_set, serial_flow_irq_set;
      unfold ier_bit, irq_api, irq_flow in *;
      rewrite internal_regs_other, internal_uart_data by exact Eu;
      unfold data_write; cbn [uart_data regs with_uart_data];
      rewrite !upd_other by congruence; exact Inv.
Qed.

(** C1 (as amended). The requester flags are kept per port, not per
    direction.  For a port and a direction d whose IER bit agrees with
    (irq_set_api or irq_set_flow) at the start -- as at reset -- the bit
    still agrees after any sequence of serial_irq_set and
    serial_flow_irq_set calls (valid handles, enable 0 or 1) in which the
    calls for that port all name direction d; calls for other ports are
    unrestricted. *)
Theorem irq_enable_iff_requested_one_direction :
  forall obj d calls m,
    valid_handle obj = true ->
    d = RxIrq \/ d = TxIrq ->
    forallb call_ok calls = true ->
    only_direction obj d calls = true ->
    ier_bit m obj d = irq_api m obj || irq_flow m obj ->
    ier_bit (run_irq_calls calls m) obj d
    = irq_api (run_irq_calls calls m) obj || irq_flow (run_irq_calls calls m) obj.
Proof.
  intros obj d calls. induction calls as [|c cs IH]; intros m Hobj Hd Hok Hdir Inv.
  - exact Inv.
  - cbn in Hok, Hdir. apply andb_prop in Hok. destruct Hok as [Hc Hcs].
    apply andb_prop in Hdir. destruct Hdir as [Hdc Hdcs].
    cbn. apply IH; try assumption.
    apply irq_call_step; try assumption.
    intros E. apply Z.eqb_eq in E. rewrite E in Hdc. cbn in Hdc.
    apply Z.eqb_eq. exact Hdc.
Qed.

Lemma irq_enable_iff_requested_one_direction_witness :
  let calls := [ApiCall (port 2) RxIrq 1; FlowCall (port 2) RxIrq 1;
                ApiCall (port 0) TxIrq 1; ApiCall (port 2) RxIrq 0] in
  let m := run_irq_calls calls (reset_machine 96000000 []) in
  ier_bit m (port 2) RxIrq = irq_api m (port 2) || irq_flow m (port 2).
Proof.
  cbv zeta.
  apply (irq_enable_iff_requested_one_direction (port 2) RxIrq);
    [reflexivity | left; reflexivity | reflexivity | reflexivity | reflexivity].
Defined.

(** C1 as stated fails: enabling RX and then disabling TX through the
    application leaves the RX bit of IER set while neither requester flag
    of the port is. *)
Lemma irq_enable_not_iff_requested :
  let m := run_irq_calls [ApiCall (port 0) RxIrq 1; ApiCall (port 0) TxIrq 0]
             (reset_machine 96000000 []) in
  ~ (ier_bit m (port 0) RxIrq = true
     <-> irq_api m (port 0) || irq_flow m (port 0) = true).
Proof.
  cbv zeta. intros [H _].
  assert (E : ier_bit (run_irq_calls [ApiCall (port 0) RxIrq 1; ApiCall (port 0) TxIrq 0]
                         (reset_machine 96000000 [])) (port 0) RxIrq = true)
    by (vm_compute; reflexivity).
  specialize (H E). vm_compute in H. discriminate.
Qed.



(** ** TX credit counter *)

Lemma gets_Ret {A} (f : machine -> A) m a m1 :
  gets f m = Ret a m1 -> a = f m /\ m1 = m.
Proof. unfold gets. intros H. injection H as <- <-. auto. Qed.

Lemma lift_Ret f m a m1 : lift f m = Ret a m1 -> m1 = f m.
Proof. unfold lift. intros H. injection H as _ <-. reflexivity. Qed.

Lemma ret_Ret {A} (x : A) m a m1 : ret x m = Ret a m1 -> a = x /\ m1 = m.
Proof. unfold ret. intros H. injection H as <- <-. auto. Qed.

Lemma hw_read_Ret m v m1 :
  hw_read m = Ret v m1 ->
  exists rest, hw_in m = v :: rest /\ m1 = with_hw_in rest m.
Proof.
  unfold hw_read. destruct (hw_in m) as [|x rest]; [discriminate|].
  intros H. injection H as <- <-. eauto.
Qed.

(** Inversion of a run that returned, one monadic step at a time. *)
Ltac minv :=
  repeat match goal with
  | H : bind _ _ _ = Ret _ _ |- _ =>
      apply bind_Ret in H; destruct H as (? & ? & ? & H)
  | H : gets _ _ = Ret _ _ |- _ =>
      apply gets_Ret in H; destruct H as [? ?]; subst
  | H : lift _ _ = Ret _ _ |- _ => apply lift_Ret in H; subst
  | H : ret _ _ = Ret _ _ |- _ =>
      apply ret_Ret in H; destruct H as [? ?]; subst
  | H : hw_read _ = Ret _ _ |- _ =>
      apply hw_read_Ret in H; destruct H as (? & ? & ?); subst
  | H : error _ _ = Ret _ _ |- _ => discriminate H
  | H : Fatal _ _ = Ret _ _ |- _ => discriminate H
  | H : Spin _ = Ret _ _ |- _ => discriminate H
  | H : Undef _ = Ret _ _ |- _ => discriminate H
  | H : when _ _ _ = Ret _ _ |- _ => unfold when in H
  | H : gpio_read _ _ = Ret _ _ |- _ => unfold gpio_read in H
  | H : (if ?b then _ else _) _ = Ret _ _ |- _ => destruct b eqn:?
  end.

Lemma serial_writable_spec obj m r m' :
  serial_writable obj m = Ret r m' ->
  exists evs,
    trace m' = evs ++ trace m /\
    (List.length (hw_in m') < List.length (hw_in m))%nat /\
    ((tx_empty_seen (uart obj) evs = true /\ r <> 0 /\
      uart_data m' = upd (uart_data m) (index obj)
                         (set_count 0 (uart_data m (index obj))))
     \/ (tx_empty_seen (uart obj) evs = false /\
         uart_data m' = uart_data m /\
         (r <> 0 -> tx_count m obj < 16))).
Proof.
  intros H. unfold serial_writable in H. minv.
  all: cbn in *; subst; try discriminate.
  all: match goal with
       | |- exists evs, ?a :: ?b :: ?t = evs ++ ?t /\ _ => exists [a; b]
       | |- exists evs, ?a :: ?t = evs ++ ?t /\ _ => exists [a]
       end.
  all: (split; [reflexivity|]).
  all: (split; [repeat match goal with
                       | H : hw_in _ = _ |- _ => rewrite H
                       end; cbn; lia|]).
  all: unfold tx_empty_seen, tx_count; cbn [existsb]; try rewrite Z.eqb_refl.
  all: try match goal with
           | H : negb (Z.land _ 32 =? 0) = _ |- _ => rewrite H
           end; cbn [andb orb].
  all: first [ left; split; [reflexivity|]; split; [lia|reflexivity]
             | right; split; [reflexivity|]; split; [reflexivity|]; intros; lia ].
Qed.


Lemma tx_empty_seen_app u l1 l2 :
  tx_empty_seen u (l1 ++ l2) = tx_empty_seen u l1 || tx_empty_seen u l2.
Proof. apply existsb_app. Qed.

(** The polling loop of serial_putc: polls that answer "not writable" change
    nothing; the poll that ends the loop either saw transmitter-empty and
    reset the counter, or found fewer than 16 bytes in flight. *)
Lemma spin_writable_spec fuel obj : forall m m',
  spin_until fuel (serial_writable obj) m = Ret tt m' ->
  exists evs,
    trace m' = evs ++ trace m /\
    ((tx_empty_seen (uart obj) evs = true /\
      uart_data m' = upd (uart_data m) (index obj)
                         (set_count 0 (uart_data m (index obj))))
     \/ (tx_empty_seen (uart obj) evs = false /\
         uart_data m' = uart_data m /\ tx_count m obj < 16)).
Proof.
  induction fuel as [|fuel IH]; intros m m' H; cbn [spin_until] in H.
  - discriminate.
  - apply bind_Ret in H. destruct H as (r & m1 & Hw & H).
    apply serial_writable_spec in Hw.
    destruct Hw as (evs1 & Ht1 & _ & Hcase).
    destruct (r =? 0) eqn:Er.
    + apply Z.eqb_eq in Er. subst r.
      destruct Hcase as [(_ & Hr & _)|(Hs1 & Hd1 & _)]; [congruence|].
      apply IH in H. destruct H as (evs2 & Ht2 & Hcase2).
      exists (evs2 ++ evs1). split.
      { rewrite Ht2, Ht1. apply app_assoc. }
      rewrite tx_empty_seen_app, Hs1, orb_false_r.
      unfold tx_count in *. rewrite Hd1 in Hcase2. exact Hcase2.
    + apply ret_Ret in H. destruct H as [_ ->].
      apply Z.eqb_neq in Er. exists evs1. split; [exact Ht1|].
      destruct Hcase as [(Hs & _ & Hd)|(Hs & Hd & Hc)]; [left|right]; auto.
Qed.

Lemma serial_putc_spec obj c m m' :
  serial_putc obj c m = Ret tt m' ->
  exists evs m1,
    trace m' = evs ++ trace m /\
    uart_data m' = upd (uart_data m1) (index obj)
                     (set_count (u8 (tx_count m1 obj + 1))
                                (uart_data m1 (index obj))) /\
    ((tx_empty_seen (uart obj) evs = true /\
      uart_data m1 = upd (uart_data m) (index obj)
                         (set_count 0 (uart_data m (index obj))))
     \/ (tx_empty_seen (uart obj) evs = false /\
         uart_data m1 = uart_data m /\ tx_count m obj < 16)).
Proof.
  intros H. unfold serial_putc in H.
  apply bind_Ret in H. destruct H as ([] & m1 & Hw & H).
  unfold busy_wait in Hw. apply spin_writable_spec in Hw.
  destruct Hw as (evs & Ht & Hcase).
  minv. exists (EvWrite (uart obj) THR (u8 c) :: evs), m1.
  split; [cbn; now rewrite Ht|]. split; [reflexivity|].
  exact Hcase.
Qed.

(** What one serial_putc does to the counter of every port. *)
Lemma serial_putc_count obj c m m' :
  serial_putc obj c m = Ret tt m' ->
  exists evs,
    trace m' = evs ++ trace m /\
    (forall i, i <> index obj -> uart_data m' i = uart_data m i) /\
    (tx_empty_seen (uart obj) evs = true -> tx_count m' obj = 1) /\
    (tx_empty_seen (uart obj) evs = false ->
     tx_count m obj < 16 /\ tx_count m' obj = u8 (tx_count m obj + 1)).
Proof.
  intros H. apply serial_putc_spec in H.
  destruct H as (evs & m1 & Ht & Hd & Hcase).
  exists evs. split; [exact Ht|]. unfold tx_count in *.
  destruct Hcase as [(Hs & Hd1)|(Hs & Hd1 & Hc)]; rewrite Hd, Hd1.
  - split; [intros i Hi; now rewrite !upd_other by exact Hi|].
    split; [|congruence]. intros _. rewrite !upd_same. reflexivity.
  - split; [intros i Hi; now rewrite !upd_other by exact Hi|].
    split; [congruence|]. intros _. rewrite !upd_same. split; [exact Hc|reflexivity].
Qed.

Lemma u8_small x : 0 <= x < 256 -> u8 x = x.
Proof. intros H. unfold u8. apply Z.mod_small. exact H. Qed.

Lemma serial_putc_bound obj c m m' i :
  0 <= count (uart_data m i) <= 16 ->
  serial_putc obj c m = Ret tt m' ->
  0 <= count (uart_data m' i) <= 16.
Proof.
  intros Hr H. apply serial_putc_count in H.
  destruct H as (evs & _ & Hframe & Hseen & Hnot).
  destruct (Z.eq_dec i (index obj)) as [->|Hi].
  - unfold tx_count in *.
    destruct (tx_empty_seen (uart obj) evs).
    + rewrite Hseen by reflexivity. lia.
    + destruct (Hnot eq_refl) as [Hlt ->]. rewrite u8_small; lia.
  - rewrite Hframe by exact Hi. exact Hr.
Qed.

Lemma run_putcs_bound calls : forall m m' i,
  0 <= count (uart_data m i) <= 16 ->
  run_putcs calls m = Ret tt m' ->
  0 <= count (uart_data m' i) <= 16.
Proof.
  induction calls as [|[obj c] rest IH]; intros m m' i Hr H; cbn [run_putcs] in H.
  - apply ret_Ret in H. destruct H as [_ ->]. exact Hr.
  - apply bind_Ret in H. destruct H as ([] & m1 & Hp & H).
    eapply IH; [|exact H]. eapply serial_putc_bound; eassumption.
Qed.

(** serial_putc returns as soon as the hardware lets it: here, no software
    CTS pin and a first line-status answer that shows the transmitter empty
    or finds room in the FIFO. *)
Lemma serial_putc_returns obj c m lsr rest :
  pin (sw_cts (uart_data m (index obj))) = NC ->
  hw_in m = lsr :: rest ->
  Z.land lsr 32 <> 0 \/ tx_count m obj < 16 ->
  exists m', serial_putc obj c m = Ret tt m'.
Proof.
  intros Hpin Hin Hroom.
  assert (Hw : exists m1, serial_writable obj m = Ret 1 m1).
  { unfold serial_writable. cbv beta iota delta [bind gets ret lift hw_read].
    rewrite Hpin. change (negb (NC =? NC)) with false. cbv beta iota.
    change (negb (1 =? 0)) with true. cbv beta iota. rewrite Hin.
    cbn [uart_data emit with_trace with_hw_in].
    destruct (Z.land lsr 32 =? 0) eqn:Eb; cbn [negb]; [|eauto].
    destruct Hroom as [Hb|Hc]; [apply Z.eqb_eq in Eb; contradiction|].
    unfold tx_count in Hc.
    change (uart_data (emit (EvRead (uart obj) LSR lsr) (with_hw_in rest m)))
      with (uart_data m).
    destruct (count (uart_data m (index obj)) >=? 16) eqn:Ec; [lia|eauto]. }
  destruct Hw as [m1 Hw].
  assert (Hb : busy_wait (serial_writable obj) m = Ret tt m1).
  { unfold busy_wait. cbn [spin_until].
    rewrite (bind_of_Ret _ _ _ _ _ Hw). reflexivity. }
  unfold serial_putc. rewrite (bind_of_Ret _ _ _ _ _ Hb).
  unfold bind, lift. eauto.
Qed.

Lemma writable_nc_step obj m lsr rest :
  pin (sw_cts (uart_data m (index obj))) = NC ->
  hw_in m = lsr :: rest ->
  serial_writable obj m
  = if Z.land lsr 32 =? 0
    then Ret (if tx_count m obj >=? 16 then 0 else 1)
             (emit (EvRead (uart obj) LSR lsr) (with_hw_in rest m))
    else Ret 1 (data_write (index obj) (set_count 0)
                  (emit (EvRead (uart obj) LSR lsr) (with_hw_in rest m))).
Proof.
  intros Hpin Hin. unfold serial_writable.
  cbv beta iota delta [bind gets ret lift hw_read].
  rewrite Hpin. change (negb (NC =? NC)) with false. cbv beta iota.
  change (negb (1 =? 0)) with true. cbv beta iota. rewrite Hin.
  cbn [uart_data emit with_trace with_hw_in].
  destruct (Z.land lsr 32 =? 0); cbn [negb]; [|reflexivity].
  unfold tx_count.
  change (uart_data (emit (EvRead (uart obj) LSR lsr) (with_hw_in rest m)))
    with (uart_data m).
  destruct (count (uart_data m (index obj)) >=? 16); reflexivity.
Qed.

Lemma writable_cts_high obj m v rest :
  pin (sw_cts (uart_data m (index obj))) <> NC ->
  hw_in m = v :: rest -> v <> 0 ->
  serial_writable obj m
  = Ret 0 (emit (EvGpioRead (pin (sw_cts (uart_data m (index obj)))) v)
                (with_hw_in rest m)).
Proof.
  intros Hpin Hin Hv. unfold serial_writable, gpio_read.
  cbv beta iota delta [bind gets ret lift hw_read].
  assert (E : (NC =? pin (sw_cts (uart_data m (index obj)))) = false) by lia.
  rewrite E. cbn [negb]. rewrite Hin.
  apply Z.eqb_neq in Hv. rewrite Hv. reflexivity.
Qed.

Lemma putc_room_step obj c m lsr rest :
  pin (sw_cts (uart_data m (index obj))) = NC ->
  hw_in m = lsr :: rest ->
  Z.land lsr 32 = 0 ->
  tx_count m obj < 16 ->
  serial_putc obj c m
  = Ret tt (data_write (index obj) (fun d => set_count (u8 (count d + 1)) d)
              (emit (EvWrite (uart obj) THR (u8 c))
                 (emit (EvRead (uart obj) LSR lsr) (with_hw_in rest m)))).
Proof.
  intros Hpin Hin Hl Hc.
  assert (Hb : busy_wait (serial_writable obj) m
               = Ret tt (emit (EvRead (uart obj) LSR lsr) (with_hw_in rest m))).
  { unfold busy_wait. cbn [spin_until]. unfold bind.
    rewrite (writable_nc_step obj m lsr rest Hpin Hin).
    apply Z.eqb_eq in Hl. rewrite Hl.
    assert (E : (tx_count m obj >=? 16) = false) by lia.
    rewrite E. reflexivity. }
  unfold serial_putc. rewrite (bind_of_Ret _ _ _ _ _ Hb). reflexivity.
Qed.

Lemma writable_cts_low obj m lsr rest :
  pin (sw_cts (uart_data m (index obj))) <> NC ->
  hw_in m = 0 :: lsr :: rest ->
  let m1 := emit (EvRead (uart obj) LSR lsr)
              (with_hw_in rest
                 (emit (EvGpioRead (pin (sw_cts (uart_data m (index obj)))) 0) m)) in
  serial_writable obj m
  = if Z.land lsr 32 =? 0
    then Ret (if tx_count m obj >=? 16 then 0 else 1) m1
    else Ret 1 (data_write (index obj) (set_count 0) m1).
Proof.
  intros Hpin Hin. cbv zeta. unfold serial_writable, gpio_read.
  cbv beta iota delta [bind gets ret lift hw_read].
  assert (E : (NC =? pin (sw_cts (uart_data m (index obj)))) = false) by lia.
  rewrite E. cbn [negb]. rewrite Hin.
  cbn [Z.eqb negb hw_in emit with_trace with_hw_in uart_data].
  destruct (Z.land lsr 32 =? 0); cbn [negb]; [|reflexivity].
  unfold tx_count. cbn [uart_data emit with_trace with_hw_in].
  destruct (count (uart_data m (index obj)) >=? 16); reflexivity.
Qed.

Lemma putc_thre_step obj c m lsr rest :
  pin (sw_cts (uart_data m (index obj))) = NC ->
  hw_in m = lsr :: rest ->
  Z.land lsr 32 <> 0 ->
  serial_putc obj c m
  = Ret tt (data_write (index obj) (fun d => set_count (u8 (count d + 1)) d)
              (emit (EvWrite (uart obj) THR (u8 c))
                 (data_write (index obj) (set_count 0)
                    (emit (EvRead (uart obj) LSR lsr) (with_hw_in rest m))))).
Proof.
  intros Hpin Hin Hl.
  assert (Hb : busy_wait (serial_writable obj) m
               = Ret tt (data_write (index obj) (set_count 0)
                           (emit (EvRead (uart obj) LSR lsr) (with_hw_in rest m)))).
  { unfold busy_wait. cbn [spin_until]. unfold bind.
    rewrite (writable_nc_step obj m lsr rest Hpin Hin).
    apply Z.eqb_neq in Hl. rewrite Hl. reflexivity. }
  unfold serial_putc. rewrite (bind_of_Ret _ _ _ _ _ Hb). reflexivity.
Qed.

Lemma putc_full_step obj c m lsr rest :
  pin (sw_cts (uart_data m (index obj))) = NC ->
  hw_in m = lsr :: rest ->
  Z.land lsr 32 = 0 ->
  16 <= tx_count m obj ->
  serial_putc obj c m
  = serial_putc obj c (emit (EvRead (uart obj) LSR lsr) (with_hw_in rest m)).
Proof.
  intros Hpin Hin Hl Hc. unfold serial_putc. unfold bind at 1 3.
  assert (Hb : busy_wait (serial_writable obj) m
               = busy_wait (serial_writable obj)
                   (emit (EvRead (uart obj) LSR lsr) (with_hw_in rest m))).
  { unfold busy_wait. rewrite Hin.
    cbn [List.length hw_in emit with_trace with_hw_in].
    cbn [spin_until]. unfold bind at 1.
    rewrite (writable_nc_step obj m lsr rest Hpin Hin).
    apply Z.eqb_eq in Hl. rewrite Hl.
    assert (E : (tx_count m obj >=? 16) = true) by lia.
    rewrite E. reflexivity. }
  rewrite Hb. reflexivity.
Qed.

(** C3. The TX credit counter.  (1) A serial_putc that returns has added
    exactly one to the counter -- to its entry value when no line-status
    read of the call showed transmitter-empty, to 0 when one did -- and
    leaves it at most 16.  (2) What serial_writable does is decided by what
    the hardware answers: once the software CTS pin, if there is one, reads
    low, it reads the line status exactly once; if the answer has bit 5
    (transmitter empty) set the counter is 0 afterwards and the port is
    writable; if not, the counter is unchanged and the port is writable
    exactly when the counter is below 16; a CTS pin that reads high ends
    the call before the line status is read, counter unchanged.  (3) The
    same for serial_putc, answer by answer: on transmitter-empty it writes
    the byte and the counter is 1; without it and with room it writes the
    byte and the counter is one more; without it and at 16 or more it
    writes nothing and polls again.  (4) From a counter of at most 16, as at
    reset, the counter is at most 16 after any sequence of serial_putc calls
    on any ports. *)
Theorem tx_count_accounting :
  (forall obj c m m',
      0 <= tx_count m obj <= 255 ->
      serial_putc obj c m = Ret tt m' ->
      exists evs,
        trace m' = evs ++ trace m /\
        tx_count m' obj
        = (if tx_empty_seen (uart obj) evs then 0 else tx_count m obj) + 1 /\
        tx_count m' obj <= TX_FIFO_DEPTH)
  /\ (forall obj m lsr rest,
         let p := pin (sw_cts (uart_data m (index obj))) in
         (p = NC /\ hw_in m = lsr :: rest) \/ (p <> NC /\ hw_in m = 0 :: lsr :: rest) ->
         exists m',
           serial_writable obj m
           = Ret (if Z.land lsr 32 =? 0
                  then if tx_count m obj >=? 16 then 0 else 1
                  else 1) m' /\
           hw_in m' = rest /\
           trace m' = EvRead (uart obj) LSR lsr
                      :: (if p =? NC then [] else [EvGpioRead p 0]) ++ trace m /\
           tx_count m' obj = (if Z.land lsr 32 =? 0 then tx_count m obj else 0))
  /\ (forall obj m v rest,
         pin (sw_cts (uart_data m (index obj))) <> NC ->
         hw_in m = v :: rest -> v <> 0 ->
         exists m',
           serial_writable obj m = Ret 0 m' /\
           hw_in m' = rest /\
           trace m' = EvGpioRead (pin (sw_cts (uart_data m (index obj)))) v
                      :: trace m /\
           uart_data m' = uart_data m)
  /\ (forall obj c m lsr rest,
         pin (sw_cts (uart_data m (index obj))) = NC ->
         hw_in m = lsr :: rest ->
         let m1 := emit (EvRead (uart obj) LSR lsr) (with_hw_in rest m) in
         (Z.land lsr 32 <> 0 ->
          exists m',
            serial_putc obj c m = Ret tt m' /\
            tx_count m' obj = 1 /\ hw_in m' = rest /\
            trace m' = EvWrite (uart obj) THR (u8 c) :: trace m1) /\
         (Z.land lsr 32 = 0 -> 0 <= tx_count m obj < 16 ->
          exists m',
            serial_putc obj c m = Ret tt m' /\
            tx_count m' obj = tx_count m obj + 1 /\ hw_in m' = rest /\
            trace m' = EvWrite (uart obj) THR (u8 c) :: trace m1) /\
         (Z.land lsr 32 = 0 -> 16 <= tx_count m obj ->
          serial_putc obj c m = serial_putc obj c m1 /\
          tx_count m1 obj = tx_count m obj))
  /\ (forall calls m m' i,
         0 <= count (uart_data m i) <= TX_FIFO_DEPTH ->
         run_putcs calls m = Ret tt m' ->
         count (uart_data m' i) <= TX_FIFO_DEPTH).
Proof.
  unfold TX_FIFO_DEPTH. split; [|split; [|split; [|split]]].
  - intros obj c m m' Hr H. apply serial_putc_count in H.
    destruct H as (evs & Ht & _ & Hseen & Hnot).
    exists evs. split; [exact Ht|].
    destruct (tx_empty_seen (uart obj) evs).
    + rewrite Hseen by reflexivity. lia.
    + destruct (Hnot eq_refl) as [Hlt ->]. rewrite u8_small; lia.
  - intros obj m lsr rest. cbv zeta. intros [[Hp Hin]|[Hp Hin]].
    + rewrite (writable_nc_step obj m lsr rest Hp Hin).
      apply Z.eqb_eq in Hp. rewrite Hp.
      destruct (Z.land lsr 32 =? 0); eexists; (split; [reflexivity|]);
        (split; [reflexivity|]); (split; [reflexivity|]);
        unfold tx_count; cbn; [reflexivity|now rewrite upd_same].
    + rewrite (writable_cts_low obj m lsr rest Hp Hin). cbv zeta.
      apply Z.eqb_neq in Hp. rewrite Hp.
      destruct (Z.land lsr 32 =? 0); eexists; (split; [reflexivity|]);
        (split; [reflexivity|]); (split; [reflexivity|]);
        unfold tx_count; cbn; [reflexivity|now rewrite upd_same].
  - intros obj m v rest Hp Hin Hv.
    rewrite (writable_cts_high obj m v rest Hp Hin Hv).
    eexists. split; [reflexivity|]. repeat split.
  - intros obj c m lsr rest Hp Hin. cbv zeta. split; [|split].
    + intros Hl. rewrite (putc_thre_step obj c m lsr rest Hp Hin Hl).
      eexists. split; [reflexivity|]. split; [|split; reflexivity].
      unfold tx_count. cbn. rewrite !upd_same. reflexivity.
    + intros Hl Hc.
      rewrite (putc_room_step obj c m lsr rest Hp Hin Hl ltac:(lia)).
      eexists. split; [reflexivity|]. split; [|split; reflexivity].
      unfold tx_count in *. cbn. rewrite upd_same. cbn.
      apply u8_small. lia.
    + intros Hl Hc. split; [|reflexivity].
      apply putc_full_step; assumption.
  - intros calls m m' i Hr H. eapply run_putcs_bound in H; [|exact Hr]. lia.
Qed.

(** A full counter and two answers of the hardware: the first without
    transmitter-empty, on which serial_putc writes nothing, the second with
    it, on which the byte goes out and the counter restarts at 1. *)
Lemma tx_count_accounting_witness :
  let m := data_write 0 (set_count 16)
             (data_write 0 (set_sw_cts (mkGpio NC))
                (reset_machine 96000000 [0; 32; 7])) in
  exists m',
    serial_putc (port 0) 65 m = Ret tt m' /\
    tx_count m' (port 0) = 1 /\ hw_in m' = [7] /\
    trace m' = [EvWrite UART_0 THR 65; EvRead UART_0 LSR 32; EvRead UART_0 LSR 0].
Proof.
  cbv zeta.
  pose proof (proj1 (proj2 (proj2 (proj2 tx_count_accounting)))) as Hstep.
  destruct (Hstep (port 0) 65
              (data_write 0 (set_count 16)
                 (data_write 0 (set_sw_cts (mkGpio NC))
                    (reset_machine 96000000 [0; 32; 7])))
              0 [32; 7] eq_refl eq_refl) as (_ & _ & Hfull).
  destruct (Hfull eq_refl ltac:(vm_compute; discriminate)) as [Hagain _].
  rewrite Hagain.
  destruct (Hstep (port 0) 65
              (emit (EvRead (uart (port 0)) LSR 0)
                 (with_hw_in [32; 7]
                    (data_write 0 (set_count 16)
                       (data_write 0 (set_sw_cts (mkGpio NC))
                          (reset_machine 96000000 [0; 32; 7])))))
              32 [7] eq_refl eq_refl) as (Hthre & _ & _).
  destruct (Hthre ltac:(vm_compute; discriminate)) as (m' & Hrun & Hc & Hin & Ht).
  exists m'. split; [exact Hrun|]. split; [exact Hc|]. split; [exact Hin|].
  rewrite Ht. reflexivity.
Defined.

(** ** Software RTS *)

Lemma spin_readable_spec fuel obj : forall m m',
  spin_until fuel (serial_readable obj) m = Ret tt m' ->
  uart_data m' = uart_data m /\ gpio_level m' = gpio_level m /\
  exists polls,
    trace m' = polls ++ trace m /\
    forallb (is_lsr_read (uart obj)) polls = true.
Proof.
  induction fuel as [|fuel IH]; intros m m' H; cbn [spin_until] in H.
  - discriminate.
  - apply bind_Ret in H. destruct H as (r & m1 & Hr & H).
    unfold serial_readable in Hr. minv.
    + apply IH in H. destruct H as (Hd & Hg & polls & Ht & Hp).
      split; [exact Hd|]. split; [exact Hg|].
      exists (polls ++ [EvRead (uart obj) LSR x]). split.
      * rewrite Ht. cbn. now rewrite <- app_assoc.
      * rewrite forallb_app, Hp. cbn. now rewrite Z.eqb_refl.
    + split; [reflexivity|]. split; [reflexivity|].
      exists [EvRead (uart obj) LSR x]. split; [reflexivity|].
      cbn. now rewrite Z.eqb_refl.
Qed.

(** The dispatcher in closed form: the RTS write, then -- when an id is
    registered -- the call through the pointer, which is the last thing the
    dispatcher does. *)
Lemma uart_irq_run handler_code iir index m :
  let g := sw_rts (uart_data m index) in
  let id := serial_irq_ids m index in
  let fn := irq_handler m in
  let irq := if iir =? 1 then TxIrq else RxIrq in
  let m1 := if (iir =? 2) && negb (pin g =? NC) then gpio_write g 1 m else m in
  uart_irq handler_code iir index m
  = if ((iir =? 1) || (iir =? 2)) && negb (id =? 0)
    then if fn =? 0 then Undef m1
         else handler_code fn id irq (emit (EvHandler fn id irq) m1)
    else Ret tt m1.
Proof.
  cbv zeta. unfold uart_irq.
  destruct (iir =? 1) eqn:E1.
  - apply Z.eqb_eq in E1. subst iir. cbn [Z.eqb Pos.eqb andb orb].
    cbv beta iota delta [bind gets when lift ret call_irq_handler].
    change (RxIrq =? TxIrq) with false. cbn [andb].
    destruct (serial_irq_ids m index =? 0); cbn [negb]; [reflexivity|].
    destruct (irq_handler m =? 0); reflexivity.
  - destruct (iir =? 2) eqn:E2; [|reflexivity].
    cbv beta iota delta [bind gets when lift ret call_irq_handler].
    change (RxIrq =? RxIrq) with true. cbn [andb orb].
    destruct (pin (sw_rts (uart_data m index)) =? NC); cbn [negb];
      cbn [serial_irq_ids gpio_write emit with_trace with_gpio_level irq_handler];
      (destruct (serial_irq_ids m index =? 0); cbn [negb]; [reflexivity|]);
      try change (irq_handler (gpio_write (sw_rts (uart_data m index)) 1 m))
        with (irq_handler m);
      destruct (irq_handler m =? 0); reflexivity.
Qed.

(** serial_getc returns once the line status shows data: here on the first
    poll. *)
Lemma serial_getc_returns obj m lsr data rest :
  hw_in m = lsr :: data :: rest ->
  Z.land lsr 1 <> 0 ->
  exists m', serial_getc obj m = Ret data m'.
Proof.
  intros Hin Hready. apply Z.eqb_neq in Hready.
  assert (Hb : busy_wait (serial_readable obj) m
               = Ret tt (emit (EvRead (uart obj) LSR lsr) (with_hw_in (data :: rest) m))).
  { unfold busy_wait. rewrite Hin. cbn [List.length spin_until].
    unfold serial_readable. cbv beta iota delta [bind hw_read lift ret].
    rewrite Hin, Hready. reflexivity. }
  unfold serial_getc. rewrite (bind_of_Ret _ _ _ _ _ Hb).
  cbv beta iota delta [bind gets when lift ret hw_read].
  destruct (negb (NC =? _)); cbn; eauto.
Qed.

(** C8. With a software RTS pin in the port's slot: (1) the RX dispatch
    uart_irq(2, index) drives the pin high before anything else; in the
    state so reached -- pin level 1, the write the newest event -- it
    returns when no id is registered, and otherwise calls the handler
    through the pointer (undefined behaviour for a null pointer), so
    whatever the handler does it does with the pin already high; the same
    holds for an interrupt entry whose IIR read carries the RX code, the
    read coming first; (2) a serial_getc that returns a byte has driven the
    pin low, and that write comes after the line-status polls and directly
    before the read of the receive buffer register. *)
Theorem software_rts_gating :
  (forall handler_code index m,
      pin (sw_rts (uart_data m index)) <> NC ->
      let p := pin (sw_rts (uart_data m index)) in
      let id := serial_irq_ids m index in
      let fn := irq_handler m in
      exists m1,
        m1 = gpio_write (sw_rts (uart_data m index)) 1 m /\
        gpio_level m1 p = 1 /\
        trace m1 = EvGpioWrite p 1 :: trace m /\
        uart_irq handler_code 2 index m
        = (if id =? 0 then Ret tt m1
           else if fn =? 0 then Undef m1
           else handler_code fn id RxIrq (emit (EvHandler fn id RxIrq) m1)))
  /\ (forall handler_code u index m iir rest,
         pin (sw_rts (uart_data m index)) <> NC ->
         hw_in m = iir :: rest ->
         Z.land (Z.shiftr iir 1) 7 = 2 ->
         let p := pin (sw_rts (uart_data m index)) in
         let id := serial_irq_ids m index in
         let fn := irq_handler m in
         exists m1,
           m1 = gpio_write (sw_rts (uart_data m index)) 1
                  (emit (EvRead u IIR iir) (with_hw_in rest m)) /\
           gpio_level m1 p = 1 /\
           trace m1 = EvGpioWrite p 1 :: EvRead u IIR iir :: trace m /\
           uart_isr handler_code u index m
           = (if id =? 0 then Ret tt m1
              else if fn =? 0 then Undef m1
              else handler_code fn id RxIrq (emit (EvHandler fn id RxIrq) m1)))
  /\ (forall obj m c m',
         pin (sw_rts (uart_data m (index obj))) <> NC ->
         serial_getc obj m = Ret c m' ->
         let p := pin (sw_rts (uart_data m (index obj))) in
         gpio_level m' p = 0 /\
         exists polls,
           trace m' = EvRead (uart obj) RBR c :: EvGpioWrite p 0 :: polls ++ trace m /\
           forallb (is_lsr_read (uart obj)) polls = true).
Proof.
  split; [|split].
  - intros handler_code index m Hpin. cbv zeta.
    eexists. split; [reflexivity|].
    split; [cbn; apply upd_same|]. split; [reflexivity|].
    rewrite uart_irq_run. cbv zeta.
    apply Z.eqb_neq in Hpin. rewrite Hpin. cbn [Z.eqb Pos.eqb andb orb negb].
    destruct (serial_irq_ids m index =? 0); reflexivity.
  - intros handler_code u index m iir rest Hpin Hin Hcode. cbv zeta.
    eexists. split; [reflexivity|].
    split; [cbn; apply upd_same|]. split; [reflexivity|].
    unfold uart_isr. unfold bind at 1. unfold bind at 1. unfold hw_read.
    rewrite Hin. cbv beta iota delta [lift]. rewrite Hcode.
    rewrite uart_irq_run. cbv zeta.
    cbn [uart_data serial_irq_ids irq_handler emit with_trace with_hw_in].
    apply Z.eqb_neq in Hpin. rewrite Hpin. cbn [Z.eqb Pos.eqb andb orb negb].
    destruct (serial_irq_ids m index =? 0); reflexivity.
  - intros obj m c m' Hpin H p. unfold serial_getc in H.
    apply bind_Ret in H. destruct H as ([] & m1 & Hw & H).
    unfold busy_wait in Hw. apply spin_readable_spec in Hw.
    destruct Hw as (Hd & Hg & polls & Ht & Hp).
    apply bind_Ret in H. destruct H as (d & m2 & Hgets & H).
    apply gets_Ret in Hgets. destruct Hgets as [-> ->].
    rewrite Hd in H. apply Z.eqb_neq in Hpin. rewrite Z.eqb_sym in Hpin.
    rewrite Hpin in H. cbn [negb when] in H. minv.
    cbn. split; [apply upd_same|].
    exists polls. split; [now rewrite Ht|exact Hp].
Qed.

(** An RX interrupt on a port with software RTS whose handler reads the
    byte: RTS goes high at the dispatch, the handler is called, RTS goes low
    at its serial_getc, and then the byte is read. *)
Lemma software_rts_gating_witness :
  let handler_code := fun (fn id irq : Z) => serial_getc (port 0) ;; ret tt in
  let m := serial_irq_handler (port 0) 4096 11
             (data_write 0 (set_sw_rts (mkGpio P0_22))
                (reset_machine 96000000 [1; 65])) in
  exists m',
    uart_irq handler_code 2 0 m = Ret tt m' /\
    gpio_level m' P0_22 = 0 /\
    trace m' = [EvRead UART_0 RBR 65; EvGpioWrite P0_22 0; EvRead UART_0 LSR 1;
                EvHandler 4096 11 RxIrq; EvGpioWrite P0_22 1].
Proof.
  cbv zeta.
  destruct (proj1 software_rts_gating
              (fun (fn id irq : Z) => serial_getc (port 0) ;; ret tt) 0
              (serial_irq_handler (port 0) 4096 11
                 (data_write 0 (set_sw_rts (mkGpio P0_22))
                    (reset_machine 96000000 [1; 65]))))
    as (m1 & Hm1 & _ & _ & Hrun).
  - vm_compute. discriminate.
  - rewrite Hrun, Hm1. vm_compute. eexists. repeat split.
Defined.

(** ** Re-initialisation *)

Lemma keeps_bind {A B} (c : M A) (k : A -> M B) :
  keeps_initialized c -> (forall a, keeps_initialized (k a)) ->
  keeps_initialized (bind c k).
Proof.
  intros Hc Hk m i Hi. specialize (Hc m i Hi). unfold bind.
  destruct (c m) as [a m1|msg m1|m1|m1]; cbn [state_of] in *; try exact Hc.
  rewrite <- Hc. apply Hk. rewrite Hc. exact Hi.
Qed.

Lemma keeps_frame {A} (c : M A) :
  (forall m, uart_data (state_of (c m)) = uart_data m) -> keeps_initialized c.
Proof. intros H m i _. now rewrite H. Qed.

Lemma keeps_ret {A} (a : A) : keeps_initialized (ret a).
Proof. apply keeps_frame. reflexivity. Qed.

Lemma keeps_error {A} msg : keeps_initialized (@error A msg).
Proof. apply keeps_frame. reflexivity. Qed.

Lemma keeps_gets {A} (f : machine -> A) : keeps_initialized (gets f).
Proof. apply keeps_frame. reflexivity. Qed.

Lemma keeps_lift f :
  (forall m, uart_data (f m) = uart_data m) -> keeps_initialized (lift f).
Proof. intros H. apply keeps_frame. exact H. Qed.

Lemma keeps_when b c : keeps_initialized c -> keeps_initialized (when b c).
Proof. intros H. destruct b; [exact H|apply keeps_ret]. Qed.

Lemma keeps_if {A} (b : bool) (c1 c2 : M A) :
  keeps_initialized c1 -> keeps_initialized c2 ->
  keeps_initialized (if b then c1 else c2).
Proof. destruct b; auto. Qed.

Create HintDb keeps.
#[local] Hint Resolve keeps_ret keeps_error keeps_gets keeps_when keeps_if : keeps.

Ltac keeps_step :=
  repeat match goal with
         | |- keeps_initialized (bind _ _) => apply keeps_bind; [|intros ?]
         | |- keeps_initialized (lift _) =>
             apply keeps_lift; intros ?; reflexivity
         | |- keeps_initialized (when _ _) => apply keeps_when
         | |- keeps_initialized (if _ then _ else _) => apply keeps_if
         | |- keeps_initialized _ => solve [auto with keeps]
         end.

Lemma keeps_pinmap_peripheral p map : keeps_initialized (pinmap_peripheral p map).
Proof. unfold pinmap_peripheral. keeps_step. Qed.

Lemma keeps_pinmap_merge a b : keeps_initialized (pinmap_merge a b).
Proof. unfold pinmap_merge. keeps_step. Qed.

Lemma keeps_pinmap_pinout p map : keeps_initialized (pinmap_pinout p map).
Proof.
  unfold pinmap_pinout. apply keeps_if; [keeps_step|].
  destruct (pinmap_find_function p map); keeps_step.
Qed.

Lemma keeps_pin_mode p mode : keeps_initialized (pin_mode p mode).
Proof. unfold pin_mode. keeps_step. Qed.

Lemma keeps_serial_baud obj baudrate : keeps_initialized (serial_baud obj baudrate).
Proof.
  unfold serial_baud. apply keeps_bind; [keeps_step|intros _].
  apply keeps_bind; [keeps_step|intros PCLK].
  destruct (baud_divisors search_fuel PCLK baudrate); keeps_step;
    apply keeps_frame; reflexivity.
Qed.

Lemma keeps_serial_format obj d p s : keeps_initialized (serial_format obj d p s).
Proof.
  unfold serial_format. apply keeps_bind; [keeps_step|intros _].
  apply keeps_bind; [keeps_step|intros _].
  destruct (parity_bits p) as [[pe ps]|]; keeps_step.
Qed.

#[local] Hint Resolve keeps_pinmap_peripheral keeps_pinmap_merge
  keeps_pinmap_pinout keeps_pin_mode keeps_serial_baud keeps_serial_format
  : keeps.

(** The guarded reset of the pin slots at the end of serial_init. *)
Lemma keeps_init_block {A} i (k : M A) :
  keeps_initialized k ->
  keeps_initialized
    (d <- gets (fun m => uart_data m i) ;;
     when (initialized d =? 0)
          (lift (data_write i (set_sw_rts (mkGpio NC))) ;;
           lift (data_write i (set_sw_cts (mkGpio NC))) ;;
           lift (data_write i (set_initialized 1))) ;;
     k).
Proof.
  intros Hk m j Hj. cbv beta iota delta [bind gets when lift ret].
  destruct (initialized (uart_data m i) =? 0) eqn:E.
  - apply Z.eqb_eq in E.
    assert (Hji : j <> i) by congruence.
    rewrite Hk; cbn; rewrite !upd_other by exact Hji; [reflexivity|exact Hj].
  - apply Hk, Hj.
Qed.

Lemma keeps_serial_init obj tx rx : keeps_initialized (serial_init obj tx rx).
Proof.
  unfold serial_init.
  do 4 (apply keeps_bind; [solve [keeps_step]|intros ?]).
  apply keeps_bind;
    [apply keeps_lift; intros m; destruct (power_bit _); reflexivity|intros ?].
  do 8 (apply keeps_bind; [solve [keeps_step]|intros ?]).
  apply keeps_init_block. keeps_step.
Qed.

(** C9. A serial_init that returns for a port whose slot was already marked
    initialized leaves that slot's sw_rts and sw_cts as they were: the
    reset of the two pin slots to NC is guarded by the initialized flag.
    (Every slot marked initialized is left whole, whatever the outcome of
    the call.) *)
Theorem serial_init_keeps_flow_pins :
  forall obj tx rx m obj' m',
    serial_init obj tx rx m = Ret obj' m' ->
    initialized (uart_data m (index obj')) <> 0 ->
    sw_rts (uart_data m' (index obj')) = sw_rts (uart_data m (index obj')) /\
    sw_cts (uart_data m' (index obj')) = sw_cts (uart_data m (index obj')).
Proof.
  intros obj tx rx m obj' m' H Hi.
  pose proof (keeps_serial_init obj tx rx m (index obj') Hi) as K.
  rewrite H in K. cbn [state_of] in K. rewrite K. split; reflexivity.
Qed.

Lemma serial_init_keeps_flow_pins_witness :
  let m1 := state_of (serial_init (mkSerial 0 0) P0_2 P0_3 (reset_machine 96000000 [])) in
  let m2 := state_of (serial_set_flow_control (port 0) FlowControlRTS P0_22 NC m1) in
  let m3 := state_of (serial_init (mkSerial 0 0) P0_2 P0_3 m2) in
  sw_rts (uart_data m3 0) = mkGpio P0_22 /\ sw_cts (uart_data m3 0) = mkGpio NC.
Proof.
  cbv zeta.
  set (m2 := state_of (serial_set_flow_control (port 0) FlowControlRTS P0_22 NC
                 (state_of (serial_init (mkSerial 0 0) P0_2 P0_3
                              (reset_machine 96000000 []))))).
  assert (Hrun : serial_init (mkSerial 0 0) P0_2 P0_3 m2
                 = Ret (port 0) (state_of (serial_init (mkSerial 0 0) P0_2 P0_3 m2)))
    by (vm_compute; reflexivity).
  assert (Hinit : initialized (uart_data m2 (index (port 0))) <> 0)
    by (vm_compute; discriminate).
  destruct (serial_init_keeps_flow_pins _ _ _ _ _ _ Hrun Hinit) as [Hr Hc].
  change (index (port 0)) with 0 in Hr, Hc. rewrite Hr, Hc.
  split; vm_compute; reflexivity.
Defined.

(** ** Flow control engine *)

Lemma internal_other_regs obj irq enable m u :
  let r' := regs (serial_irq_set_internal obj irq enable m) u in
  LCR r' = LCR (regs m u) /\ MCR r' = MCR (regs m u) /\ FCR r' = FCR (regs m u).
Proof.
  cbv zeta. unfold serial_irq_set_internal.
  destruct (irq_line (uart obj)) as [irq_n vector].
  destruct (negb (enable =? 0)).
  - cbn. unfold upd. destruct (Z.eqb_spec u (uart obj)); subst; cbn; auto.
  - destruct (_ + _ =? 0); [|cbn; auto].
    match goal with |- context [if ?b then _ else _] => destruct b end;
      cbn; unfold upd; destruct (Z.eqb_spec u (uart obj)); subst; cbn; auto.
Qed.

Lemma flow_irq_set_fields obj irq enable m :
  let m' := serial_flow_irq_set obj irq enable m in
  uart_data m' = upd (uart_data m) (index obj)
                     (set_irq_set_flow (u8 enable) (uart_data m (index obj))) /\
  trace m' = trace m /\
  forall u, LCR (regs m' u) = LCR (regs m u) /\ MCR (regs m' u) = MCR (regs m u)
            /\ FCR (regs m' u) = FCR (regs m u).
Proof.
  cbv zeta. unfold serial_flow_irq_set. split; [|split].
  - now rewrite internal_uart_data.
  - unfold serial_irq_set_internal.
    destruct (irq_line (uart obj)) as [irq_n vector].
    destruct (negb (enable =? 0)); [reflexivity|].
    destruct (_ + _ =? 0); [|reflexivity].
    match goal with |- context [if ?b then _ else _] => destruct b end; reflexivity.
  - intros u.
    exact (internal_other_regs obj irq enable
             (data_write (index obj) (set_irq_set_flow (u8 enable)) m) u).
Qed.

Lemma flow_uart_data obj irq e m :
  uart_data (serial_flow_irq_set obj irq e m)
  = upd (uart_data m) (index obj) (set_irq_set_flow (u8 e) (uart_data m (index obj))).
Proof. apply (flow_irq_set_fields obj irq e m). Qed.

Lemma flow_trace obj irq e m : trace (serial_flow_irq_set obj irq e m) = trace m.
Proof. apply (flow_irq_set_fields obj irq e m). Qed.

Lemma flow_MCR obj irq e m u :
  MCR (regs (serial_flow_irq_set obj irq e m) u) = MCR (regs m u).
Proof. apply (flow_irq_set_fields obj irq e m). Qed.

Lemma flow_FCR obj irq e m u :
  FCR (regs (serial_flow_irq_set obj irq e m) u) = FCR (regs m u).
Proof. apply (flow_irq_set_fields obj irq e m). Qed.

Ltac flow_simpl :=
  repeat (cbn [uart_data regs trace data_write reg_write with_uart_data
               with_regs gpio_write emit with_trace with_gpio_level gpio_init
               fst snd state_of pin sw_cts sw_rts set_sw_cts set_sw_rts
               irq_set_flow set_irq_set_flow MCR set_MCR FCR set_FCR]
          || rewrite upd_same
          || rewrite flow_uart_data
          || rewrite flow_trace
          || rewrite flow_MCR
          || rewrite flow_FCR).

Lemma mcr_flow_bits_cleared M k :
  k = 6 \/ k = 7 ->
  Z.testbit (u8 (Z.land M (Z.lnot UART_MCR_FLOWCTRL_MASK))) k = false.
Proof.
  intros Hk. rewrite u8_testbit, Z.land_spec, Z.lnot_spec by lia.
  destruct Hk as [-> | ->]; cbn; apply andb_false_r.
Qed.

Lemma mcr_set_rts_keeps_cts M :
  Z.testbit (u8 (Z.lor M UART_MCR_RTSEN_MASK)) 7 = Z.testbit M 7.
Proof. rewrite u8_testbit, Z.lor_spec by lia. cbn. apply orb_false_r. Qed.

Lemma mcr_set_cts_keeps_rts M :
  Z.testbit (u8 (Z.lor M UART_MCR_CTSEN_MASK)) 6 = Z.testbit M 6.
Proof. rewrite u8_testbit, Z.lor_spec by lia. cbn. apply orb_false_r. Qed.

(** The call always returns: no statement of the function can fail. *)
Lemma flow_control_returns obj type rxflow txflow m :
  exists m', serial_set_flow_control obj type rxflow txflow m = Ret tt m'.
Proof.
  unfold serial_set_flow_control. cbv beta iota delta [bind when lift ret].
  destruct (uart obj =? UART_1); destruct (FlowControlNone =? type);
    try (eexists; reflexivity);
    destruct (((FlowControlCTS =? type) || (FlowControlRTSCTS =? type))
              && negb (NC =? txflow));
    destruct (((FlowControlRTS =? type) || (FlowControlRTSCTS =? type))
              && negb (NC =? rxflow));
    try destruct (UART_1 =? pinmap_find_peripheral txflow PinMap_UART_CTS);
    try destruct (UART_1 =? pinmap_find_peripheral rxflow PinMap_UART_RTS);
    cbn [andb]; cbv beta iota; eexists; reflexivity.
Qed.

Lemma flow_control_cts_absent obj type rxflow m m' :
  type = FlowControlCTS \/ type = FlowControlRTSCTS ->
  serial_set_flow_control obj type rxflow NC m = Ret tt m' ->
  pin (sw_cts (uart_data m' (index obj))) = NC /\
  (uart obj = UART_1 -> Z.testbit (MCR (regs m' UART_1)) 7 = false).
Proof.
  intros Hty. unfold serial_set_flow_control.
  cbv beta iota delta [bind when lift ret].
  change (negb (NC =? NC)) with false. rewrite andb_false_r.
  destruct (Z.eqb_spec (uart obj) UART_1) as [E1|E1];
  destruct (FlowControlNone =? type) eqn:E0;
  try destruct (((FlowControlRTS =? type) || (FlowControlRTSCTS =? type)) &&
         negb (NC =? rxflow));
  try destruct (UART_1 =? pinmap_find_peripheral rxflow PinMap_UART_RTS);
  cbn [andb]; cbv beta iota; intros H; injection H as <-.
  all: try rewrite E1.
  all: flow_simpl.
  all: (split; [reflexivity|]); intros Hu; try contradiction.
  all: try rewrite mcr_set_rts_keeps_cts; flow_simpl.
  all: apply mcr_flow_bits_cleared; right; reflexivity.
Qed.

Lemma flow_control_rts_absent obj type txflow m m' :
  type = FlowControlRTS \/ type = FlowControlRTSCTS ->
  serial_set_flow_control obj type NC txflow m = Ret tt m' ->
  pin (sw_rts (uart_data m' (index obj))) = NC /\
  (uart obj = UART_1 -> Z.testbit (MCR (regs m' UART_1)) 6 = false) /\
  irq_set_flow (uart_data m' (index obj)) = 0 /\
  FCR (regs m' (uart obj)) = FCR (regs m (uart obj)).
Proof.
  intros Hty. unfold serial_set_flow_control.
  cbv beta iota delta [bind when lift ret].
  change (negb (NC =? NC)) with false. rewrite andb_false_r.
  destruct (Z.eqb_spec (uart obj) UART_1) as [E1|E1];
  destruct (FlowControlNone =? type) eqn:E0;
  try destruct (((FlowControlCTS =? type) || (FlowControlRTSCTS =? type)) &&
         negb (NC =? txflow));
  try destruct (UART_1 =? pinmap_find_peripheral txflow PinMap_UART_CTS);
  cbn [andb]; cbv beta iota; intros H; injection H as <-.
  all: try rewrite E1.
  all: flow_simpl.
  all: (split; [reflexivity|]).
  all: (split; [intros Hu; try contradiction;
                try rewrite mcr_set_cts_keeps_rts; flow_simpl;
                apply mcr_flow_bits_cleared; left; reflexivity|]).
  all: split; reflexivity.
Qed.

Lemma flow_control_as_none obj type rxflow txflow m :
  (type = FlowControlCTS /\ txflow = NC)
  \/ (type = FlowControlRTS /\ rxflow = NC)
  \/ (type = FlowControlRTSCTS /\ rxflow = NC /\ txflow = NC) ->
  serial_set_flow_control obj type rxflow txflow m
  = serial_set_flow_control obj FlowControlNone rxflow txflow m.
Proof.
  intros [[-> ->]|[[-> ->]|[-> [-> ->]]]];
    unfold serial_set_flow_control;
    cbv beta iota delta [bind when lift ret];
    destruct (uart obj =? UART_1); reflexivity.
Qed.

(** C10. serial_set_flow_control never fails.  When the mode asks for CTS
    and txflow is NC the call returns with the sw_cts slot empty and, on
    UART1, auto-CTS off; when it asks for RTS and rxflow is NC it returns
    with the sw_rts slot empty, auto-RTS off on UART1, the flow requester
    flag of the RX interrupt withdrawn and the FIFO control register
    untouched; and when no channel of the mode has its pin the call does
    exactly what mode none does: the clearing done on entry is all that is
    left. *)
Theorem flow_control_absent_pin :
  forall obj type rxflow txflow m,
    exists m',
      serial_set_flow_control obj type rxflow txflow m = Ret tt m' /\
      (type = FlowControlCTS \/ type = FlowControlRTSCTS -> txflow = NC ->
       pin (sw_cts (uart_data m' (index obj))) = NC /\
       (uart obj = UART_1 -> Z.testbit (MCR (regs m' UART_1)) 7 = false)) /\
      (type = FlowControlRTS \/ type = FlowControlRTSCTS -> rxflow = NC ->
       pin (sw_rts (uart_data m' (index obj))) = NC /\
       (uart obj = UART_1 -> Z.testbit (MCR (regs m' UART_1)) 6 = false) /\
       irq_set_flow (uart_data m' (index obj)) = 0 /\
       FCR (regs m' (uart obj)) = FCR (regs m (uart obj))) /\
      ((type = FlowControlCTS /\ txflow = NC)
       \/ (type = FlowControlRTS /\ rxflow = NC)
       \/ (type = FlowControlRTSCTS /\ rxflow = NC /\ txflow = NC) ->
       serial_set_flow_control obj FlowControlNone rxflow txflow m = Ret tt m').
Proof.
  intros obj type rxflow txflow m.
  destruct (flow_control_returns obj type rxflow txflow m) as [m' Hrun].
  exists m'. split; [exact Hrun|]. split; [|split].
  - intros Hty ->. eapply flow_control_cts_absent; eassumption.
  - intros Hty ->. eapply flow_control_rts_absent; eassumption.
  - intros Hcase. rewrite <- (flow_control_as_none _ _ _ _ _ Hcase). exact Hrun.
Qed.

Lemma flow_control_absent_pin_witness :
  let m := data_write 1 (set_sw_cts (mkGpio P0_17))
             (reg_write UART_1 (set_MCR 192) (reset_machine 96000000 [])) in
  exists m',
    serial_set_flow_control (port 1) FlowControlCTS P0_22 NC m = Ret tt m' /\
    pin (sw_cts (uart_data m' 1)) = NC /\
    Z.testbit (MCR (regs m' UART_1)) 7 = false /\
    serial_set_flow_control (port 1) FlowControlNone P0_22 NC m = Ret tt m'.
Proof.
  cbv zeta.
  destruct (flow_control_absent_pin (port 1) FlowControlCTS P0_22 NC
              (data_write 1 (set_sw_cts (mkGpio P0_17))
                 (reg_write UART_1 (set_MCR 192) (reset_machine 96000000 []))))
    as (m' & Hrun & Hcts & _ & Hnone).
  exists m'. split; [exact Hrun|].
  destruct (Hcts (or_introl eq_refl) eq_refl) as [Hpin Hbit].
  split; [exact Hpin|]. split; [exact (Hbit eq_refl)|].
  apply Hnone. left. split; reflexivity.
Defined.

(** ** Divisor calculator: the exact path *)

Lemma baud_divisors_exact fuel PCLK baudrate :
  0 < baudrate -> 16 * baudrate <= 2147483647 ->
  0 <= PCLK ->
  PCLK mod (16 * baudrate) = 0 ->
  PCLK / (16 * baudrate) <= 65535 ->
  baud_divisors fuel PCLK baudrate = Divisors (PCLK / (16 * baudrate)) 0 1.
Proof.
  intros Hb Hmax HP Hmod Hfit. unfold baud_divisors.
  assert (Hr : int_range (16 * baudrate) = true) by (unfold int_range; lia).
  rewrite Hr. cbn [negb].
  assert (Hu : u32 (16 * baudrate) = 16 * baudrate)
    by (unfold u32; apply Z.mod_small; lia).
  rewrite Hu.
  assert (Hnz : (16 * baudrate =? 0) = false) by lia.
  rewrite Hnz, Hmod. cbn [Z.eqb negb].
  f_equal. unfold u16. apply Z.mod_small.
  split; [apply Z.div_pos; lia|lia].
Qed.

(** C5 (as amended). For a positive baud rate (16 * baud an int) and a
    clock that is an exact multiple of 16 * baud, the calculator emits
    (PCLK / (16 * baud), 0, 1) provided the quotient fits the 16-bit divisor
    latch; it does so with any fuel, also with none, where the body of the
    search loop cannot run: no search is performed.  For PCLK = 96 MHz and
    baud 9600 it emits (625, 0, 1). *)
Theorem baud_exact_path :
  forall fuel PCLK baudrate,
    0 < baudrate -> 16 * baudrate <= 2147483647 ->
    0 <= PCLK ->
    PCLK mod (16 * baudrate) = 0 ->
    PCLK / (16 * baudrate) <= 65535 ->
    baud_divisors fuel PCLK baudrate = Divisors (PCLK / (16 * baudrate)) 0 1
    /\ baud_divisors 0 PCLK baudrate = Divisors (PCLK / (16 * baudrate)) 0 1.
Proof.
  intros fuel PCLK baudrate Hb Hmax HP Hmod Hfit.
  split; apply baud_divisors_exact; assumption.
Qed.

Lemma baud_exact_path_witness :
  baud_divisors search_fuel 96000000 9600 = Divisors 625 0 1
  /\ baud_divisors 0 96000000 9600 = Divisors 625 0 1.
Proof.
  apply (baud_exact_path search_fuel 96000000 9600); [lia | lia | lia | reflexivity | ].
  vm_compute. discriminate.
Defined.

(** C5 as stated fails where the quotient does not fit the uint16_t DL:
    96 MHz is an exact multiple of 16 * 75, the quotient is 80000, and the
    calculator emits 80000 - 65536 = 14464. *)
Lemma baud_exact_path_truncates :
  96000000 mod (16 * 75) = 0 /\
  96000000 / (16 * 75) = 80000 /\
  baud_divisors search_fuel 96000000 75 = Divisors 14464 0 1 /\
  baud_divisors search_fuel 96000000 75 <> Divisors (96000000 / (16 * 75)) 0 1.
Proof.
  split; [reflexivity|]. split; [reflexivity|].
  split; [vm_compute; reflexivity|]. vm_compute. discriminate.
Qed.

(** ** Divisor calculator: the search *)

(** *** The order of binary32 comparison *)

Lemma SFcompare_finite_pos m1 e1 m2 e2 :
  SFcompare (S754_finite false m1 e1) (S754_finite false m2 e2)
  = Some (match e1 ?= e2 with
          | Lt => Lt | Gt => Gt | Eq => (m1 ?= m2)%positive
          end).
Proof. reflexivity. Qed.

Lemma SFcompare_finite_neg m1 e1 m2 e2 :
  SFcompare (S754_finite true m1 e1) (S754_finite true m2 e2)
  = Some (match e1 ?= e2 with
          | Lt => Gt | Gt => Lt | Eq => CompOpp (m1 ?= m2)%positive
          end).
Proof. reflexivity. Qed.

Lemma lex_compare_Lt e1 m1 e2 m2 :
  match e1 ?= e2 with Lt => Lt | Gt => Gt | Eq => (m1 ?= m2)%positive end = Lt
  <-> lex_lt e1 m1 e2 m2.
Proof.
  unfold lex_lt. destruct (Z.compare_spec e1 e2) as [E|E|E].
  - rewrite Pos.compare_lt_iff. split; [auto|]. intros [H|[_ H]]; [lia|exact H].
  - split; [auto|reflexivity].
  - split; [discriminate|]. intros [H|[H _]]; lia.
Qed.

Lemma lex_compare_Gt e1 m1 e2 m2 :
  match e1 ?= e2 with Lt => Gt | Gt => Lt | Eq => CompOpp (m1 ?= m2)%positive end = Lt
  <-> lex_lt e2 m2 e1 m1.
Proof.
  unfold lex_lt. destruct (Z.compare_spec e1 e2) as [E|E|E].
  - rewrite <- Pos.compare_antisym, Pos.compare_lt_iff.
    split; [auto|]. intros [H|[_ H]]; [lia|exact H].
  - split; [discriminate|]. intros [H|[H _]]; lia.
  - split; [auto|reflexivity].
Qed.

Lemma lex_compare_le_Lt e1 m1 e2 m2 :
  match e1 ?= e2 with Lt => Lt | Gt => Gt | Eq => (m1 ?= m2)%positive end <> Gt
  <-> ~ lex_lt e2 m2 e1 m1.
Proof.
  unfold lex_lt. destruct (Z.compare_spec e1 e2) as [E|E|E].
  - change ((m1 ?= m2)%positive <> Gt) with (m1 <= m2)%positive. lia.
  - split; [|discriminate]. intros _ [H|[H _]]; lia.
  - split; [congruence|]. intros H. exfalso. apply H. left. lia.
Qed.

Lemma lex_lt_trans e1 m1 e2 m2 e3 m3 :
  lex_lt e1 m1 e2 m2 -> lex_lt e2 m2 e3 m3 -> lex_lt e1 m1 e3 m3.
Proof. unfold lex_lt. lia. Qed.

Lemma lex_le_lt_trans e1 m1 e2 m2 e3 m3 :
  ~ lex_lt e2 m2 e1 m1 -> lex_lt e2 m2 e3 m3 -> lex_lt e1 m1 e3 m3.
Proof. unfold lex_lt. lia. Qed.

Lemma lex_lt_le_trans e1 m1 e2 m2 e3 m3 :
  lex_lt e1 m1 e2 m2 -> ~ lex_lt e3 m3 e2 m2 -> lex_lt e1 m1 e3 m3.
Proof. unfold lex_lt. lia. Qed.

Lemma flt_irrefl a : flt a a = false.
Proof.
  unfold flt, SFltb.
  destruct a as [[|]|[|]| |[|] m e]; try reflexivity.
  - rewrite SFcompare_finite_neg, Z.compare_refl, Pos.compare_refl. reflexivity.
  - rewrite SFcompare_finite_pos, Z.compare_refl, Pos.compare_refl. reflexivity.
Qed.

Lemma is_Lt_iff (o : comparison) :
  match o with Lt => true | _ => false end = true <-> o = Lt.
Proof. destruct o; split; congruence. Qed.

Lemma is_le_iff (o : comparison) :
  match o with Lt | Eq => true | Gt => false end = true <-> o <> Gt.
Proof. destruct o; split; congruence. Qed.

Lemma flt_trans a b c : flt a b = true -> flt b c = true -> flt a c = true.
Proof.
  unfold flt, SFltb.
  destruct a as [[|]|[|]| |[|] ma ea], b as [[|]|[|]| |[|] mb eb],
    c as [[|]|[|]| |[|] mc ec];
    try solve [cbn; intros; (discriminate || reflexivity)].
  - rewrite !SFcompare_finite_neg, !is_Lt_iff, !lex_compare_Gt.
    intros H1 H2. eapply lex_lt_trans; eassumption.
  - rewrite !SFcompare_finite_pos, !is_Lt_iff, !lex_compare_Lt.
    intros H1 H2. eapply lex_lt_trans; eassumption.
Qed.

Lemma lex_compare_le_Gt e1 m1 e2 m2 :
  match e1 ?= e2 with Lt => Gt | Gt => Lt | Eq => CompOpp (m1 ?= m2)%positive end <> Gt
  <-> ~ lex_lt e1 m1 e2 m2.
Proof.
  unfold lex_lt. destruct (Z.compare_spec e1 e2) as [E|E|E].
  - rewrite <- Pos.compare_antisym.
    change ((m2 ?= m1)%positive <> Gt) with (m2 <= m1)%positive. lia.
  - split; [congruence|]. intros H. exfalso. apply H. left. lia.
  - split; [|discriminate]. intros _ [H|[H _]]; lia.
Qed.

Lemma fle_flt_trans a b c : fle a b = true -> flt b c = true -> flt a c = true.
Proof.
  unfold fle, SFleb, flt, SFltb.
  destruct a as [[|]|[|]| |[|] ma ea], b as [[|]|[|]| |[|] mb eb],
    c as [[|]|[|]| |[|] mc ec];
    try solve [cbn; intros; (discriminate || reflexivity)].
  - rewrite !SFcompare_finite_neg. cbv beta iota.
    rewrite is_le_iff, !is_Lt_iff, lex_compare_le_Gt, !lex_compare_Gt.
    intros H1 H2. eapply lex_lt_le_trans; eassumption.
  - rewrite !SFcompare_finite_pos. cbv beta iota.
    rewrite is_le_iff, !is_Lt_iff, lex_compare_le_Lt, !lex_compare_Lt.
    intros H1 H2. eapply lex_le_lt_trans; eassumption.
Qed.

(** *** The running minimum over a list of candidates *)

Section Scan.
Variables PCLK baudrate : Z.

Let step := search_step PCLK baudrate.
Let err := err_of PCLK baudrate.

Lemma search_step_cases st c :
  (flt (err c) (s_err_best st) = true /\
   picked (step st c) c /\ s_err_best (step st c) = err c /\
   s_hit (step st c) = (if flt (err c) f_0_001 then true else s_hit st))
  \/ (flt (err c) (s_err_best st) = false /\ step st c = st).
Proof.
  destruct c as [[dlv mv] dav]. unfold step, search_step, err, err_of, picked.
  destruct (flt (baud_err PCLK baudrate dlv mv dav) (s_err_best st));
    [left|right]; cbn; auto.
Qed.

Lemma step_best_lower st c x :
  flt x (s_err_best st) = false -> flt x (s_err_best (step st c)) = false.
Proof.
  intros Hx. destruct (search_step_cases st c) as [(Hlt & _ & Hb & _)|(_ & ->)];
    [|exact Hx].
  rewrite Hb. destruct (flt x (err c)) eqn:E; [|reflexivity].
  rewrite (flt_trans _ _ _ E Hlt) in Hx. discriminate.
Qed.

Lemma fold_best_lower l : forall st x,
  flt x (s_err_best st) = false ->
  flt x (s_err_best (fold_left step l st)) = false.
Proof.
  induction l as [|c l IH]; intros st x Hx; cbn [fold_left]; [exact Hx|].
  apply IH, step_best_lower, Hx.
Qed.

(** No candidate of the list is below the final best error. *)
Lemma fold_min l : forall st c,
  In c l -> flt (err c) (s_err_best (fold_left step l st)) = false.
Proof.
  induction l as [|c0 l IH]; intros st c Hin; cbn [fold_left]; [contradiction|].
  destruct Hin as [->|Hin]; [|apply IH, Hin].
  apply fold_best_lower.
  destruct (search_step_cases st c) as [(_ & _ & Hb & _)|(Hge & ->)];
    [|exact Hge].
  rewrite Hb. apply flt_irrefl.
Qed.

(** The hit flag is only ever up with a best error below 0.001. *)
Lemma fold_hit l : forall st,
  (s_hit st = true -> flt (s_err_best st) f_0_001 = true) ->
  s_hit (fold_left step l st) = true ->
  flt (s_err_best (fold_left step l st)) f_0_001 = true.
Proof.
  induction l as [|c l IH]; intros st Hinv; cbn [fold_left]; [exact Hinv|].
  apply IH.
  destruct (search_step_cases st c) as [(Hlt & _ & Hb & Hh)|(_ & ->)];
    [|exact Hinv].
  rewrite Hb, Hh. destruct (flt (err c) f_0_001) eqn:E; [reflexivity|].
  intros Hs. apply Hinv in Hs. rewrite (flt_trans _ _ _ Hlt Hs) in E.
  discriminate.
Qed.

(** Either nothing improved on the initial bound, or the final tuple is
    the candidate of the list that first reached the final error: every
    candidate before it has an error that is not below or equal to it. *)
Lemma fold_pick l : forall st,
  fold_left step l st = st
  \/ exists l1 c l2,
       l = l1 ++ c :: l2 /\
       picked (fold_left step l st) c /\
       s_err_best (fold_left step l st) = err c /\
       flt (err c) (s_err_best st) = true /\
       forall c', In c' l1 -> fle (err c') (err c) = false.
Proof.
  induction l as [|c0 l IH]; intros st; cbn [fold_left]; [left; reflexivity|].
  destruct (IH (step st c0)) as [Hsame|(l1 & c & l2 & Hl & Hp & Hb & Hlt & Hfirst)].
  - rewrite Hsame.
    destruct (search_step_cases st c0) as [(Hlt & Hp & Hb & _)|(_ & Heq)];
      [right|left; exact Heq].
    exists [], c0, l. repeat split; try assumption. intros c' [].
  - right. exists (c0 :: l1), c, l2. split; [now rewrite Hl|].
    split; [exact Hp|]. split; [exact Hb|].
    destruct (search_step_cases st c0) as [(Hlt0 & _ & Hb0 & _)|(Hge & Heq)].
    + rewrite Hb0 in Hlt. split; [eapply flt_trans; eassumption|].
      intros c' [<-|Hin]; [|apply Hfirst, Hin].
      destruct (fle (err c0) (err c)) eqn:E; [|reflexivity].
      pose proof (fle_flt_trans _ _ _ E Hlt) as X.
      rewrite flt_irrefl in X. discriminate.
    + rewrite Heq in Hlt. split; [exact Hlt|].
      intros c' [<-|Hin]; [|apply Hfirst, Hin].
      destruct (fle (err c0) (err c)) eqn:E; [|reflexivity].
      rewrite (fle_flt_trans _ _ _ E Hlt) in Hge. discriminate.
Qed.
End Scan.

(** *** The three loops as one scan *)

Lemma fold_left_flat_map {A B C} (f : A -> C -> A) (g : B -> list C) l : forall a,
  fold_left f (flat_map g l) a = fold_left (fun a x => fold_left f (g x) a) l a.
Proof.
  induction l as [|x l IH]; intros a; cbn [flat_map fold_left]; [reflexivity|].
  now rewrite fold_left_app, IH.
Qed.

Lemma fold_left_map {A B C} (f : A -> C -> A) (h : B -> C) l : forall a,
  fold_left f (map h l) a = fold_left (fun a x => f a (h x)) l a.
Proof.
  induction l as [|x l IH]; intros a; cbn [map fold_left]; [reflexivity|].
  apply IH.
Qed.

Lemma fold_left_pointwise {A B} (f g : A -> B -> A) l :
  (forall a x, f a x = g a x) ->
  forall a, fold_left f l a = fold_left g l a.
Proof.
  intros H. induction l as [|x l IH]; intros a; cbn [fold_left]; [reflexivity|].
  now rewrite H, IH.
Qed.

Lemma mv_loop_flat PCLK baudrate dlv st :
  mv_loop PCLK baudrate dlv st
  = fold_left (search_step PCLK baudrate) (candidates dlv) st.
Proof.
  unfold mv_loop, candidates. rewrite fold_left_flat_map.
  apply fold_left_pointwise. intros s mv. unfold dav_loop.
  now rewrite fold_left_map.
Qed.

Lemma In_zseq n : forall lo x, In x (zseq lo n) <-> lo <= x < lo + Z.of_nat n.
Proof.
  induction n as [|n IH]; intros lo x; cbn [zseq In].
  - lia.
  - rewrite IH. lia.
Qed.

Lemma In_candidates dlv c :
  In c (candidates dlv)
  <-> exists mv dav, c = (dlv, mv, dav) /\ 1 <= mv <= 15 /\ 1 <= dav <= mv - 1.
Proof.
  unfold candidates. rewrite in_flat_map. split.
  - intros (mv & Hmv & Hc). apply in_map_iff in Hc.
    destruct Hc as (dav & <- & Hdav).
    apply In_zseq in Hmv. apply In_zseq in Hdav.
    exists mv, dav. split; [reflexivity|]. lia.
  - intros (mv & dav & -> & Hmv & Hdav). exists mv. split.
    + apply In_zseq. lia.
    + apply in_map_iff. exists dav. split; [reflexivity|]. apply In_zseq. lia.
Qed.

Lemma In_scan_order lo hi dl mv dav :
  In (dl, mv, dav) (scan_order lo hi)
  <-> lo <= dl < hi /\ 1 <= mv <= 15 /\ 1 <= dav <= mv - 1.
Proof.
  unfold scan_order. rewrite in_flat_map. split.
  - intros (d & Hd & Hc). apply In_zseq in Hd. apply In_candidates in Hc.
    destruct Hc as (mv' & dav' & E & Hmv & Hdav). injection E as -> -> ->. lia.
  - intros (Hd & Hmv & Hdav). exists dl. split.
    + apply In_zseq. lia.
    + apply In_candidates. eauto.
Qed.

Lemma scan_order_step lo hi :
  lo < hi -> scan_order lo hi = candidates lo ++ scan_order (lo + 1) hi.
Proof.
  intros H. unfold scan_order.
  replace (Z.to_nat (hi - lo)) with (S (Z.to_nat (hi - (lo + 1)))) by lia.
  reflexivity.
Qed.

Lemma scan_order_empty lo : scan_order lo lo = [].
Proof. unfold scan_order. now rewrite Z.sub_diag. Qed.

(** Without wrap-around of the counter (dlmax < 65535) the outer loop scans
    dlv, dlv+1, ... and stops at the first value after a hit, or past
    dlmax. *)
Lemma dlv_loop_spec PCLK baudrate dlmax fuel : forall dlv st st' dl_end,
  dlmax < 65535 -> 0 <= dlv <= dlmax + 1 ->
  dlv_loop fuel PCLK baudrate dlmax dlv st = Some (st', dl_end) ->
  dlv <= dl_end <= dlmax + 1 /\
  st' = fold_left (search_step PCLK baudrate) (scan_order dlv dl_end) st /\
  (dl_end <= dlmax -> s_hit st' = true) /\
  (s_hit st = false -> dlv <= dlmax -> dlv < dl_end).
Proof.
  induction fuel as [|fuel IH]; intros dlv st st' dl_end Hmax Hdlv H;
    cbn [dlv_loop] in H;
    destruct ((dlv <=? dlmax) && negb (s_hit st)) eqn:Econd;
    try discriminate.
  - injection H as <- <-. rewrite scan_order_empty.
    split; [lia|]. split; [reflexivity|]. split.
    + intros Hle. destruct (s_hit st); [reflexivity|]. cbn in Econd. lia.
    + intros Hh. rewrite Hh in Econd. cbn in Econd. lia.
  - apply andb_prop in Econd. destruct Econd as [Hle Hh].
    assert (Hw : u16 (dlv + 1) = dlv + 1)
      by (unfold u16; apply Z.mod_small; lia).
    rewrite Hw in H. apply IH in H; [|lia|lia].
    destruct H as (Hend & Hfold & Hhit & _).
    split; [lia|]. split; [|split; [exact Hhit|lia]].
    rewrite scan_order_step by lia. rewrite fold_left_app, <- mv_loop_flat.
    exact Hfold.
  - injection H as <- <-. rewrite scan_order_empty.
    split; [lia|]. split; [reflexivity|]. split.
    + intros Hle. destruct (s_hit st); [reflexivity|]. cbn in Econd. lia.
    + intros Hh. rewrite Hh in Econd. cbn in Econd. lia.
Qed.

(** ... and it ends within dlmax + 1 - dlv iterations. *)
Lemma dlv_loop_total PCLK baudrate dlmax fuel : forall dlv st,
  dlmax < 65535 -> 0 <= dlv ->
  dlmax + 1 - dlv <= Z.of_nat fuel ->
  exists r, dlv_loop fuel PCLK baudrate dlmax dlv st = Some r.
Proof.
  induction fuel as [|fuel IH]; intros dlv st Hmax Hdlv Hfuel;
    cbn [dlv_loop];
    destruct ((dlv <=? dlmax) && negb (s_hit st)) eqn:Econd;
    try (eexists; reflexivity).
  - apply andb_prop in Econd. lia.
  - apply andb_prop in Econd. destruct Econd as [Hle _].
    assert (Hw : u16 (dlv + 1) = dlv + 1)
      by (unfold u16; apply Z.mod_small; lia).
    rewrite Hw. apply IH; lia.
Qed.

(** The literal 0.001f is the quotient 1/1000 rounded to binary32. *)
Lemma f_0_001_nearest : fdiv (float_of_int 1) (float_of_int 1000) = f_0_001.
Proof. vm_compute. reflexivity. Qed.

Lemma search_fuel_value : Z.of_nat search_fuel = 65536.
Proof. unfold search_fuel. apply Z2Nat.id. lia. Qed.

(** *** A divisor of zero *)

(** With dl = 0 the candidate divides by zero: its error is +infinity or
    NaN, which compares below nothing. *)
Lemma flt_inf_nan x b :
  x = S754_infinity false \/ x = S754_nan -> flt x b = false.
Proof.
  intros [-> | ->]; [|reflexivity].
  destruct b as [[|]|[|]| |[|] mb eb]; reflexivity.
Qed.

Lemma err_over_zero (P B : float) :
  let e := fabs (fdiv (fsub B (fdiv P (S754_zero false))) B) in
  e = S754_infinity false \/ e = S754_nan.
Proof.
  destruct P as [[|]|[|]| |[|] mp ep], B as [[|]|[|]| |[|] mb eb];
    cbn; auto.
Qed.

Lemma zero_denominators_check :
  forallb (fun c : Z * Z * Z =>
             let '(_, mv, dav) := c in
             match fmul (fmul f_16_0 (float_of_int 0))
                        (fadd f_1_0 (fdiv (float_of_int dav) (float_of_int mv))) with
             | S754_zero false => true
             | _ => false
             end) (candidates 0) = true.
Proof. vm_compute. reflexivity. Qed.

Lemma baud_err_dl_zero PCLK baudrate c b :
  In c (candidates 0) -> flt (err_of PCLK baudrate c) b = false.
Proof.
  intros Hin. apply flt_inf_nan.
  pose proof zero_denominators_check as H. rewrite forallb_forall in H.
  specialize (H c Hin). destruct c as [[dlv mv] dav].
  apply In_candidates in Hin. destruct Hin as (mv' & dav' & E & _).
  injection E as -> -> ->.
  unfold err_of, baud_err.
  destruct (fmul (fmul f_16_0 (float_of_int 0))
                 (fadd f_1_0 (fdiv (float_of_int dav') (float_of_int mv'))))
    as [[|]| | |]; try discriminate.
  apply err_over_zero.
Qed.

(** *** Rounding to binary32: how far an operation is from the exact value *)

Lemma bpow_pos e : (0 < bpow e)%Q.
Proof. unfold bpow. apply Qpower_0_lt. reflexivity. Qed.

Lemma bpow_add a b : (bpow (a + b) == bpow a * bpow b)%Q.
Proof. unfold bpow. apply Qpower_plus. intros H. discriminate H. Qed.

Lemma bpow_Z n : 0 <= n -> (bpow n == inject_Z (2 ^ n))%Q.
Proof. intros H. unfold bpow. rewrite Zpower_Qpower by exact H. reflexivity. Qed.

Lemma bpow_0 : (bpow 0 == 1)%Q.
Proof. reflexivity. Qed.

Lemma bpow_1 : (bpow 1 == 2)%Q.
Proof. reflexivity. Qed.

Lemma bpow_m1 : (bpow (-1) == 1#2)%Q.
Proof. reflexivity. Qed.

Lemma bpow_succ e : (bpow (e + 1) == 2 * bpow e)%Q.
Proof. rewrite bpow_add, bpow_1. ring. Qed.

Lemma bpow_pred e : (bpow (e - 1) == bpow e * (1#2))%Q.
Proof.
  replace (e - 1) with (e + -1) by lia. rewrite bpow_add, bpow_m1. reflexivity.
Qed.

Lemma bpow_le a b : a <= b -> (bpow a <= bpow b)%Q.
Proof.
  intros H. replace b with (a + (b - a)) by lia. rewrite bpow_add.
  rewrite (bpow_Z (b - a)) by lia.
  assert (H1 : 1 <= 2 ^ (b - a)) by (apply Z.pow_le_mono_r with (b := 0); lia).
  rewrite Zle_Qle in H1. change (inject_Z 1) with 1%Q in H1.
  pose proof (bpow_pos a). nra.
Qed.

Lemma bpow_lt a b : a < b -> (bpow a < bpow b)%Q.
Proof.
  intros H. replace b with (a + (b - a)) by lia. rewrite bpow_add.
  rewrite (bpow_Z (b - a)) by lia.
  assert (H1 : 2 <= 2 ^ (b - a)).
  { change 2 with (2 ^ 1) at 1. apply Z.pow_le_mono_r; lia. }
  rewrite Zle_Qle in H1. change (inject_Z 2) with 2%Q in H1.
  pose proof (bpow_pos a). nra.
Qed.

Lemma bpow_lt_inv a b : (bpow a < bpow b)%Q -> a < b.
Proof.
  intros H. destruct (Z_lt_ge_dec a b) as [Hlt|Hge]; [exact Hlt|].
  pose proof (bpow_le b a ltac:(lia)). lra.
Qed.

Lemma digits2_pos_spec p :
  2 ^ (Zpos (digits2_pos p) - 1) <= Zpos p < 2 ^ Zpos (digits2_pos p).
Proof.
  induction p as [p IH|p IH|]; cbn [digits2_pos].
  - rewrite Pos2Z.inj_succ, Pos2Z.inj_xI.
    replace (Z.succ (Zpos (digits2_pos p)) - 1) with (Z.succ (Zpos (digits2_pos p) - 1)) by lia.
    rewrite !Z.pow_succ_r by lia.
    set (A := 2 ^ (Zpos (digits2_pos p) - 1)) in *.
    set (B := 2 ^ Zpos (digits2_pos p)) in *. lia.
  - rewrite Pos2Z.inj_succ, (Pos2Z.inj_xO p).
    replace (Z.succ (Zpos (digits2_pos p)) - 1) with (Z.succ (Zpos (digits2_pos p) - 1)) by lia.
    rewrite !Z.pow_succ_r by lia.
    set (A := 2 ^ (Zpos (digits2_pos p) - 1)) in *.
    set (B := 2 ^ Zpos (digits2_pos p)) in *. lia.
  - cbn. lia.
Qed.

Lemma digits2_pos_unique p d :
  2 ^ (d - 1) <= Zpos p < 2 ^ d -> Zpos (digits2_pos p) = d.
Proof.
  intros H. pose proof (digits2_pos_spec p) as Hs.
  set (d' := Zpos (digits2_pos p)) in *.
  assert (Hd' : 1 <= d') by (unfold d'; lia).
  assert (Hd : 1 <= d).
  { destruct (Z_lt_ge_dec d 1) as [Hlt|Hge]; [|lia].
    assert (2 ^ d <= 1).
    { destruct (Z.eq_dec d 0) as [->|Hn]; [cbn; lia|].
      rewrite Z.pow_neg_r by lia. lia. }
    lia. }
  assert (H1 : 2 ^ (d' - 1) < 2 ^ d) by lia.
  assert (H2 : 2 ^ (d - 1) < 2 ^ d') by lia.
  apply Z.pow_lt_mono_r_iff in H1; [|lia|lia].
  apply Z.pow_lt_mono_r_iff in H2; [|lia|lia].
  lia.
Qed.

Lemma inj_xI p : (inject_Z (Zpos p~1) == 2 * inject_Z (Zpos p) + 1)%Q.
Proof. rewrite Pos2Z.inj_xI, inject_Z_plus, inject_Z_mult. reflexivity. Qed.

Lemma inj_xO p : (inject_Z (Zpos p~0) == 2 * inject_Z (Zpos p))%Q.
Proof. rewrite (Pos2Z.inj_xO p), inject_Z_mult. reflexivity. Qed.

Lemma rep_ext mrs v w : (v == w)%Q -> rep mrs v -> rep mrs w.
Proof.
  unfold rep. intros E. destruct (shr_r mrs), (shr_s mrs); cbv zeta; lra.
Qed.

Lemma rep_bounds mrs v :
  rep mrs v -> (inject_Z (shr_m mrs) <= v < inject_Z (shr_m mrs) + 1)%Q.
Proof.
  unfold rep. destruct (shr_r mrs), (shr_s mrs); cbv zeta; lra.
Qed.

Lemma shr_1_rep mrs v :
  0 <= shr_m mrs -> rep mrs v ->
  rep (shr_1 mrs) (v * (1#2)) /\ 0 <= shr_m (shr_1 mrs).
Proof.
  destruct mrs as [m r s]. cbn [shr_m]. intros Hm H.
  destruct m as [|p|p]; [| |lia].
  - unfold rep in *. cbn [shr_m shr_r shr_s shr_1] in *.
    change (inject_Z 0) with 0%Q in *.
    destruct r, s; cbn [orb]; cbv zeta in *; (split; [lra|lia]).
  - destruct p as [p|p|]; unfold rep in *; cbn [shr_m shr_r shr_s shr_1] in *;
      cbv zeta in *.
    + pose proof (inj_xI p) as E.
      destruct r, s; cbn [orb]; (split; [lra|lia]).
    + pose proof (inj_xO p) as E.
      destruct r, s; cbn [orb]; (split; [lra|lia]).
    + change (inject_Z 1) with 1%Q in *. change (inject_Z 0) with 0%Q.
      destruct r, s; cbn [orb]; (split; [lra|lia]).
Qed.

Lemma iter_pos_shr_rep p : forall mrs v,
  0 <= shr_m mrs -> rep mrs v ->
  rep (iter_pos shr_1 p mrs) (v / inject_Z (2 ^ Zpos p))
  /\ 0 <= shr_m (iter_pos shr_1 p mrs).
Proof.
  induction p as [p IH|p IH|]; intros mrs v Hm H; cbn [iter_pos].
  - destruct (shr_1_rep mrs v Hm H) as [H1 Hm1].
    destruct (IH _ _ Hm1 H1) as [H2 Hm2].
    destruct (IH _ _ Hm2 H2) as [H3 Hm3].
    split; [|exact Hm3]. eapply rep_ext; [|exact H3].
    assert (Ha : (0 < inject_Z (2 ^ Zpos p))%Q).
    { rewrite <- bpow_Z by lia. apply bpow_pos. }
    rewrite (Pos2Z.inj_xI p).
    replace (2 * Zpos p + 1) with (Zpos p + Zpos p + 1) by lia.
    rewrite !Z.pow_add_r by lia. rewrite !inject_Z_mult.
    change (inject_Z (2 ^ 1)) with 2%Q. field. lra.
  - destruct (IH _ _ Hm H) as [H2 Hm2].
    destruct (IH _ _ Hm2 H2) as [H3 Hm3].
    split; [|exact Hm3]. eapply rep_ext; [|exact H3].
    assert (Ha : (0 < inject_Z (2 ^ Zpos p))%Q).
    { rewrite <- bpow_Z by lia. apply bpow_pos. }
    rewrite (Pos2Z.inj_xO p).
    replace (2 * Zpos p) with (Zpos p + Zpos p) by lia.
    rewrite !Z.pow_add_r by lia. rewrite !inject_Z_mult.
    field. lra.
  - destruct (shr_1_rep mrs v Hm H) as [H1 Hm1].
    split; [|exact Hm1]. eapply rep_ext; [|exact H1].
    change (inject_Z (2 ^ 1)) with 2%Q. field.
Qed.

Lemma shr_m_of_loc m l : shr_m (shr_record_of_loc m l) = m.
Proof. destruct l as [|[| |]]; reflexivity. Qed.

Lemma rep_exact m : rep (shr_record_of_loc m loc_Exact) (inject_Z m).
Proof. unfold rep. cbn. reflexivity. Qed.

Lemma round_nearest_even_spec mrs v :
  0 <= shr_m mrs -> rep mrs v ->
  let mr := round_nearest_even (shr_m mrs) (loc_of_shr_record mrs) in
  (mr = shr_m mrs \/ mr = shr_m mrs + 1) /\
  (Qabs (inject_Z mr - v) <= 1#2)%Q.
Proof.
  destruct mrs as [m r s]. cbn [shr_m]. intros Hm H. cbv zeta.
  unfold rep in H. cbn [shr_m shr_r shr_s] in H. cbv zeta in H.
  destruct r, s; cbn [loc_of_shr_record round_nearest_even].
  - split; [right; reflexivity|]. rewrite inject_Z_plus.
    change (inject_Z 1) with 1%Q. apply Qabs_Qle_condition. lra.
  - destruct (Z.even m).
    + split; [left; reflexivity|]. apply Qabs_Qle_condition. lra.
    + split; [right; reflexivity|]. rewrite inject_Z_plus.
      change (inject_Z 1) with 1%Q. apply Qabs_Qle_condition. lra.
  - split; [left; reflexivity|]. apply Qabs_Qle_condition. lra.
  - split; [left; reflexivity|]. apply Qabs_Qle_condition. lra.
Qed.

Lemma shr_spec mrs e n v :
  0 <= n -> 0 <= shr_m mrs -> rep mrs v ->
  exists mrs',
    shr mrs e n = (mrs', e + n) /\
    rep mrs' (v / inject_Z (2 ^ n)) /\ 0 <= shr_m mrs'.
Proof.
  intros Hn Hm H. destruct n as [|p|p]; [| |lia].
  - exists mrs. cbn [shr]. rewrite Z.add_0_r. split; [reflexivity|].
    split; [|exact Hm]. eapply rep_ext; [|exact H].
    change (inject_Z (2 ^ 0)) with 1%Q. field.
  - destruct (iter_pos_shr_rep p mrs v Hm H) as [H1 H2].
    eexists. cbn [shr]. split; [reflexivity|]. split; assumption.
Qed.

Lemma fexp_normal z : -149 <= z - 24 -> fexp 24 128 z = z - 24.
Proof. intros H. unfold fexp, emin. lia. Qed.

Lemma binary_round_aux_spec s mx ex lx xs :
  let n := Zpos (digits2_pos mx) - 24 in
  0 <= n ->
  -149 <= ex + n -> ex + n + 1 <= 104 ->
  rep (shr_record_of_loc (Zpos mx) lx) xs ->
  exists m e,
    binary_round_aux 24 128 s (Zpos mx) ex lx = S754_finite s m e /\
    Zpos (digits2_pos m) = 24 /\
    ex + n <= e <= ex + n + 1 /\
    (Qabs (inject_Z (Zpos m) * bpow e - xs * bpow ex) <= bpow (ex + n - 1))%Q.
Proof.
  intros n Hn Hlo Hhi Hrep.
  pose proof (digits2_pos_spec mx) as Hd.
  assert (Hdn : Zpos (digits2_pos mx) = n + 24) by (unfold n; lia).
  rewrite Hdn in Hd.
  (* the first shift *)
  destruct (shr_spec (shr_record_of_loc (Zpos mx) lx) ex n xs Hn) as
    (mrs1 & Hshr1 & Hrep1 & Hm1); [rewrite shr_m_of_loc; lia|exact Hrep|].
  assert (Hfirst : shr_fexp 24 128 (Zpos mx) ex lx = (mrs1, ex + n)).
  { unfold shr_fexp. cbn [Zdigits2]. rewrite fexp_normal by lia.
    replace (Zpos (digits2_pos mx) + ex - 24 - ex) with n by lia. exact Hshr1. }
  (* the mantissa after the shift has 24 digits *)
  assert (Hpn : (0 < inject_Z (2 ^ n))%Q).
  { rewrite <- bpow_Z by lia. apply bpow_pos. }
  pose proof (rep_bounds _ _ Hrep) as Hxs. rewrite shr_m_of_loc in Hxs.
  pose proof (rep_bounds _ _ Hrep1) as Hv1.
  set (v1 := (xs / inject_Z (2 ^ n))%Q) in *.
  assert (Hxv : (xs == v1 * inject_Z (2 ^ n))%Q).
  { unfold v1. field. lra. }
  assert (Hv1r : (8388608 <= v1 < 16777216)%Q).
  { replace (n + 24 - 1) with (23 + n) in Hd by lia.
    replace (n + 24) with (24 + n) in Hd by lia.
    rewrite !Z.pow_add_r in Hd by lia.
    change (2 ^ 23) with 8388608 in Hd. change (2 ^ 24) with 16777216 in Hd.
    destruct Hd as [Hd1 Hd2].
    assert (Hd2' : Zpos mx + 1 <= 16777216 * 2 ^ n) by lia.
    rewrite Zle_Qle in Hd1, Hd2'.
    rewrite inject_Z_plus in Hd2'. rewrite !inject_Z_mult in *.
    change (inject_Z 8388608) with 8388608%Q in *.
    change (inject_Z 16777216) with 16777216%Q in *.
    change (inject_Z 1) with 1%Q in *.
    split; nra. }
  set (m1 := shr_m mrs1) in *.
  assert (Hm1r : 8388608 <= m1 < 16777216).
  { split.
    - assert (H : (inject_Z 8388608 < inject_Z (m1 + 1))%Q).
      { rewrite inject_Z_plus. change (inject_Z 8388608) with 8388608%Q.
        change (inject_Z 1) with 1%Q. lra. }
      rewrite <- Zlt_Qlt in H. lia.
    - assert (H : (inject_Z m1 < inject_Z 16777216)%Q).
      { change (inject_Z 16777216) with 16777216%Q. lra. }
      rewrite <- Zlt_Qlt in H. exact H. }
  (* rounding *)
  destruct (round_nearest_even_spec mrs1 v1 Hm1 Hrep1) as [Hmr Habs].
  fold m1 in Hmr, Habs.
  set (mr := round_nearest_even m1 (loc_of_shr_record mrs1)) in *.
  assert (Hval : forall k : Q,
             (k * bpow (ex + n) - xs * bpow ex == (k - v1) * bpow (ex + n))%Q).
  { intros k. rewrite Hxv, (bpow_add ex n), (bpow_Z n) by lia. ring. }
  assert (Hhalf : forall k : Q,
             (Qabs (k - v1) <= 1#2 ->
              Qabs (k * bpow (ex + n) - xs * bpow ex) <= bpow (ex + n - 1))%Q).
  { intros k Hk. rewrite Hval, Qabs_Qmult, bpow_pred.
    pose proof (bpow_pos (ex + n)) as Hp.
    rewrite (Qabs_pos (bpow (ex + n))) by lra.
    pose proof (Qabs_nonneg (k - v1)). nra. }
  unfold binary_round_aux. rewrite Hfirst. fold m1. fold mr.
  destruct (Z_lt_ge_dec mr 16777216) as [Hlt|Hge].
  - (* no carry out of the mantissa *)
    assert (Hpos : 8388608 <= mr) by lia.
    destruct mr as [|q|q] eqn:Emr; [lia| |lia].
    assert (Hdq : Zpos (digits2_pos q) = 24)
      by (apply digits2_pos_unique; change (2 ^ (24 - 1)) with 8388608;
          change (2 ^ 24) with 16777216; lia).
    unfold shr_fexp. cbn [Zdigits2]. rewrite Hdq, fexp_normal by lia.
    replace (24 + (ex + n) - 24 - (ex + n)) with 0 by lia.
    cbn [shr shr_record_of_loc shr_m].
    assert (Hle : (ex + n <=? 128 - 24) = true) by lia.
    rewrite Hle. exists q, (ex + n).
    split; [reflexivity|]. split; [exact Hdq|]. split; [lia|].
    apply Hhalf. exact Habs.
  - (* the mantissa rounded up to 2^24 *)
    assert (Emr : mr = 16777216) by lia.
    rewrite Emr in *.
    unfold shr_fexp. cbn [Zdigits2 digits2_pos Pos.succ].
    rewrite fexp_normal by lia.
    replace (25 + (ex + n) - 24 - (ex + n)) with 1 by lia.
    cbn [shr shr_record_of_loc iter_pos shr_1 shr_m].
    assert (Hle : (ex + n + 1 <=? 128 - 24) = true) by lia.
    rewrite Hle. exists 8388608%positive, (ex + n + 1).
    split; [reflexivity|]. split; [reflexivity|]. split; [lia|].
    assert (E : (inject_Z 8388608 * bpow (ex + n + 1)
                 == inject_Z 16777216 * bpow (ex + n))%Q).
    { rewrite bpow_succ. change (inject_Z 8388608) with 8388608%Q.
      change (inject_Z 16777216) with 16777216%Q. ring. }
    rewrite E. apply Hhalf. exact Habs.
Qed.

Lemma iter_xO_val k : forall m, Zpos (Pos.iter xO m k) = Zpos m * 2 ^ Zpos k.
Proof.
  induction k as [|k IH] using Pos.peano_ind.
  - intros m. cbn [Pos.iter]. change (2 ^ 1) with 2. lia.
  - intros m. rewrite Pos.iter_succ, (Pos2Z.inj_xO (Pos.iter xO m k)), IH.
    rewrite Pos2Z.inj_succ, Z.pow_succ_r by lia. ring.
Qed.

Lemma shl_align_down mx ex ex' :
  ex' < ex ->
  exists mz, shl_align mx ex ex' = (mz, ex') /\
             Zpos mz = Zpos mx * 2 ^ (ex - ex').
Proof.
  intros H. unfold shl_align.
  destruct (ex' - ex) as [|d|d] eqn:E; [lia|lia|].
  eexists. split; [reflexivity|]. rewrite iter_xO_val.
  replace (ex - ex') with (Zpos d) by lia. reflexivity.
Qed.

Lemma shl_align_same mx ex ex' :
  ex <= ex' -> shl_align mx ex ex' = (mx, ex).
Proof.
  intros H. unfold shl_align. destruct (ex' - ex) as [|d|d] eqn:E; [reflexivity|reflexivity|lia].
Qed.

Lemma shl_align_val mx ex ex' :
  ex' <= ex ->
  Zpos (fst (shl_align mx ex ex')) = Zpos mx * 2 ^ (ex - ex').
Proof.
  intros H. destruct (Z.eq_dec ex ex') as [->|Hne].
  - rewrite shl_align_same by lia. cbn [fst]. rewrite Z.sub_diag. cbn. lia.
  - destruct (shl_align_down mx ex ex' ltac:(lia)) as (mz & -> & Hv). exact Hv.
Qed.

Lemma pow2_pos n : 0 <= n -> 0 < 2 ^ n.
Proof. intros H. apply Z.pow_pos_nonneg; lia. Qed.

Lemma binary_round_spec s mx ex :
  let d := Zpos (digits2_pos mx) in
  -149 <= d + ex - 24 -> d + ex - 24 + 1 <= 104 ->
  exists m e,
    binary_round 24 128 s mx ex = S754_finite s m e /\
    Zpos (digits2_pos m) = 24 /\
    d + ex - 24 <= e <= d + ex - 23 /\
    (Qabs (inject_Z (Zpos m) * bpow e - inject_Z (Zpos mx) * bpow ex)
     <= bpow (d + ex - 25))%Q.
Proof.
  intros d Hlo Hhi. unfold binary_round. fold d.
  rewrite fexp_normal by lia.
  pose proof (digits2_pos_spec mx) as Hd. fold d in Hd.
  destruct (Z_lt_ge_dec d 24) as [Hlt|Hge].
  - destruct (shl_align_down mx ex (d + ex - 24) ltac:(lia)) as (mz & -> & Hv).
    replace (ex - (d + ex - 24)) with (24 - d) in Hv by lia.
    assert (Hdz : Zpos (digits2_pos mz) = 24).
    { apply digits2_pos_unique. rewrite Hv.
      pose proof (pow2_pos (24 - d) ltac:(lia)) as Hp.
      assert (H1 : 2 ^ (24 - 1) = 2 ^ (d - 1) * 2 ^ (24 - d))
        by (rewrite <- Z.pow_add_r by lia; f_equal; lia).
      assert (H2 : 2 ^ 24 = 2 ^ d * 2 ^ (24 - d))
        by (rewrite <- Z.pow_add_r by lia; f_equal; lia).
      rewrite H1, H2.
      set (A := 2 ^ (d - 1)) in *. set (B := 2 ^ d) in *.
      set (C := 2 ^ (24 - d)) in *. nia. }
    destruct (binary_round_aux_spec s mz (d + ex - 24) loc_Exact (inject_Z (Zpos mz)))
      as (m & e & Hrun & Hdm & He & Hb).
    + rewrite Hdz. lia.
    + rewrite Hdz. lia.
    + rewrite Hdz. lia.
    + apply rep_exact.
    + rewrite Hdz in He, Hb. exists m, e. split; [exact Hrun|].
      split; [exact Hdm|]. split; [lia|].
      replace (d + ex - 24 + (24 - 24) - 1) with (d + ex - 25) in Hb by lia.
      assert (E : (inject_Z (Zpos mz) * bpow (d + ex - 24)
                   == inject_Z (Zpos mx) * bpow ex)%Q).
      { rewrite Hv, inject_Z_mult.
        replace ex with ((d + ex - 24) + (24 - d)) at 2 by lia.
        rewrite (bpow_add (d + ex - 24) (24 - d)), (bpow_Z (24 - d)) by lia. ring. }
      rewrite <- E. exact Hb.
  - rewrite shl_align_same by lia.
    destruct (binary_round_aux_spec s mx ex loc_Exact (inject_Z (Zpos mx)))
      as (m & e & Hrun & Hdm & He & Hb).
    + fold d. lia.
    + fold d. lia.
    + fold d. lia.
    + apply rep_exact.
    + fold d in He, Hb. exists m, e. split; [exact Hrun|].
      split; [exact Hdm|]. split; [lia|].
      replace (ex + (d - 24) - 1) with (d + ex - 25) in Hb by lia. exact Hb.
Qed.

Lemma close_of_bound (x X : Q) k :
  (bpow (k + 23) <= Qabs X)%Q -> (Qabs (x - X) <= bpow (k - 1))%Q -> close x X.
Proof.
  intros HX Hb. unfold close, ulp_half.
  replace (k + 23) with ((k - 1) + 24) in HX by lia.
  rewrite bpow_add in HX. rewrite (bpow_Z 24) in HX by lia.
  change (inject_Z (2 ^ 24)) with 16777216%Q in HX.
  pose proof (bpow_pos (k - 1)). lra.
Qed.

Lemma mant_lower m d :
  Zpos (digits2_pos m) = d -> (bpow (d - 1) <= inject_Z (Zpos m))%Q.
Proof.
  intros H. pose proof (digits2_pos_spec m) as Hs. rewrite H in Hs.
  rewrite bpow_Z by lia. rewrite <- Zle_Qle. lia.
Qed.

Lemma mant_upper m d :
  Zpos (digits2_pos m) = d -> (inject_Z (Zpos m) < bpow d)%Q.
Proof.
  intros H. pose proof (digits2_pos_spec m) as Hs. rewrite H in Hs.
  rewrite bpow_Z by lia. rewrite <- Zlt_Qlt. lia.
Qed.

(** Rounding an integer times a power of two. *)
Lemma binary_round_close s mx ex :
  let d := Zpos (digits2_pos mx) in
  -149 <= d + ex - 24 -> d + ex - 24 + 1 <= 104 ->
  exists m e,
    binary_round 24 128 s mx ex = S754_finite s m e /\
    normal (S754_finite s m e) /\
    d + ex - 24 <= e <= d + ex - 23 /\
    close (inject_Z (Zpos m) * bpow e) (inject_Z (Zpos mx) * bpow ex).
Proof.
  intros d Hlo Hhi.
  destruct (binary_round_spec s mx ex Hlo Hhi) as (m & e & Hrun & Hdm & He & Hb).
  fold d in He, Hb. exists m, e. split; [exact Hrun|].
  split; [cbn; lia|]. split; [exact He|].
  apply close_of_bound with (k := d + ex - 24).
  - pose proof (mant_lower mx d eq_refl) as Hl.
    pose proof (bpow_pos ex) as Hp.
    rewrite Qabs_pos by (pose proof (bpow_pos (d - 1)); nra).
    replace (d + ex - 24 + 23) with ((d - 1) + ex) by lia.
    rewrite bpow_add. nra.
  - replace (d + ex - 24 - 1) with (d + ex - 25) by lia. exact Hb.
Qed.

Lemma F2Q_finite s m e :
  (F2Q (S754_finite s m e) == sgn s * inject_Z (Zpos m) * bpow e)%Q.
Proof. destruct s; cbn; ring. Qed.

Lemma sgn_xorb s1 s2 : (sgn (xorb s1 s2) == sgn s1 * sgn s2)%Q.
Proof. destruct s1, s2; reflexivity. Qed.

Lemma Qabs_sgn s x : (Qabs (sgn s * x) == Qabs x)%Q.
Proof.
  destruct s; unfold sgn.
  - setoid_replace (-1 * x)%Q with (- x)%Q by ring. apply Qabs_opp.
  - setoid_replace (1 * x)%Q with x by ring. reflexivity.
Qed.

Lemma close_sgn s x X : close x X -> close (sgn s * x) (sgn s * X).
Proof.
  unfold close. intros H.
  setoid_replace (sgn s * x - sgn s * X)%Q with (sgn s * (x - X))%Q by ring.
  now rewrite !Qabs_sgn.
Qed.

Lemma close_ext x x' X X' :
  (x == x')%Q -> (X == X')%Q -> close x X -> close x' X'.
Proof. unfold close. intros -> ->. auto. Qed.

Lemma binary_round_aux_24 s mx ex :
  Zpos (digits2_pos mx) = 24 -> -149 <= ex <= 104 ->
  binary_round_aux 24 128 s (Zpos mx) ex loc_Exact = S754_finite s mx ex.
Proof.
  intros Hd He. unfold binary_round_aux, shr_fexp. cbn [Zdigits2].
  rewrite Hd, fexp_normal by lia.
  replace (24 + ex - 24 - ex) with 0 by lia.
  cbn [shr shr_record_of_loc shr_m loc_of_shr_record round_nearest_even Zdigits2].
  rewrite Hd, fexp_normal by lia.
  replace (24 + ex - 24 - ex) with 0 by lia.
  cbn [shr shr_record_of_loc shr_m].
  assert (E : (ex <=? 128 - 24) = true) by lia. now rewrite E.
Qed.

(** Integers below 2^24 convert exactly. *)
Lemma float_of_int_exact n :
  0 < n < 16777216 ->
  exists m e, float_of_int n = S754_finite false m e /\
              normal (S754_finite false m e) /\
              (F2Q (float_of_int n) == inject_Z n)%Q.
Proof.
  intros Hn. destruct n as [|p|p]; [lia| |lia].
  unfold float_of_int, f_prec, f_emax. cbn [binary_normalize]. unfold binary_round.
  pose proof (digits2_pos_spec p) as Hd.
  set (d := Zpos (digits2_pos p)) in *.
  assert (Hd24 : d <= 24).
  { destruct (Z_le_gt_dec d 24) as [H|H]; [exact H|].
    assert (2 ^ 24 <= 2 ^ (d - 1)) by (apply Z.pow_le_mono_r; lia).
    change (2 ^ 24) with 16777216 in *. lia. }
  assert (Hd1 : 1 <= d) by (unfold d; lia).
  rewrite Z.add_0_r, fexp_normal by lia.
  destruct (Z.eq_dec d 24) as [E|E].
  - rewrite shl_align_same by lia.
    rewrite binary_round_aux_24 by (fold d; lia).
    exists p, 0. split; [reflexivity|].
    split; [unfold normal; fold d; lia|].
    cbn. change (bpow 0) with 1%Q. ring.
  - destruct (shl_align_down p 0 (d - 24) ltac:(lia)) as (mz & -> & Hv).
    replace (0 - (d - 24)) with (24 - d) in Hv by lia.
    assert (Hdz : Zpos (digits2_pos mz) = 24).
    { apply digits2_pos_unique. rewrite Hv.
      pose proof (pow2_pos (24 - d) ltac:(lia)) as Hp.
      assert (H1 : 2 ^ (24 - 1) = 2 ^ (d - 1) * 2 ^ (24 - d))
        by (rewrite <- Z.pow_add_r by lia; f_equal; lia).
      assert (H2 : 2 ^ 24 = 2 ^ d * 2 ^ (24 - d))
        by (rewrite <- Z.pow_add_r by lia; f_equal; lia).
      rewrite H1, H2.
      set (A := 2 ^ (d - 1)) in *. set (B := 2 ^ d) in *.
      set (C := 2 ^ (24 - d)) in *. nia. }
    rewrite binary_round_aux_24 by lia.
    exists mz, (d - 24). split; [reflexivity|].
    split; [unfold normal; split; [exact Hdz|lia]|].
    cbn [F2Q]. rewrite Hv, inject_Z_mult.
    rewrite <- (bpow_Z (24 - d)) by lia.
    rewrite <- Qmult_assoc, <- bpow_add.
    replace (24 - d + (d - 24)) with 0 by lia. change (bpow 0) with 1%Q. ring.
Qed.

(** Any positive 32-bit integer converts with one rounding. *)
Lemma float_of_int_close n :
  0 < n < 4294967296 ->
  exists m e, float_of_int n = S754_finite false m e /\
              normal (S754_finite false m e) /\
              close (F2Q (float_of_int n)) (inject_Z n).
Proof.
  intros Hn. destruct n as [|p|p]; [lia| |lia].
  unfold float_of_int, f_prec, f_emax. cbn [binary_normalize].
  pose proof (digits2_pos_spec p) as Hd.
  set (d := Zpos (digits2_pos p)) in *.
  assert (Hd32 : d <= 32).
  { destruct (Z_le_gt_dec d 32) as [H|H]; [exact H|].
    assert (2 ^ 32 <= 2 ^ (d - 1)) by (apply Z.pow_le_mono_r; lia).
    change (2 ^ 32) with 4294967296 in *. lia. }
  assert (Hd1 : 1 <= d) by (unfold d; lia).
  destruct (binary_round_close false p 0) as (m & e & Hrun & Hn' & He & Hc);
    [fold d; lia|fold d; lia|].
  exists m, e. rewrite Hrun. split; [reflexivity|]. split; [exact Hn'|].
  eapply close_ext; [| |exact Hc].
  - cbn. reflexivity.
  - change (bpow 0) with 1%Q. ring.
Qed.

Lemma new_location_rep q r m2 :
  0 <= r < m2 ->
  rep (shr_record_of_loc q (new_location m2 r))
      (inject_Z q + inject_Z r / inject_Z m2).
Proof.
  intros Hr.
  assert (HM : (0 < inject_Z m2)%Q).
  { change 0%Q with (inject_Z 0). rewrite <- Zlt_Qlt. lia. }
  set (t := (inject_Z r / inject_Z m2)%Q).
  assert (Ht : (t * inject_Z m2 == inject_Z r)%Q) by (unfold t; field; lra).
  assert (HR : forall a b : Z, a * r + b < m2 ->
                               (inject_Z a * inject_Z r + inject_Z b < inject_Z m2)%Q).
  { intros a b H. rewrite <- inject_Z_mult, <- inject_Z_plus, <- Zlt_Qlt. exact H. }
  assert (HR' : forall a b : Z, m2 < a * r + b ->
                                (inject_Z m2 < inject_Z a * inject_Z r + inject_Z b)%Q).
  { intros a b H. rewrite <- inject_Z_mult, <- inject_Z_plus, <- Zlt_Qlt. exact H. }
  assert (HRe : forall a : Z, a * r = m2 ->
                              (inject_Z a * inject_Z r == inject_Z m2)%Q).
  { intros a H. rewrite <- inject_Z_mult, H. reflexivity. }
  assert (Hr0 : 0 < r -> (0 < inject_Z r)%Q).
  { intros H. change 0%Q with (inject_Z 0). rewrite <- Zlt_Qlt. exact H. }
  unfold new_location, new_location_even, new_location_odd.
  destruct (Z.even m2) eqn:Ev; destruct (Z.eqb_spec r 0) as [E0|E0];
    unfold rep; try rewrite shr_m_of_loc.
  - subst r. cbn [shr_record_of_loc shr_m shr_r shr_s]. cbv zeta.
    change (inject_Z 0) with 0%Q in Ht. nra.
  - specialize (Hr0 ltac:(lia)).
    destruct (Z.compare_spec (2 * r) m2) as [E|L|G];
      cbn [shr_record_of_loc shr_m shr_r shr_s]; cbv zeta.
    + pose proof (HRe 2 E) as H. change (inject_Z 2) with 2%Q in H. nra.
    + pose proof (HR 2 0 ltac:(lia)) as H.
      change (inject_Z 2) with 2%Q in H. change (inject_Z 0) with 0%Q in H.
      split; nra.
    + pose proof (HR' 2 0 ltac:(lia)) as H. pose proof (HR 1 0 ltac:(lia)) as H'.
      change (inject_Z 2) with 2%Q in H. change (inject_Z 0) with 0%Q in H, H'.
      change (inject_Z 1) with 1%Q in H'.
      split; nra.
  - subst r. cbn [shr_record_of_loc shr_m shr_r shr_s]. cbv zeta.
    change (inject_Z 0) with 0%Q in Ht. nra.
  - specialize (Hr0 ltac:(lia)).
    assert (Hodd : 2 * r <> m2).
    { intros E. rewrite <- E, Z.even_mul in Ev. discriminate Ev. }
    destruct (Z.compare_spec (2 * r + 1) m2) as [E|L|G];
      cbn [shr_record_of_loc shr_m shr_r shr_s]; cbv zeta.
    + pose proof (HR 2 0 ltac:(lia)) as H.
      change (inject_Z 2) with 2%Q in H. change (inject_Z 0) with 0%Q in H.
      split; nra.
    + pose proof (HR 2 0 ltac:(lia)) as H.
      change (inject_Z 2) with 2%Q in H. change (inject_Z 0) with 0%Q in H.
      split; nra.
    + pose proof (HR' 2 0 ltac:(lia)) as H. pose proof (HR 1 0 ltac:(lia)) as H'.
      change (inject_Z 2) with 2%Q in H. change (inject_Z 0) with 0%Q in H, H'.
      change (inject_Z 1) with 1%Q in H'.
      split; nra.
Qed.

Lemma sgn_cases s : (sgn s == 1 \/ sgn s == -1)%Q.
Proof. destruct s; [right|left]; reflexivity. Qed.

Lemma bpow_sub a b : (bpow (a - b) == bpow a / bpow b)%Q.
Proof.
  pose proof (bpow_pos b) as Hb.
  assert (E : (bpow a == bpow (a - b) * bpow b)%Q).
  { rewrite <- bpow_add. replace (a - b + b) with a by lia. reflexivity. }
  rewrite E. field. lra.
Qed.

Lemma fdiv_normal s1 m1 e1 s2 m2 e2 :
  normal (S754_finite s1 m1 e1) -> normal (S754_finite s2 m2 e2) ->
  -149 <= e1 - e2 - 24 -> e1 - e2 - 22 <= 104 ->
  exists m e,
    fdiv (S754_finite s1 m1 e1) (S754_finite s2 m2 e2)
    = S754_finite (xorb s1 s2) m e /\
    normal (S754_finite (xorb s1 s2) m e) /\
    close (F2Q (S754_finite (xorb s1 s2) m e))
          (F2Q (S754_finite s1 m1 e1) / F2Q (S754_finite s2 m2 e2)).
Proof.
  intros [Hd1 He1] [Hd2 He2] Hlo Hhi.
  unfold fdiv, f_prec, f_emax, SFdiv, SFdiv_core_binary. cbn [Zdigits2].
  rewrite Hd1, Hd2. cbv zeta.
  assert (Hmin : Z.min (fexp 24 128 (24 + e1 - (24 + e2))) (e1 - e2) = e1 - e2 - 24).
  { rewrite fexp_normal by lia. lia. }
  rewrite Hmin. replace (e1 - e2 - (e1 - e2 - 24)) with 24 by lia.
  cbv iota. rewrite Z.shiftl_mul_pow2 by lia. change (2 ^ 24) with 16777216.
  pose proof (Z_div_mod (Zpos m1 * 16777216) (Zpos m2) ltac:(lia)) as Hdm.
  destruct (Z.div_eucl (Zpos m1 * 16777216) (Zpos m2)) as [q r].
  destruct Hdm as [Heq Hr].
  pose proof (digits2_pos_spec m1) as B1. rewrite Hd1 in B1.
  pose proof (digits2_pos_spec m2) as B2. rewrite Hd2 in B2.
  change (2 ^ (24 - 1)) with 8388608 in *. change (2 ^ 24) with 16777216 in *.
  assert (Hq : 8388608 <= q < 33554432) by nia.
  destruct q as [|qp|qp]; [lia| |lia].
  set (e' := e1 - e2 - 24) in *.
  set (xs := (inject_Z (Zpos qp) + inject_Z r / inject_Z (Zpos m2))%Q).
  assert (Hn : Zpos (digits2_pos qp) = 24 \/ Zpos (digits2_pos qp) = 25).
  { destruct (Z_lt_ge_dec (Zpos qp) 16777216) as [H|H].
    - left. apply digits2_pos_unique.
      change (2 ^ (24 - 1)) with 8388608. change (2 ^ 24) with 16777216. lia.
    - right. apply digits2_pos_unique.
      change (2 ^ (25 - 1)) with 16777216. change (2 ^ 25) with 33554432. lia. }
  destruct (binary_round_aux_spec (xorb s1 s2) qp e' (new_location (Zpos m2) r) xs)
    as (m & e & Hrun & Hdm & He & Hb); [lia|lia|lia|apply new_location_rep; lia|].
  exists m, e. split; [exact Hrun|]. split; [unfold normal; lia|].
  pose proof (bpow_pos e2) as Hp2.
  assert (HM2 : (0 < inject_Z (Zpos m2))%Q).
  { change 0%Q with (inject_Z 0). rewrite <- Zlt_Qlt. lia. }
  assert (Hxs : (xs * bpow e'
                 == inject_Z (Zpos m1) * bpow e1 / (inject_Z (Zpos m2) * bpow e2))%Q).
  { unfold xs.
    assert (E1 : (inject_Z (Zpos qp) * inject_Z (Zpos m2) + inject_Z r
                  == inject_Z (Zpos m1) * 16777216)%Q).
    { rewrite <- inject_Z_mult, <- inject_Z_plus.
      change 16777216%Q with (inject_Z 16777216). rewrite <- inject_Z_mult.
      apply inject_Z_injective. lia. }
    assert (E2 : (bpow e1 == bpow e' * bpow e2 * 16777216)%Q).
    { unfold e'. replace e1 with ((e1 - e2 - 24) + e2 + 24) at 1 by lia.
      rewrite !bpow_add. rewrite (bpow_Z 24) by lia. reflexivity. }
    rewrite E2.
    setoid_replace (inject_Z (Zpos m1) * (bpow e' * bpow e2 * 16777216))%Q
      with ((inject_Z (Zpos m1) * 16777216) * bpow e' * bpow e2)%Q by ring.
    rewrite <- E1. field. split; lra. }
  assert (Hc : close (inject_Z (Zpos m) * bpow e) (xs * bpow e')).
  { apply close_of_bound with (k := e' + (Zpos (digits2_pos qp) - 24)).
    - pose proof (mant_lower qp _ eq_refl) as Hl.
      pose proof (bpow_pos e') as Hpe.
      assert (Hxq : (inject_Z (Zpos qp) <= xs)%Q).
      { unfold xs.
        assert (0 <= inject_Z r / inject_Z (Zpos m2))%Q.
        { apply Qle_shift_div_l; [exact HM2|].
          rewrite Qmult_0_l. change 0%Q with (inject_Z 0). rewrite <- Zle_Qle. lia. }
        lra. }
      rewrite Qabs_pos by (pose proof (bpow_pos (Zpos (digits2_pos qp) - 1)); nra).
      replace (e' + (Zpos (digits2_pos qp) - 24) + 23)
        with ((Zpos (digits2_pos qp) - 1) + e') by lia.
      rewrite bpow_add. nra.
    - exact Hb. }
  eapply close_ext; [| |apply (close_sgn (xorb s1 s2)); exact Hc].
  - rewrite F2Q_finite. ring.
  - rewrite !F2Q_finite, Hxs, sgn_xorb.
    destruct s1, s2; unfold sgn; field; split; lra.
Qed.

Lemma normal_finite f :
  normal f -> exists s m e, f = S754_finite s m e.
Proof. destruct f as [| | |s m e]; cbn; try tauto. intros _. now exists s, m, e. Qed.

Lemma normal_bounds f :
  normal f ->
  (bpow (fexpo f + 23) <= Qabs (F2Q f) /\ Qabs (F2Q f) < bpow (fexpo f + 24))%Q.
Proof.
  intros H. destruct (normal_finite f H) as (s & m & e & ->).
  destruct H as [Hd _]. cbn [fexpo]. rewrite F2Q_finite.
  setoid_replace (sgn s * inject_Z (Zpos m) * bpow e)%Q
    with (sgn s * (inject_Z (Zpos m) * bpow e))%Q by ring.
  rewrite Qabs_sgn.
  pose proof (mant_lower m 24 Hd) as Hl. pose proof (mant_upper m 24 Hd) as Hu.
  change (24 - 1) with 23 in Hl.
  pose proof (bpow_pos e) as Hp. pose proof (bpow_pos 23) as Hp23.
  rewrite Qabs_pos by nra.
  replace (e + 23) with (23 + e) by lia. replace (e + 24) with (24 + e) by lia.
  rewrite !bpow_add. split; nra.
Qed.

Lemma normal_exp f a b :
  normal f -> (bpow a <= Qabs (F2Q f))%Q -> (Qabs (F2Q f) < bpow b)%Q ->
  a - 23 <= fexpo f <= b - 24.
Proof.
  intros H Ha Hb. destruct (normal_bounds f H) as [Hl Hu].
  assert (H1 : a < fexpo f + 24) by (apply bpow_lt_inv; lra).
  assert (H2 : fexpo f + 23 < b) by (apply bpow_lt_inv; lra).
  lia.
Qed.

Lemma normal_nonzero f : normal f -> ~ (F2Q f == 0)%Q.
Proof.
  intros H E. destruct (normal_bounds f H) as [Hl _].
  rewrite E in Hl. pose proof (bpow_pos (fexpo f + 23)).
  change (Qabs 0) with 0%Q in Hl. lra.
Qed.

Lemma binary_round_aux_close s mx ex lx xs :
  let n := Zpos (digits2_pos mx) - 24 in
  0 <= n -> -149 <= ex + n -> ex + n + 1 <= 104 ->
  rep (shr_record_of_loc (Zpos mx) lx) xs ->
  exists m e,
    binary_round_aux 24 128 s (Zpos mx) ex lx = S754_finite s m e /\
    normal (S754_finite s m e) /\
    close (inject_Z (Zpos m) * bpow e) (xs * bpow ex).
Proof.
  intros n Hn Hlo Hhi Hrep.
  destruct (binary_round_aux_spec s mx ex lx xs Hn Hlo Hhi Hrep)
    as (m & e & Hrun & Hdm & He & Hb).
  fold n in He, Hb.
  exists m, e. split; [exact Hrun|]. split; [unfold normal; lia|].
  apply close_of_bound with (k := ex + n); [|exact Hb].
  pose proof (mant_lower mx _ eq_refl) as Hl.
  pose proof (bpow_pos ex) as Hpe.
  pose proof (rep_bounds _ _ Hrep) as [Hxq _]. rewrite shr_m_of_loc in Hxq.
  rewrite Qabs_pos by (pose proof (bpow_pos (Zpos (digits2_pos mx) - 1)); nra).
  replace (ex + n + 23) with ((Zpos (digits2_pos mx) - 1) + ex) by (unfold n; lia).
  rewrite bpow_add. nra.
Qed.

Lemma fmul_ok x y :
  normal x -> normal y ->
  -172 <= fexpo x + fexpo y -> fexpo x + fexpo y <= 79 ->
  normal (fmul x y) /\ close (F2Q (fmul x y)) (F2Q x * F2Q y).
Proof.
  intros Hx Hy.
  destruct (normal_finite x Hx) as (s1 & m1 & e1 & ->).
  destruct (normal_finite y Hy) as (s2 & m2 & e2 & ->).
  cbn [fexpo]. intros Hlo Hhi.
  destruct Hx as [Hd1 He1]. destruct Hy as [Hd2 He2].
  unfold fmul, f_prec, f_emax, SFmul.
  pose proof (digits2_pos_spec m1) as B1. rewrite Hd1 in B1.
  pose proof (digits2_pos_spec m2) as B2. rewrite Hd2 in B2.
  change (2 ^ (24 - 1)) with 8388608 in *. change (2 ^ 24) with 16777216 in *.
  assert (Hn : Zpos (digits2_pos (m1 * m2)) = 47 \/ Zpos (digits2_pos (m1 * m2)) = 48).
  { destruct (Z_lt_ge_dec (Zpos (m1 * m2)) (2 ^ 47)) as [H|H].
    - left. apply digits2_pos_unique. split; [|exact H].
      change (2 ^ (47 - 1)) with 70368744177664. rewrite Pos2Z.inj_mul. nia.
    - right. apply digits2_pos_unique. split; [change (48 - 1) with 47; lia|].
      change (2 ^ 48) with 281474976710656. rewrite Pos2Z.inj_mul. nia. }
  destruct (binary_round_aux_close (xorb s1 s2) (m1 * m2) (e1 + e2) loc_Exact
              (inject_Z (Zpos (m1 * m2))))
    as (m & e & Hrun & Hnorm & Hc); [lia|lia|lia|apply rep_exact|].
  rewrite Hrun. split; [exact Hnorm|].
  eapply close_ext; [| |apply (close_sgn (xorb s1 s2)); exact Hc].
  - rewrite F2Q_finite. ring.
  - rewrite !F2Q_finite, sgn_xorb, Pos2Z.inj_mul, inject_Z_mult, bpow_add. ring.
Qed.

Lemma fdiv_ok x y :
  normal x -> normal y ->
  -125 <= fexpo x - fexpo y -> fexpo x - fexpo y <= 126 ->
  normal (fdiv x y) /\ close (F2Q (fdiv x y)) (F2Q x / F2Q y).
Proof.
  intros Hx Hy.
  destruct (normal_finite x Hx) as (s1 & m1 & e1 & ->).
  destruct (normal_finite y Hy) as (s2 & m2 & e2 & ->).
  cbn [fexpo]. intros Hlo Hhi.
  destruct (fdiv_normal s1 m1 e1 s2 m2 e2 Hx Hy ltac:(lia) ltac:(lia))
    as (m & e & Hrun & Hn & Hc).
  rewrite Hrun. split; assumption.
Qed.

Lemma inject_cond_Zopp s z : (inject_Z (cond_Zopp s z) == sgn s * inject_Z z)%Q.
Proof.
  destruct s; unfold cond_Zopp, sgn.
  - rewrite inject_Z_opp. ring.
  - ring.
Qed.

Lemma binary_normalize_spec z ez w :
  z <> 0 -> -126 <= ez -> 0 <= w -> Z.abs z < 2 ^ w -> w + ez <= 127 ->
  exists s m e,
    binary_normalize 24 128 z ez false = S754_finite s m e /\
    normal (S754_finite s m e) /\
    ez - 23 <= e <= w + ez - 23 /\
    close (F2Q (S754_finite s m e)) (inject_Z z * bpow ez).
Proof.
  intros Hz Hez Hw Habs Hhi.
  assert (Hdig : forall p, Zpos p < 2 ^ w -> 1 <= Zpos (digits2_pos p) <= w).
  { intros p Hp. pose proof (digits2_pos_spec p) as Hs. split; [lia|].
    destruct (Z_le_gt_dec (Zpos (digits2_pos p)) w) as [H|H]; [exact H|].
    assert (2 ^ w <= 2 ^ (Zpos (digits2_pos p) - 1)) by (apply Z.pow_le_mono_r; lia).
    lia. }
  destruct z as [|p|p]; [congruence| |]; cbn [binary_normalize].
  - specialize (Hdig p ltac:(lia)).
    destruct (binary_round_close false p ez) as (m & e & Hrun & Hn & He & Hc);
      [lia|lia|].
    exists false, m, e. split; [exact Hrun|]. split; [exact Hn|]. split; [lia|].
    eapply close_ext; [| |exact Hc].
    + rewrite F2Q_finite. unfold sgn. ring.
    + reflexivity.
  - specialize (Hdig p ltac:(lia)).
    destruct (binary_round_close true p ez) as (m & e & Hrun & Hn & He & Hc);
      [lia|lia|].
    exists true, m, e. split; [exact Hrun|]. split; [exact Hn|]. split; [lia|].
    eapply close_ext; [| |apply (close_sgn true); exact Hc].
    + rewrite F2Q_finite. ring.
    + unfold sgn. change (Zneg p) with (- Zpos p). rewrite inject_Z_opp. ring.
Qed.

Lemma aligned_value s m e ez :
  ez <= e ->
  (inject_Z (cond_Zopp s (Zpos (fst (shl_align m e ez)))) * bpow ez
   == F2Q (S754_finite s m e))%Q.
Proof.
  intros H. rewrite inject_cond_Zopp, shl_align_val by exact H.
  rewrite inject_Z_mult, <- bpow_Z by lia. rewrite F2Q_finite.
  replace e with ((e - ez) + ez) at 2 by lia. rewrite bpow_add. ring.
Qed.

Lemma aligned_bound s m e ez :
  ez <= e -> Zpos (digits2_pos m) = 24 ->
  Z.abs (cond_Zopp s (Zpos (fst (shl_align m e ez)))) < 2 ^ (24 + (e - ez)).
Proof.
  intros H Hd. rewrite shl_align_val by exact H.
  pose proof (digits2_pos_spec m) as Hs. rewrite Hd in Hs.
  pose proof (pow2_pos (e - ez) ltac:(lia)) as Hp.
  rewrite Z.pow_add_r by lia.
  destruct s; cbn [cond_Zopp]; rewrite ?Z.abs_opp, Z.abs_eq by nia; nia.
Qed.

Lemma close_zero X : (X == 0)%Q -> close 0 X.
Proof. intros E. unfold close. rewrite E. cbn. lra. Qed.

Lemma normalize_sum z ez e1 e2 X :
  ez = Z.min e1 e2 -> -126 <= e1 <= 100 -> -126 <= e2 <= 100 ->
  Z.abs z < 2 ^ (25 + (Z.max e1 e2 - ez)) ->
  (inject_Z z * bpow ez == X)%Q ->
  let r := binary_normalize 24 128 z ez false in
  regular r /\ close (F2Q r) X /\
  (normal r -> ez - 23 <= fexpo r <= Z.max e1 e2 + 2).
Proof.
  intros Hez He1 He2 Hb HX r.
  destruct (Z.eq_dec z 0) as [Hz|Hz].
  - subst z. subst r. cbn [binary_normalize regular F2Q normal].
    split; [exact I|]. split; [|tauto].
    apply close_zero. rewrite <- HX. ring.
  - destruct (binary_normalize_spec z ez (25 + (Z.max e1 e2 - ez)) Hz)
      as (s & m & e & Hrun & Hn & He & Hc); [lia|lia|exact Hb|lia|].
    subst r. rewrite Hrun. split; [exact Hn|]. split.
    + eapply close_ext; [reflexivity|exact HX|exact Hc].
    + intros _. cbn [fexpo]. lia.
Qed.

Lemma fsub_ok x y :
  normal x -> normal y ->
  -126 <= fexpo x <= 100 -> -126 <= fexpo y <= 100 ->
  regular (fsub x y) /\ close (F2Q (fsub x y)) (F2Q x - F2Q y) /\
  (normal (fsub x y) ->
   Z.min (fexpo x) (fexpo y) - 23 <= fexpo (fsub x y)
   <= Z.max (fexpo x) (fexpo y) + 2).
Proof.
  intros Hx Hy.
  destruct (normal_finite x Hx) as (s1 & m1 & e1 & ->).
  destruct (normal_finite y Hy) as (s2 & m2 & e2 & ->).
  cbn [fexpo]. intros He1 He2.
  destruct Hx as [Hd1 _]. destruct Hy as [Hd2 _].
  unfold fsub, f_prec, f_emax, SFsub. cbv zeta.
  change (IntDef.Z.min e1 e2) with (Z.min e1 e2).
  set (ez := Z.min e1 e2).
  apply normalize_sum with (e1 := e1) (e2 := e2); [reflexivity|exact He1|exact He2| |].
  - pose proof (aligned_bound s1 m1 e1 ez ltac:(unfold ez; lia) Hd1) as A1.
    pose proof (aligned_bound s2 m2 e2 ez ltac:(unfold ez; lia) Hd2) as A2.
    assert (P1 : 2 ^ (24 + (e1 - ez)) <= 2 ^ (24 + (Z.max e1 e2 - ez)))
      by (apply Z.pow_le_mono_r; unfold ez; lia).
    assert (P2 : 2 ^ (24 + (e2 - ez)) <= 2 ^ (24 + (Z.max e1 e2 - ez)))
      by (apply Z.pow_le_mono_r; unfold ez; lia).
    replace (25 + (Z.max e1 e2 - ez)) with (Z.succ (24 + (Z.max e1 e2 - ez))) by lia.
    rewrite Z.pow_succ_r by (unfold ez; lia).
    set (A := 2 ^ (24 + (Z.max e1 e2 - ez))) in *.
    set (a1 := cond_Zopp s1 (Zpos (fst (shl_align m1 e1 ez)))) in *.
    set (a2 := cond_Zopp s2 (Zpos (fst (shl_align m2 e2 ez)))) in *.
    lia.
  - rewrite <- (aligned_value s1 m1 e1 ez), <- (aligned_value s2 m2 e2 ez)
      by (unfold ez; lia).
    unfold Zminus. rewrite inject_Z_plus, inject_Z_opp. ring.
Qed.

Lemma fadd_ok x y :
  normal x -> normal y ->
  -126 <= fexpo x <= 100 -> -126 <= fexpo y <= 100 ->
  regular (fadd x y) /\ close (F2Q (fadd x y)) (F2Q x + F2Q y) /\
  (normal (fadd x y) ->
   Z.min (fexpo x) (fexpo y) - 23 <= fexpo (fadd x y)
   <= Z.max (fexpo x) (fexpo y) + 2).
Proof.
  intros Hx Hy.
  destruct (normal_finite x Hx) as (s1 & m1 & e1 & ->).
  destruct (normal_finite y Hy) as (s2 & m2 & e2 & ->).
  cbn [fexpo]. intros He1 He2.
  destruct Hx as [Hd1 _]. destruct Hy as [Hd2 _].
  unfold fadd, f_prec, f_emax, SFadd. cbv zeta.
  change (IntDef.Z.min e1 e2) with (Z.min e1 e2).
  set (ez := Z.min e1 e2).
  apply normalize_sum with (e1 := e1) (e2 := e2); [reflexivity|exact He1|exact He2| |].
  - pose proof (aligned_bound s1 m1 e1 ez ltac:(unfold ez; lia) Hd1) as A1.
    pose proof (aligned_bound s2 m2 e2 ez ltac:(unfold ez; lia) Hd2) as A2.
    assert (P1 : 2 ^ (24 + (e1 - ez)) <= 2 ^ (24 + (Z.max e1 e2 - ez)))
      by (apply Z.pow_le_mono_r; unfold ez; lia).
    assert (P2 : 2 ^ (24 + (e2 - ez)) <= 2 ^ (24 + (Z.max e1 e2 - ez)))
      by (apply Z.pow_le_mono_r; unfold ez; lia).
    replace (25 + (Z.max e1 e2 - ez)) with (Z.succ (24 + (Z.max e1 e2 - ez))) by lia.
    rewrite Z.pow_succ_r by (unfold ez; lia).
    set (A := 2 ^ (24 + (Z.max e1 e2 - ez))) in *.
    set (a1 := cond_Zopp s1 (Zpos (fst (shl_align m1 e1 ez)))) in *.
    set (a2 := cond_Zopp s2 (Zpos (fst (shl_align m2 e2 ez)))) in *.
    lia.
  - rewrite <- (aligned_value s1 m1 e1 ez), <- (aligned_value s2 m2 e2 ez)
      by (unfold ez; lia).
    rewrite inject_Z_plus. ring.
Qed.

Lemma regular_nonzero f : regular f -> ~ (F2Q f == 0)%Q -> normal f.
Proof.
  destruct f as [s| | |s m e]; cbn [regular]; try tauto.
  intros _ H. exfalso. apply H. reflexivity.
Qed.

Lemma F2Q_fabs f : (F2Q (fabs f) == Qabs (F2Q f))%Q.
Proof.
  destruct f as [s|s| |s m e]; cbn [fabs SFabs F2Q]; try reflexivity.
  pose proof (bpow_pos e) as Hp.
  assert (Hm : (0 < inject_Z (Zpos m))%Q).
  { change 0%Q with (inject_Z 0). rewrite <- Zlt_Qlt. lia. }
  destruct s.
  - setoid_replace (- inject_Z (Zpos m) * bpow e)%Q
      with (- (inject_Z (Zpos m) * bpow e))%Q by ring.
    rewrite Qabs_opp, Qabs_pos by nra. reflexivity.
  - rewrite Qabs_pos by nra. reflexivity.
Qed.

Lemma fabs_nonneg f : regular f -> nonneg (fabs f).
Proof.
  destruct f as [s|s| |s m e]; cbn; tauto.
Qed.

Lemma nonneg_regular f : nonneg f -> regular f.
Proof. destruct f as [s|s| |[|] m e]; cbn; tauto. Qed.

Lemma nonneg_value f : nonneg f -> (0 <= F2Q f)%Q.
Proof.
  destruct f as [s|s| |[|] m e]; cbn [nonneg F2Q]; try tauto; try lra.
  intros _. pose proof (bpow_pos e) as Hp.
  assert (Hm : (0 < inject_Z (Zpos m))%Q).
  { change 0%Q with (inject_Z 0). rewrite <- Zlt_Qlt. lia. }
  nra.
Qed.

(** On non-negative regular numbers the binary32 comparison is the
    comparison of the values. *)
Lemma flt_spec x y :
  nonneg x -> nonneg y -> (flt x y = true <-> (F2Q x < F2Q y)%Q).
Proof.
  intros Hx Hy.
  destruct x as [sx|sx| |[|] mx ex]; cbn [nonneg] in Hx; try tauto;
    destruct y as [sy|sy| |[|] my ey]; cbn [nonneg] in Hy; try tauto.
  - cbn. split; [discriminate|lra].
  - pose proof (normal_bounds _ Hy) as [Hl _].
    rewrite Qabs_pos in Hl by (apply nonneg_value; exact Hy).
    pose proof (bpow_pos (fexpo (S754_finite false my ey) + 23)).
    unfold flt, SFltb, SFcompare. cbn [F2Q] in *. split; [intros _; lra|reflexivity].
  - pose proof (normal_bounds _ Hx) as [Hl _].
    rewrite Qabs_pos in Hl by (apply nonneg_value; exact Hx).
    pose proof (bpow_pos (fexpo (S754_finite false mx ex) + 23)).
    unfold flt, SFltb, SFcompare. cbn [F2Q] in *. split; [discriminate|lra].
  - pose proof (normal_bounds _ Hx) as [Hlx Hux].
    pose proof (normal_bounds _ Hy) as [Hly Huy].
    rewrite Qabs_pos in Hlx, Hux by (apply nonneg_value; exact Hx).
    rewrite Qabs_pos in Hly, Huy by (apply nonneg_value; exact Hy).
    cbn [fexpo] in *.
    unfold flt, SFltb, SFcompare.
    destruct (Z.compare_spec ex ey) as [E|L|G].
    + subst ey. change (PosDef.Pos.compare_cont Eq mx my) with (Pos.compare mx my).
      pose proof (bpow_pos ex) as Hp. cbn [F2Q].
      destruct (Pos.compare_spec mx my) as [E|L|G].
      * subst my. split; [discriminate|lra].
      * split; [intros _|reflexivity].
        assert (inject_Z (Zpos mx) < inject_Z (Zpos my))%Q by (rewrite <- Zlt_Qlt; lia).
        nra.
      * split; [discriminate|].
        assert (inject_Z (Zpos my) < inject_Z (Zpos mx))%Q by (rewrite <- Zlt_Qlt; lia).
        nra.
    + split; [intros _|reflexivity].
      pose proof (bpow_le (ex + 24) (ey + 23) ltac:(lia)). lra.
    + split; [discriminate|].
      pose proof (bpow_le (ey + 24) (ex + 23) ltac:(lia)). lra.
Qed.

Section Within.
Local Open Scope Q_scope.

Lemma close_within x X : 0 < X -> close x X -> within ulp_half x X.
Proof.
  unfold close, within, ulp_half. intros HX H.
  rewrite (Qabs_pos X) in H by lra.
  apply Qabs_Qle_condition in H. lra.
Qed.

Lemma within_exact k x X : x == X -> 0 <= k -> 0 <= X -> within k x X.
Proof. unfold within. intros E Hk HX. rewrite E. nra. Qed.

Lemma within_pos k x X : 0 < X -> k < 1 -> within k x X -> 0 < x.
Proof. unfold within. intros HX Hk [H _]. nra. Qed.

Lemma within_round k x X z k3 :
  0 < X -> 0 <= k -> k < 1 -> within k x X -> close z x ->
  k + ulp_half + k * ulp_half <= k3 -> within k3 z X.
Proof.
  intros HX Hk0 Hk1 Hw Hc Hk3.
  pose proof (within_pos k x X HX Hk1 Hw) as Hx.
  apply close_within in Hc; [|exact Hx].
  unfold within, ulp_half in *. destruct Hw as [L U]. destruct Hc as [L' U'].
  set (u := 1 # 16777216) in *.
  assert (Hu : 0 <= u /\ u < 1) by (unfold u; lra). destruct Hu as [Hu0 Hu1].
  split.
  - assert (X * ((1 - k) * (1 - u)) <= z).
    { apply Qle_trans with (x * (1 - u)); [|lra].
      setoid_replace (X * ((1 - k) * (1 - u))) with ((X * (1 - k)) * (1 - u)) by ring.
      apply Qmult_le_compat_r; lra. }
    assert ((1 - k3) <= (1 - k) * (1 - u)) by nra.
    apply Qle_trans with (X * ((1 - k) * (1 - u))); [|assumption].
    apply Qmult_le_l; lra.
  - assert (z <= X * ((1 + k) * (1 + u))).
    { apply Qle_trans with (x * (1 + u)); [lra|].
      setoid_replace (X * ((1 + k) * (1 + u))) with ((X * (1 + k)) * (1 + u)) by ring.
      apply Qmult_le_compat_r; lra. }
    assert ((1 + k) * (1 + u) <= 1 + k3) by nra.
    apply Qle_trans with (X * ((1 + k) * (1 + u))); [assumption|].
    apply Qmult_le_l; lra.
Qed.

Lemma within_mul k1 k2 k3 x X y Y :
  0 < X -> 0 < Y -> 0 <= k1 -> k1 < 1 -> 0 <= k2 -> k2 < 1 ->
  within k1 x X -> within k2 y Y ->
  k1 + k2 + k1 * k2 <= k3 -> within k3 (x * y) (X * Y).
Proof.
  intros HX HY Hk1 Hk1' Hk2 Hk2' [Lx Ux] [Ly Uy] Hk3.
  assert (Hx : 0 < x) by nra. assert (Hy : 0 < y) by nra.
  split.
  - apply Qle_trans with ((X * (1 - k1)) * (Y * (1 - k2))).
    + setoid_replace (X * (1 - k1) * (Y * (1 - k2)))
        with ((X * Y) * ((1 - k1) * (1 - k2))) by ring.
      apply Qmult_le_l; [nra|nra].
    + apply Qle_trans with (x * (Y * (1 - k2))).
      * apply Qmult_le_compat_r; [exact Lx|nra].
      * apply Qmult_le_l; [exact Hx|exact Ly].
  - apply Qle_trans with ((X * (1 + k1)) * (Y * (1 + k2))).
    + apply Qle_trans with (x * (Y * (1 + k2))).
      * apply Qmult_le_l; [exact Hx|exact Uy].
      * apply Qmult_le_compat_r; [exact Ux|nra].
    + setoid_replace (X * (1 + k1) * (Y * (1 + k2)))
        with ((X * Y) * ((1 + k1) * (1 + k2))) by ring.
      apply Qmult_le_l; [nra|nra].
Qed.

Lemma within_div k1 k2 k3 x X y Y :
  0 < X -> 0 < Y -> 0 <= k1 -> k1 < 1 -> 0 <= k2 -> k2 < 1 ->
  within k1 x X -> within k2 y Y ->
  k1 + k2 <= k3 * (1 - k2) -> within k3 (x / y) (X / Y).
Proof.
  intros HX HY Hk1 Hk1' Hk2 Hk2' [Lx Ux] [Ly Uy] Hk3.
  assert (Hx : 0 < x) by nra. assert (Hy : 0 < y) by nra.
  assert (Hk30 : 0 <= k3) by nra.
  set (T := X / Y).
  assert (HT : T * Y == X) by (unfold T; field; lra).
  assert (HT0 : 0 < T) by (unfold T; apply Qlt_shift_div_l; lra).
  split.
  - apply Qle_shift_div_l; [exact Hy|].
    (* T (1 - k3) y <= x *)
    apply Qle_trans with (X * (1 - k1)); [|exact Lx].
    rewrite <- HT.
    destruct (Qlt_le_dec k3 1) as [Hlt|Hge].
    + apply Qle_trans with (T * (1 - k3) * (Y * (1 + k2))).
      * apply Qmult_le_l; [nra|exact Uy].
      * setoid_replace (T * (1 - k3) * (Y * (1 + k2)))
          with ((T * Y) * ((1 - k3) * (1 + k2))) by ring.
        apply Qmult_le_l; nra.
    + apply Qle_trans with 0; [|nra].
      assert (0 <= T * (k3 - 1) * y) by (apply Qmult_le_0_compat; nra).
      lra.
  - apply Qle_shift_div_r; [exact Hy|].
    apply Qle_trans with (X * (1 + k1)); [exact Ux|].
    rewrite <- HT.
    apply Qle_trans with (T * (1 + k3) * (Y * (1 - k2))).
    + setoid_replace (T * (1 + k3) * (Y * (1 - k2)))
        with ((T * Y) * ((1 + k3) * (1 - k2))) by ring.
      apply Qmult_le_l; nra.
    + apply Qmult_le_l; [nra|exact Ly].
Qed.

Lemma within_add k x X y Y :
  within k x X -> within k y Y -> within k (x + y) (X + Y).
Proof. unfold within. intros [Lx Ux] [Ly Uy]. split; lra. Qed.

Lemma within_bounds k x X a b :
  0 <= k -> k <= 1 # 2 -> within k x X -> bpow a <= X -> X < bpow b ->
  bpow (a - 1) <= Qabs x /\ Qabs x < bpow (b + 1).
Proof.
  intros Hk0 Hk [L U] Ha Hb.
  pose proof (bpow_pos a) as Hpa.
  assert (Hx : 0 < x) by nra.
  rewrite Qabs_pos by lra.
  rewrite bpow_pred, bpow_succ. split; nra.
Qed.

End Within.

Lemma within_exp f k X a b :
  normal f -> (0 <= k)%Q -> (k <= 1 # 2)%Q -> within k (F2Q f) X ->
  (bpow a <= X)%Q -> (X < bpow b)%Q ->
  a - 24 <= fexpo f <= b - 23.
Proof.
  intros Hn Hk0 Hk Hw Ha Hb.
  destruct (within_bounds k (F2Q f) X a b Hk0 Hk Hw Ha Hb) as [L U].
  pose proof (normal_exp f (a - 1) (b + 1) Hn L U). lia.
Qed.

Section Good.
Local Open Scope Q_scope.

Lemma good_exp k f X lo hi :
  good k f X lo hi -> ok_k k -> ok_range lo hi -> (-64 <= fexpo f <= 17)%Z.
Proof.
  intros (Hn & Hw & Hlo & Hhi) [Hk0 Hk] [Rl Rh].
  apply (within_exp f k X (-40) 40 Hn Hk0); [lra|exact Hw| |].
  - apply Qle_trans with (1 # 1099511627776); [apply Qle_lteq; right; reflexivity|lra].
  - apply Qle_lt_trans with 549755813888; [lra|reflexivity].
Qed.

Lemma good_pos k f X lo hi :
  good k f X lo hi -> ok_range lo hi -> 0 < X.
Proof. intros (_ & _ & Hlo & _) [Rl _]. lra. Qed.

Lemma good_mul k1 k2 k' k3 f1 X1 lo1 hi1 f2 X2 lo2 hi2 :
  good k1 f1 X1 lo1 hi1 -> good k2 f2 X2 lo2 hi2 ->
  ok_k k1 -> ok_k k2 -> ok_k k' -> ok_range lo1 hi1 -> ok_range lo2 hi2 ->
  k1 + k2 + k1 * k2 <= k' -> k' + ulp_half + k' * ulp_half <= k3 ->
  good k3 (fmul f1 f2) (X1 * X2) (lo1 * lo2) (hi1 * hi2).
Proof.
  intros G1 G2 K1 K2 K' R1 R2 Hk' Hk3.
  pose proof (good_exp _ _ _ _ _ G1 K1 R1) as E1.
  pose proof (good_exp _ _ _ _ _ G2 K2 R2) as E2.
  pose proof (good_pos _ _ _ _ _ G1 R1) as P1.
  pose proof (good_pos _ _ _ _ _ G2 R2) as P2.
  destruct G1 as (N1 & W1 & L1 & U1). destruct G2 as (N2 & W2 & L2 & U2).
  destruct K1 as [K10 K11]. destruct K2 as [K20 K21]. destruct K' as [K0 K1].
  destruct R1 as [R1l R1h]. destruct R2 as [R2l R2h].
  destruct (fmul_ok f1 f2 N1 N2 ltac:(lia) ltac:(lia)) as [Nr Cr].
  split; [exact Nr|]. split; [|split].
  - apply (within_round k' (F2Q f1 * F2Q f2)); [nra|exact K0|lra| |exact Cr|exact Hk3].
    apply (within_mul k1 k2); try assumption; lra.
  - apply Qle_trans with (X1 * lo2).
    + apply Qmult_le_compat_r; lra.
    + apply Qmult_le_l; lra.
  - apply Qle_trans with (X1 * hi2).
    + apply Qmult_le_l; lra.
    + apply Qmult_le_compat_r; lra.
Qed.

Lemma good_div k1 k2 k' k3 f1 X1 lo1 hi1 f2 X2 lo2 hi2 :
  good k1 f1 X1 lo1 hi1 -> good k2 f2 X2 lo2 hi2 ->
  ok_k k1 -> ok_k k2 -> ok_k k' -> ok_range lo1 hi1 -> ok_range lo2 hi2 ->
  k1 + k2 <= k' * (1 - k2) -> k' + ulp_half + k' * ulp_half <= k3 ->
  good k3 (fdiv f1 f2) (X1 / X2) (lo1 / hi2) (hi1 / lo2).
Proof.
  intros G1 G2 K1 K2 K' R1 R2 Hk' Hk3.
  pose proof (good_exp _ _ _ _ _ G1 K1 R1) as E1.
  pose proof (good_exp _ _ _ _ _ G2 K2 R2) as E2.
  pose proof (good_pos _ _ _ _ _ G1 R1) as P1.
  pose proof (good_pos _ _ _ _ _ G2 R2) as P2.
  destruct G1 as (N1 & W1 & L1 & U1). destruct G2 as (N2 & W2 & L2 & U2).
  destruct K1 as [K10 K11]. destruct K2 as [K20 K21]. destruct K' as [K0 K1].
  destruct R1 as [R1l R1h]. destruct R2 as [R2l R2h].
  destruct (fdiv_ok f1 f2 N1 N2 ltac:(lia) ltac:(lia)) as [Nr Cr].
  assert (PT : 0 < X1 / X2) by (apply Qlt_shift_div_l; lra).
  split; [exact Nr|]. split; [|split].
  - apply (within_round k' (F2Q f1 / F2Q f2)); [exact PT|exact K0|lra| |exact Cr|exact Hk3].
    apply (within_div k1 k2); try assumption; lra.
  - apply Qle_shift_div_l; [lra|].
    apply Qle_trans with (lo1 / hi2 * hi2).
    + apply Qmult_le_l; [apply Qlt_shift_div_l; lra|lra].
    + apply Qle_trans with lo1; [|lra].
      apply Qle_lteq. right. field. lra.
  - apply Qle_shift_div_r; [lra|].
    apply Qle_trans with (hi1 / lo2 * lo2).
    + apply Qle_trans with hi1; [lra|].
      apply Qle_lteq. right. field. lra.
    + apply Qmult_le_l; [apply Qlt_shift_div_l; lra|lra].
Qed.

Lemma good_add k k3 f1 X1 lo1 hi1 f2 X2 lo2 hi2 :
  good k f1 X1 lo1 hi1 -> good k f2 X2 lo2 hi2 ->
  ok_k k -> ok_range lo1 hi1 -> ok_range lo2 hi2 ->
  k + ulp_half + k * ulp_half <= k3 ->
  good k3 (fadd f1 f2) (X1 + X2) (lo1 + lo2) (hi1 + hi2).
Proof.
  intros G1 G2 K R1 R2 Hk3.
  pose proof (good_exp _ _ _ _ _ G1 K R1) as E1.
  pose proof (good_exp _ _ _ _ _ G2 K R2) as E2.
  pose proof (good_pos _ _ _ _ _ G1 R1) as P1.
  pose proof (good_pos _ _ _ _ _ G2 R2) as P2.
  destruct G1 as (N1 & W1 & L1 & U1). destruct G2 as (N2 & W2 & L2 & U2).
  destruct K as [K0 K1].
  destruct (fadd_ok f1 f2 N1 N2 ltac:(lia) ltac:(lia)) as (Rr & Cr & _).
  assert (Wr : within k3 (F2Q (fadd f1 f2)) (X1 + X2)).
  { apply (within_round k (F2Q f1 + F2Q f2)); [lra|exact K0|lra| |exact Cr|exact Hk3].
    apply within_add; assumption. }
  split; [|split; [exact Wr|split; lra]].
  apply regular_nonzero; [exact Rr|].
  assert (Wr' : within (k + ulp_half + k * ulp_half) (F2Q (fadd f1 f2)) (X1 + X2)).
  { apply (within_round k (F2Q f1 + F2Q f2)); [lra|exact K0|lra| |exact Cr|lra].
    apply within_add; assumption. }
  apply within_pos in Wr'; [|lra|unfold ulp_half; nra].
  intros E. rewrite E in Wr'. lra.
Qed.

End Good.

Ltac qle := apply Qle_bool_imp_le; vm_compute; reflexivity.
Ltac qabs_cases t :=
  let H := fresh "A" in
  let a := fresh "a" in
  destruct (Qlt_le_dec t 0);
  [assert (H : (Qabs t == - t)%Q) by (apply Qabs_neg; lra)
  |assert (H : (Qabs t == t)%Q) by (apply Qabs_pos; lra)];
  set (a := Qabs t) in *; clearbody a.

Section Chain.
Local Open Scope Q_scope.

Lemma inj_le a b : (a <= b)%Z -> inject_Z a <= inject_Z b.
Proof. intros H. rewrite <- Zle_Qle. exact H. Qed.

Lemma inj_lt a b : (a < b)%Z -> inject_Z a < inject_Z b.
Proof. intros H. rewrite <- Zlt_Qlt. exact H. Qed.

Lemma within_weaken k k' x X : 0 <= X -> k <= k' -> within k x X -> within k' x X.
Proof. unfold within. intros HX Hk [L U]. split; nra. Qed.

Lemma good_widen k k' f X lo hi lo' hi' :
  good k f X lo hi -> 0 <= lo' -> k <= k' -> lo' <= lo -> hi <= hi' ->
  good k' f X lo' hi'.
Proof.
  intros (N & W & L & U) H0 Hk Hl Hh.
  split; [exact N|]. split; [|split; lra].
  apply (within_weaken k k'); [lra|exact Hk|exact W].
Qed.

Lemma foi_exact_good n lo hi :
  (0 < n < 16777216)%Z -> lo <= inject_Z n -> inject_Z n <= hi ->
  good 0 (float_of_int n) (inject_Z n) lo hi.
Proof.
  intros Hn Hl Hh.
  destruct (float_of_int_exact n Hn) as (m & e & Hf & Hnorm & Hv).
  split; [rewrite Hf; exact Hnorm|]. split; [|split; assumption].
  apply within_exact; [exact Hv|lra|].
  apply (inj_le 0 n). lia.
Qed.

Lemma foi_close_good n lo hi :
  (0 < n < 4294967296)%Z -> lo <= inject_Z n -> inject_Z n <= hi ->
  good ulp_half (float_of_int n) (inject_Z n) lo hi.
Proof.
  intros Hn Hl Hh.
  destruct (float_of_int_close n Hn) as (m & e & Hf & Hnorm & Hc).
  split; [rewrite Hf; exact Hnorm|]. split; [|split; assumption].
  apply close_within; [|exact Hc].
  apply (inj_lt 0 n). lia.
Qed.

Lemma err_bound B c d e qb C :
  0 < qb -> 0 < C -> C < 4 * qb ->
  within ulp_half B qb -> within (101 # 268435456) c C ->
  close d (B - c) -> close e (d / B) ->
  Qabs (Qabs e - Qabs (C - qb) / qb) <= 1 # 262144.
Proof.
  intros Hqb HC Ht WB Wc Cd Ce.
  assert (HB : 0 < B) by (apply (within_pos ulp_half B qb); [lra|reflexivity|exact WB]).
  assert (Hc : 0 < c) by (apply (within_pos (101 # 268435456) c C); [lra|reflexivity|exact Wc]).
  assert (Wcb : within (118 # 268435456) (c / B) (C / qb)).
  { apply (within_div (101 # 268435456) ulp_half); try assumption;
      try (unfold ulp_half; lra); qle. }
  set (t := C / qb) in *.
  assert (Et : t * qb == C) by (unfold t; field; lra).
  assert (Ht0 : 0 < t) by (unfold t; apply Qlt_shift_div_l; lra).
  assert (Ht4 : t < 4) by (unfold t; apply Qlt_shift_div_r; lra).
  set (cb := c / B) in *.
  assert (Ecb : cb * B == c) by (unfold cb; field; lra).
  set (dB := d / B) in *.
  assert (EdB : dB * B == d) by (unfold dB; field; lra).
  assert (H1 : Qabs (dB - (1 - cb)) <= ulp_half * Qabs (1 - cb)).
  { unfold close in Cd.
    assert (E1 : d - (B - c) == B * (dB - (1 - cb))) by (rewrite <- EdB, <- Ecb; ring).
    assert (E2 : B - c == B * (1 - cb)) by (rewrite <- Ecb; ring).
    rewrite E1, E2, !Qabs_Qmult, (Qabs_pos B) in Cd by lra.
    set (a1 := Qabs (dB - (1 - cb))) in *. set (a2 := Qabs (1 - cb)) in *.
    apply (Qmult_le_l _ _ B); [exact HB|].
    lra. }
  assert (E3 : Qabs (C - qb) / qb == Qabs (t - 1)).
  { assert (E : C - qb == qb * (t - 1)) by (rewrite <- Et; ring).
    rewrite E, Qabs_Qmult, (Qabs_pos qb) by lra. field. lra. }
  rewrite E3. unfold close in Ce. unfold within in Wcb.
  unfold ulp_half in *. destruct Wcb as [L U].
  qabs_cases (dB - (1 - cb)); qabs_cases (1 - cb); qabs_cases (e - dB);
    qabs_cases dB; qabs_cases e; qabs_cases (t - 1);
    apply Qabs_Qle_condition; split; lra.
Qed.

Lemma baud_err_accuracy PCLK baudrate dl mv dav :
  (0 < PCLK < 4294967296)%Z -> (0 < baudrate)%Z -> (16 * baudrate <= 2147483647)%Z ->
  (1 <= dl <= 65535)%Z -> (1 <= mv <= 15)%Z -> (1 <= dav <= mv - 1)%Z ->
  (PCLK < 32 * baudrate * (dl + 1))%Z ->
  nonneg (baud_err PCLK baudrate dl mv dav) /\
  Qabs (F2Q (baud_err PCLK baudrate dl mv dav) - exact_err PCLK baudrate dl mv dav)
  <= 1 # 262144.
Proof.
  intros HP Hb Hb16 Hdl Hmv Hdav Ht.
  assert (gA : good 0 (float_of_int dav) (inject_Z dav) 1 14).
  { apply foi_exact_good; [lia|apply (inj_le 1); lia|apply (inj_le _ 14); lia]. }
  assert (gM : good 0 (float_of_int mv) (inject_Z mv) 2 15).
  { apply foi_exact_good; [lia|apply (inj_le 2); lia|apply (inj_le _ 15); lia]. }
  assert (gD : good 0 (float_of_int dl) (inject_Z dl) 1 65535).
  { apply foi_exact_good; [lia|apply (inj_le 1); lia|apply (inj_le _ 65535); lia]. }
  assert (g1 : good ulp_half f_1_0 (inject_Z 1) 1 1).
  { apply (good_widen 0 ulp_half _ _ 1 1); try qle.
    apply foi_exact_good; [lia|qle|qle]. }
  assert (g16 : good 0 f_16_0 (inject_Z 16) 16 16).
  { apply foi_exact_good; [lia|qle|qle]. }
  assert (gP : good ulp_half (float_of_int PCLK) (inject_Z PCLK) 1 4294967295).
  { apply foi_close_good; [lia|apply (inj_le 1); lia|apply (inj_le _ 4294967295); lia]. }
  assert (gB : good ulp_half (float_of_int baudrate) (inject_Z baudrate) 1 134217727).
  { apply foi_close_good; [lia|apply (inj_le 1); lia|apply (inj_le _ 134217727); lia]. }
  assert (ga := good_div 0 0 0 ulp_half _ _ _ _ _ _ _ _ gA gM).
  specialize (ga ltac:(split; qle) ltac:(split; qle) ltac:(split; qle)
                 ltac:(split; qle) ltac:(split; qle) ltac:(qle) ltac:(qle)).
  assert (gr := good_add ulp_half (33 # 268435456) _ _ _ _ _ _ _ _ g1 ga).
  specialize (gr ltac:(split; qle) ltac:(split; qle) ltac:(split; qle) ltac:(qle)).
  assert (gp := good_mul 0 0 0 ulp_half _ _ _ _ _ _ _ _ g16 gD).
  specialize (gp ltac:(split; qle) ltac:(split; qle) ltac:(split; qle)
                 ltac:(split; qle) ltac:(split; qle) ltac:(qle) ltac:(qle)).
  assert (gq := good_mul ulp_half (33 # 268435456) (50 # 268435456) (67 # 268435456)
                  _ _ _ _ _ _ _ _ gp gr).
  specialize (gq ltac:(split; qle) ltac:(split; qle) ltac:(split; qle)
                 ltac:(split; qle) ltac:(split; qle) ltac:(qle) ltac:(qle)).
  assert (gc := good_div ulp_half (67 # 268435456) (84 # 268435456) (101 # 268435456)
                  _ _ _ _ _ _ _ _ gP gq).
  specialize (gc ltac:(split; qle) ltac:(split; qle) ltac:(split; qle)
                 ltac:(split; qle) ltac:(split; qle) ltac:(qle) ltac:(qle)).
  pose proof (good_exp _ _ _ _ _ gc ltac:(split; qle) ltac:(split; qle)) as Ec.
  pose proof (good_exp _ _ _ _ _ gB ltac:(split; qle) ltac:(split; qle)) as EB.
  unfold baud_err. cbv zeta.
  set (fc := fdiv (float_of_int PCLK)
               (fmul (fmul f_16_0 (float_of_int dl))
                     (fadd f_1_0 (fdiv (float_of_int dav) (float_of_int mv))))) in *.
  set (fB := float_of_int baudrate) in *.
  destruct gc as (Nc & Wc & Lc & Uc). destruct gB as (NB & WB & LB & UB).
  destruct (fsub_ok fB fc NB Nc ltac:(lia) ltac:(lia)) as (Rd & Cd & Ed).
  set (fd := fsub fB fc) in *.
  assert (Hq : regular (fdiv fd fB) /\ close (F2Q (fdiv fd fB)) (F2Q fd / F2Q fB)).
  { destruct (normal_finite fB NB) as (sB & mB & eB & EqB).
    destruct fd as [s|s| |s m e] eqn:Efd; cbn [regular] in Rd; try (exfalso; exact Rd).
    - rewrite EqB. cbn. split; [exact I|]. apply close_zero.
      unfold Qdiv. ring.
    - specialize (Ed Rd).
      destruct (fdiv_ok (S754_finite s m e) fB Rd NB ltac:(lia) ltac:(lia)) as [Nq Cq].
      split; [|exact Cq].
      destruct (normal_finite _ Nq) as (s' & m' & e' & Eq'). rewrite Eq' in *. exact Nq. }
  destruct Hq as [Rq Cq].
  split; [apply fabs_nonneg; exact Rq|].
  rewrite F2Q_fabs. unfold exact_err.
  apply (err_bound (F2Q fB) (F2Q fc) (F2Q fd)); try assumption.
  - apply (inj_lt 0). lia.
  - eapply Qlt_le_trans; [|exact Lc]. vm_compute. reflexivity.
  - (* the candidate baud rate is below four times the requested one *)
    pose proof (inj_lt _ _ Ht) as HtQ.
    rewrite !inject_Z_mult, inject_Z_plus in HtQ.
    change (inject_Z 32) with 32 in HtQ. change (inject_Z 1) with 1 in HtQ.
    destruct gq as (_ & _ & Lq & _). destruct gr as (_ & _ & Lr & _).
    destruct gD as (_ & _ & LD & _).
    set (qd := inject_Z dl) in *. set (qb := inject_Z baudrate) in *.
    set (qP := inject_Z PCLK) in *.
    set (R := inject_Z 1 + inject_Z dav / inject_Z mv) in *.
    assert (HR : 1 <= R) by (revert Lr; vm_compute (1 + 1 / 15); lra).
    assert (Hqb : 0 < qb) by (apply (inj_lt 0); lia).
    change (inject_Z 16) with 16 in *.
    change (1 + inject_Z dav / inject_Z mv) with R.
    clearbody R qd qb qP. clear - LD HR HtQ Hqb.
    assert (Hden : 16 * qd <= 16 * qd * R) by nra.
    apply Qlt_shift_div_r; [nra|].
    apply Qlt_le_trans with (64 * qb * qd); [nra|].
    setoid_replace (64 * qb * qd) with (4 * qb * (16 * qd)) by ring.
    apply Qmult_le_l; [lra|exact Hden].
Qed.

End Chain.

(** *** The early-out flag *)

Lemma is_not_Lt_iff (o : comparison) :
  match o with Lt => true | _ => false end = false <-> o <> Lt.
Proof. destruct o; split; congruence. Qed.

(** Below [b], and [c] a number that is not below [b]: below [c]. *)
Lemma flt_below a b c :
  flt a b = true -> flt c b = false -> c <> S754_nan -> flt a c = true.
Proof.
  unfold flt, SFltb.
  destruct a as [[|]|[|]| |[|] ma ea], b as [[|]|[|]| |[|] mb eb],
    c as [[|]|[|]| |[|] mc ec];
    try solve [cbn; intros; (discriminate || reflexivity || congruence)].
  - rewrite !SFcompare_finite_neg, !is_Lt_iff, is_not_Lt_iff, !lex_compare_Gt.
    unfold lex_lt. intros H1 H2 _. lia.
  - rewrite !SFcompare_finite_pos, !is_Lt_iff, is_not_Lt_iff, !lex_compare_Lt.
    unfold lex_lt. intros H1 H2 _. lia.
Qed.

Lemma flt_not_nan a b : flt a b = true -> a <> S754_nan.
Proof. intros H E. rewrite E in H. discriminate H. Qed.

Lemma step_hit_inv PCLK baudrate st c :
  hit_inv st -> hit_inv (search_step PCLK baudrate st c).
Proof.
  intros [Hh Hn]. destruct c as [[dlv mv] dav]. unfold search_step.
  destruct (flt (baud_err PCLK baudrate dlv mv dav) (s_err_best st)) eqn:E;
    [|split; assumption].
  split; cbn [s_hit s_err_best].
  - destruct (flt (baud_err PCLK baudrate dlv mv dav) f_0_001) eqn:E1; [reflexivity|].
    rewrite Hh. destruct (flt (s_err_best st) f_0_001) eqn:E2; [|reflexivity].
    rewrite (flt_trans _ _ _ E E2) in E1. discriminate.
  - eapply flt_not_nan; eassumption.
Qed.

Lemma step_hit_mono PCLK baudrate st c :
  s_hit st = true -> s_hit (search_step PCLK baudrate st c) = true.
Proof.
  intros H. destruct c as [[dlv mv] dav]. unfold search_step.
  destruct (flt (baud_err PCLK baudrate dlv mv dav) (s_err_best st)); [|exact H].
  cbn [s_hit]. rewrite H. now destruct (flt _ f_0_001).
Qed.

Lemma fold_hit_mono PCLK baudrate l : forall st,
  s_hit st = true -> s_hit (fold_left (search_step PCLK baudrate) l st) = true.
Proof.
  induction l as [|c l IH]; intros st H; cbn [fold_left]; [exact H|].
  apply IH, step_hit_mono, H.
Qed.

(** While the flag is down, no candidate seen had an error below 0.001f. *)
Lemma fold_no_hit PCLK baudrate l : forall st,
  hit_inv st -> s_hit (fold_left (search_step PCLK baudrate) l st) = false ->
  forall c, In c l -> flt (err_of PCLK baudrate c) f_0_001 = false.
Proof.
  induction l as [|c0 l IH]; intros st Hinv Hend c Hin; [contradiction|].
  cbn [fold_left] in Hend. destruct Hin as [->|Hin].
  - destruct (flt (err_of PCLK baudrate c) f_0_001) eqn:E; [|reflexivity].
    exfalso.
    assert (Hup : s_hit (search_step PCLK baudrate st c) = true).
    { destruct Hinv as [Hh Hn]. destruct c as [[dlv mv] dav].
      unfold search_step. unfold err_of in E.
      destruct (s_hit st) eqn:Hs.
      - destruct (flt (baud_err PCLK baudrate dlv mv dav) (s_err_best st));
          cbn [s_hit]; [rewrite E; reflexivity|exact Hs].
      - rewrite (flt_below _ _ _ E (eq_sym Hh) Hn). cbn [s_hit].
        rewrite E. reflexivity. }
    rewrite (fold_hit_mono _ _ _ _ Hup) in Hend. discriminate.
  - eapply IH; [apply step_hit_inv, Hinv|exact Hend|exact Hin].
Qed.

(** The outer loop went on to its last dl only with the flag down. *)
Lemma dlv_loop_prefix PCLK baudrate dlmax fuel : forall dlv st st' dl_end,
  dlmax < 65535 -> 0 <= dlv <= dlmax + 1 ->
  dlv_loop fuel PCLK baudrate dlmax dlv st = Some (st', dl_end) ->
  dlv < dl_end ->
  s_hit (fold_left (search_step PCLK baudrate) (scan_order dlv (dl_end - 1)) st)
  = false.
Proof.
  induction fuel as [|fuel IH]; intros dlv st st' dl_end Hmax Hdlv H Hlt;
    cbn [dlv_loop] in H;
    destruct ((dlv <=? dlmax) && negb (s_hit st)) eqn:Econd;
    try discriminate; try (injection H as <- <-; lia).
  apply andb_prop in Econd. destruct Econd as [Hle Hh].
  apply Z.leb_le in Hle.
  assert (Hw : u16 (dlv + 1) = dlv + 1)
    by (unfold u16; apply Z.mod_small; lia).
  rewrite Hw in H.
  destruct (Z.eq_dec dl_end (dlv + 1)) as [->|Hne].
  - replace (dlv + 1 - 1) with dlv by lia. rewrite scan_order_empty.
    cbn [fold_left]. now destruct (s_hit st).
  - pose proof (dlv_loop_spec _ _ _ _ (dlv + 1) _ _ _ Hmax ltac:(lia) H) as (Hend & _).
    rewrite scan_order_step by lia. rewrite fold_left_app, <- mv_loop_flat.
    apply (IH (dlv + 1) _ st' dl_end); [exact Hmax|lia|exact H|lia].
Qed.

(** *** The rounded error against the exact one *)

Section SearchAccuracy.
Local Open Scope Q_scope.

Lemma f_0_001_nonneg : nonneg f_0_001.
Proof. unfold f_0_001, nonneg, normal. split; [reflexivity|lia]. Qed.

(** 0.001f is 1/1000 rounded up, by less than 2^-18. *)
Lemma f_0_001_value :
  1 # 1000 <= F2Q f_0_001 /\ F2Q f_0_001 <= (1 # 1000) + (1 # 262144).
Proof. split; qle. Qed.

Lemma flt_false_le x y : nonneg x -> nonneg y -> flt x y = false -> F2Q y <= F2Q x.
Proof.
  intros Hx Hy H. destruct (Qlt_le_dec (F2Q x) (F2Q y)) as [L|L]; [|exact L].
  apply (flt_spec x y Hx Hy) in L. congruence.
Qed.

Lemma flt_true_lt x y : nonneg x -> nonneg y -> flt x y = true -> F2Q x < F2Q y.
Proof. intros Hx Hy H. apply (flt_spec x y Hx Hy). exact H. Qed.

(** The initial bound (float) baudrate is about 1 or more. *)
Lemma float_baud_value b :
  (0 < b < 4294967296)%Z ->
  nonneg (float_of_int b) /\ 16777215 # 16777216 <= F2Q (float_of_int b).
Proof.
  intros Hb. destruct (float_of_int_close b Hb) as (m & e & Hf & Hn & Hc).
  split; [rewrite Hf; exact Hn|].
  apply close_within in Hc; [|apply (inj_lt 0); lia]. destruct Hc as [L _].
  pose proof (inj_le 1 b ltac:(lia)) as H1. change (inject_Z 1) with 1 in H1.
  unfold ulp_half in L. lra.
Qed.

Lemma float_baud_not_below b :
  (0 < b < 4294967296)%Z ->
  flt (float_of_int b) f_0_001 = false /\ float_of_int b <> S754_nan.
Proof.
  intros Hb. destruct (float_baud_value b Hb) as [Hn Hv]. split.
  - destruct (flt (float_of_int b) f_0_001) eqn:E; [|reflexivity].
    apply (flt_true_lt _ _ Hn f_0_001_nonneg) in E.
    pose proof f_0_001_value as [_ U]. lra.
  - intros E. rewrite E in Hn. exact Hn.
Qed.

(** Every tuple of the search space with a divisor of 1 or more has a
    rounded error within 2^-18 of the exact one. *)
Lemma cand_accuracy PCLK baudrate dl mv dav :
  admitted PCLK baudrate -> (1 <= dl)%Z ->
  in_search_space (PCLK / (16 * baudrate)) (dl, mv, dav) ->
  nonneg (baud_err PCLK baudrate dl mv dav) /\
  Qabs (F2Q (baud_err PCLK baudrate dl mv dav) - exact_err PCLK baudrate dl mv dav)
  <= 1 # 262144.
Proof.
  intros (Hb & Hmax & HP & Hmod & Hfit) Hdl (Hd & Hmv & Hdav).
  assert (HP0 : PCLK <> 0%Z).
  { intros E. rewrite E in Hmod. apply Hmod. apply Z.mod_0_l. lia. }
  pose proof (Z.div_mod PCLK (16 * baudrate) ltac:(lia)) as E1.
  pose proof (Z.mod_pos_bound PCLK (16 * baudrate) ltac:(lia)) as B1.
  set (DL0 := (PCLK / (16 * baudrate))%Z) in *.
  pose proof (Z.div_mod DL0 2 ltac:(lia)) as E2.
  pose proof (Z.mod_pos_bound DL0 2 ltac:(lia)) as B2.
  apply baud_err_accuracy; try lia.
  nia.
Qed.

(** The last tuple of the space, (DL0, 15, 1), is within 7/8 of the rate:
    it improves on the initial bound. *)
Lemma last_candidate_improves PCLK baudrate :
  admitted PCLK baudrate -> (1 <= PCLK / (16 * baudrate))%Z ->
  flt (baud_err PCLK baudrate (PCLK / (16 * baudrate)) 15 1)
      (float_of_int baudrate) = true.
Proof.
  intros Hadm HDL.
  destruct (cand_accuracy PCLK baudrate (PCLK / (16 * baudrate)) 15 1 Hadm HDL)
    as [Hn Hacc].
  { unfold in_search_space. split; [|lia].
    split; [|lia]. apply Z.div_le_upper_bound; lia. }
  destruct Hadm as (Hb & Hmax & HP & Hmod & Hfit).
  destruct (float_baud_value baudrate ltac:(lia)) as [HnB HvB].
  apply (flt_spec _ _ Hn HnB).
  apply Qabs_Qle_condition in Hacc.
  assert (HE : exact_err PCLK baudrate (PCLK / (16 * baudrate)) 15 1 < 7 # 8).
  { unfold exact_err.
    pose proof (Z.div_mod PCLK (16 * baudrate) ltac:(lia)) as E1.
    pose proof (Z.mod_pos_bound PCLK (16 * baudrate) ltac:(lia)) as B1.
    set (DL0 := (PCLK / (16 * baudrate))%Z) in *.
    assert (Z1 : (16 * baudrate * DL0 <= PCLK)%Z) by nia.
    assert (Z2 : (PCLK < 32 * baudrate * DL0)%Z) by nia.
    apply inj_le in Z1. apply inj_lt in Z2.
    rewrite !inject_Z_mult in Z1, Z2.
    change (inject_Z 16) with 16 in *. change (inject_Z 32) with 32 in Z2.
    assert (HD : 1 <= inject_Z DL0) by (apply (inj_le 1); lia).
    assert (HB : 1 <= inject_Z baudrate) by (apply (inj_le 1); lia).
    set (qD := inject_Z DL0) in *. set (qb := inject_Z baudrate) in *.
    set (qP := inject_Z PCLK) in *.
    setoid_replace (1 + inject_Z 1 / inject_Z 15) with (16 # 15) by reflexivity.
    clearbody qD qb qP. clear - Z1 Z2 HD HB.
    assert (Hden : 0 < 16 * qD * (16 # 15)) by lra.
    set (W := qb * qD) in *.
    assert (EW : qb * (16 * qD * (16 # 15)) == (256 # 15) * W) by (unfold W; ring).
    assert (Z1' : 16 * W <= qP) by (unfold W; lra).
    assert (Z2' : qP < 32 * W) by (unfold W; lra).
    assert (HW : 1 <= W) by (unfold W; nra).
    assert (HC1 : (1 # 8) * qb < qP / (16 * qD * (16 # 15))).
    { apply Qlt_shift_div_l; [exact Hden|].
      setoid_replace ((1 # 8) * qb * (16 * qD * (16 # 15)))
        with ((1 # 8) * (qb * (16 * qD * (16 # 15)))) by ring.
      rewrite EW. lra. }
    assert (HC2 : qP / (16 * qD * (16 # 15)) < (15 # 8) * qb).
    { apply Qlt_shift_div_r; [exact Hden|].
      setoid_replace ((15 # 8) * qb * (16 * qD * (16 # 15)))
        with ((15 # 8) * (qb * (16 * qD * (16 # 15)))) by ring.
      rewrite EW. lra. }
    set (C := qP / (16 * qD * (16 # 15))) in *. clearbody C.
    apply Qlt_shift_div_r; [lra|].
    apply Qabs_Qlt_condition. split; lra. }
  lra.
Qed.

End SearchAccuracy.

(** C4 (as amended). For an admitted (PCLK, baud) on the non-exact path the
    search ends and emits (DL, dav, mv) with 1 <= mv <= 15 and 0 <= dav < mv.
    The loop over dl runs from DL0/2 (DL0 = PCLK / (16 baud)) and stops
    after the first dl at which a tuple's error, as rounded to single
    precision, fell below 0.001f, or past DL0: no tuple at a dl before the
    last one scanned has a rounded error below 0.001f, and after an early
    stop the emitted tuple is at the last dl scanned.  Over the tuples
    scanned -- not over the whole space -- no tuple has a rounded error
    below the final best error, and every tuple scanned before the emitted
    one has a rounded error that is not below or equal to it (first strict
    improvement wins ties).  The rounded error of a tuple with dl >= 1 is
    within 2^-18 of the exact |PCLK / (16 dl (1 + dav/mv)) - baud| / baud.
    So, for DL0 >= 1: the emitted tuple is a scanned one with DL >= 1 and
    dav >= 1; its exact error exceeds that of no scanned tuple with dl >= 1
    by more than 2^-17; after an early stop it is below 0.001 + 2^-17; and
    every tuple at a dl >= 1 before the last dl scanned has an exact error
    of at least 0.001 - 2^-18. *)
Theorem baud_search_result :
  forall PCLK baudrate,
    admitted PCLK baudrate ->
    let DL0 := PCLK / (16 * baudrate) in
    exists DL dav mv best dl_end,
      baud_divisors search_fuel PCLK baudrate = Divisors DL dav mv /\
      1 <= mv <= 15 /\ 0 <= dav < mv /\
      DL0 / 2 < dl_end <= DL0 + 1 /\
      (dl_end <= DL0 -> flt best f_0_001 = true) /\
      (forall dl mv' dav',
          DL0 / 2 <= dl < dl_end -> 1 <= mv' <= 15 -> 1 <= dav' <= mv' - 1 ->
          flt (baud_err PCLK baudrate dl mv' dav') best = false) /\
      (flt best f_0_001 = true
       \/ forall dl mv' dav',
            in_search_space DL0 (dl, mv', dav') ->
            flt (baud_err PCLK baudrate dl mv' dav') best = false) /\
      ((DL = DL0 /\ dav = 0 /\ mv = 1 /\ best = float_of_int baudrate)
       \/ (DL0 / 2 <= DL < dl_end /\ 1 <= dav /\
           best = baud_err PCLK baudrate DL mv dav /\
           exists l1 l2,
             scan_order (DL0 / 2) dl_end = l1 ++ (DL, mv, dav) :: l2 /\
             forall c, In c l1 -> fle (err_of PCLK baudrate c) best = false)) /\
      (forall dl mv' dav',
          DL0 / 2 <= dl < dl_end - 1 -> 1 <= mv' <= 15 -> 1 <= dav' <= mv' - 1 ->
          flt (baud_err PCLK baudrate dl mv' dav') f_0_001 = false) /\
      (dl_end <= DL0 -> DL = dl_end - 1) /\
      (forall dl mv' dav',
          1 <= dl -> in_search_space DL0 (dl, mv', dav') ->
          (Qabs (F2Q (baud_err PCLK baudrate dl mv' dav')
                 - exact_err PCLK baudrate dl mv' dav') <= 1 # 262144)%Q) /\
      (1 <= DL0 ->
       1 <= DL /\ 1 <= dav /\ best = baud_err PCLK baudrate DL mv dav /\
       (dl_end <= DL0 ->
        (exact_err PCLK baudrate DL mv dav < (1 # 1000) + (1 # 131072))%Q) /\
       (forall dl mv' dav',
           1 <= dl -> DL0 / 2 <= dl < dl_end ->
           1 <= mv' <= 15 -> 1 <= dav' <= mv' - 1 ->
           (exact_err PCLK baudrate DL mv dav
            <= exact_err PCLK baudrate dl mv' dav' + (1 # 131072))%Q) /\
       (forall dl mv' dav',
           1 <= dl -> DL0 / 2 <= dl < dl_end - 1 ->
           1 <= mv' <= 15 -> 1 <= dav' <= mv' - 1 ->
           ((1 # 1000) - (1 # 262144) <= exact_err PCLK baudrate dl mv' dav')%Q)).
Proof.
  intros PCLK baudrate Hadm DL0.
  pose proof Hadm as (Hb & Hmax & HP & Hmod & Hfit).
  assert (HDL0 : 0 <= DL0) by (apply Z.div_pos; lia).
  assert (Hhalf : 0 <= DL0 / 2 <= DL0) by (split; [apply Z.div_pos; lia|]; apply Z.div_le_upper_bound; lia).
  unfold baud_divisors.
  assert (Hr : int_range (16 * baudrate) = true) by (unfold int_range; lia).
  assert (Hu : u32 (16 * baudrate) = 16 * baudrate)
    by (unfold u32; apply Z.mod_small; lia).
  assert (Hnz : (16 * baudrate =? 0) = false) by lia.
  assert (Hne : (PCLK mod (16 * baudrate) =? 0) = false) by lia.
  assert (H16 : u16 DL0 = DL0) by (unfold u16; apply Z.mod_small; lia).
  rewrite Hr, Hu, Hnz, Hne. cbn [negb]. fold DL0. rewrite H16.
  set (st0 := mkSearch DL0 0 1 (float_of_int baudrate) false).
  destruct (float_baud_not_below baudrate ltac:(lia)) as [Hb0 Hbn].
  destruct (float_baud_value baudrate ltac:(lia)) as [HnB _].
  assert (Hinv0 : hit_inv st0) by (split; [symmetry; exact Hb0|exact Hbn]).
  destruct (dlv_loop_total PCLK baudrate DL0 search_fuel (DL0 / 2) st0)
    as [[st' dl_end] Hrun]; [lia|lia|rewrite search_fuel_value; lia|].
  rewrite Hrun.
  pose proof (dlv_loop_prefix PCLK baudrate DL0 search_fuel (DL0 / 2) st0 st' dl_end
                Hfit ltac:(lia) Hrun) as Hprefix.
  apply dlv_loop_spec in Hrun; [|lia|lia].
  destruct Hrun as (Hend & Hfold & Hhit & Hprogress).
  exists (s_DL st'), (s_DivAddVal st'), (s_MulVal st'), (s_err_best st'), dl_end.
  split; [reflexivity|].
  specialize (Hprogress eq_refl (proj2 Hhalf)).
  specialize (Hprefix Hprogress).
  assert (Hpick := fold_pick PCLK baudrate (scan_order (DL0 / 2) dl_end) st0).
  rewrite <- Hfold in Hpick.
  assert (Hcases :
    (st' = st0 /\ s_DL st' = DL0 /\ s_DivAddVal st' = 0 /\ s_MulVal st' = 1 /\
     s_err_best st' = float_of_int baudrate)
    \/ (DL0 / 2 <= s_DL st' < dl_end /\ 1 <= s_MulVal st' <= 15 /\
        1 <= s_DivAddVal st' <= s_MulVal st' - 1 /\
        s_err_best st' = baud_err PCLK baudrate (s_DL st') (s_MulVal st') (s_DivAddVal st') /\
        flt (s_err_best st') (float_of_int baudrate) = true /\
        exists l1 l2,
          scan_order (DL0 / 2) dl_end
          = l1 ++ (s_DL st', s_MulVal st', s_DivAddVal st') :: l2 /\
          forall c, In c l1 -> fle (err_of PCLK baudrate c) (s_err_best st') = false)).
  { destruct Hpick as [->|(l1 & c & l2 & Hl & Hp & Hbest & Hlt & Hfirst)].
    - left. cbn. auto.
    - right. unfold picked in Hp. subst c.
      assert (Hin : In (s_DL st', s_MulVal st', s_DivAddVal st')
                       (scan_order (DL0 / 2) dl_end))
        by (rewrite Hl; apply in_elt).
      apply In_scan_order in Hin. destruct Hin as (H1 & H2 & H3).
      repeat (split; [lia|]). split; [exact Hbest|].
      split; [rewrite Hbest; exact Hlt|].
      exists l1, l2. split; [exact Hl|]. rewrite Hbest. exact Hfirst. }
  split; [destruct Hcases as [(_ & _ & _ & -> & _)|(_ & H & _)]; lia|].
  split; [destruct Hcases as [(_ & _ & -> & -> & _)|(_ & H1 & H2 & _)]; lia|].
  split; [lia|].
  assert (Hmin : forall dl mv' dav',
             DL0 / 2 <= dl < dl_end -> 1 <= mv' <= 15 -> 1 <= dav' <= mv' - 1 ->
             flt (baud_err PCLK baudrate dl mv' dav') (s_err_best st') = false).
  { intros dl mv' dav' Hdl Hmv Hdav. rewrite Hfold.
    apply (fold_min PCLK baudrate _ st0 (dl, mv', dav')).
    apply In_scan_order. lia. }
  assert (Hearly : dl_end <= DL0 -> flt (s_err_best st') f_0_001 = true).
  { intros Hearly. rewrite Hfold. apply fold_hit; [discriminate|].
    rewrite <- Hfold. apply Hhit, Hearly. }
  assert (Hlate : forall dl mv' dav',
             DL0 / 2 <= dl < dl_end - 1 -> 1 <= mv' <= 15 -> 1 <= dav' <= mv' - 1 ->
             flt (baud_err PCLK baudrate dl mv' dav') f_0_001 = false).
  { intros dl mv' dav' Hdl Hmv Hdav.
    apply (fold_no_hit PCLK baudrate _ st0 Hinv0 Hprefix (dl, mv', dav')).
    apply In_scan_order. lia. }
  assert (Hacc : forall dl mv' dav',
             1 <= dl -> in_search_space DL0 (dl, mv', dav') ->
             nonneg (baud_err PCLK baudrate dl mv' dav') /\
             (Qabs (F2Q (baud_err PCLK baudrate dl mv' dav')
                    - exact_err PCLK baudrate dl mv' dav') <= 1 # 262144)%Q).
  { intros dl mv' dav' Hdl Hin. apply cand_accuracy; assumption. }
  split; [exact Hearly|]. split; [exact Hmin|].
  split.
  { destruct (Z_le_gt_dec dl_end DL0) as [Hle|Hgt]; [left; apply Hearly, Hle|].
    right. intros dl mv' dav' (Hdl & Hmv & Hdav). apply Hmin; lia. }
  split.
  { destruct Hcases as [(_ & H1 & H2 & H3 & H4)|(H1 & H2 & H3 & H4 & _ & H5)];
      [left; auto|right].
    split; [exact H1|]. split; [lia|]. split; [exact H4|exact H5]. }
  split; [exact Hlate|].
  split.
  { intros Hle. specialize (Hearly Hle).
    destruct Hcases as [(_ & _ & _ & _ & H4)|(H1 & H2 & H3 & H4 & _)].
    - rewrite H4 in Hearly. congruence.
    - destruct (Z_lt_ge_dec (s_DL st') (dl_end - 1)) as [Hl|Hg]; [|lia].
      rewrite H4, (Hlate (s_DL st') (s_MulVal st') (s_DivAddVal st')
                         ltac:(lia) H2 H3) in Hearly.
      discriminate. }
  split; [intros dl mv' dav' Hdl Hin; apply (Hacc dl mv' dav' Hdl Hin)|].
  intros H1DL.
  destruct Hcases as [(Hst & _ & _ & _ & H4)|(H1 & H2 & H3 & H4 & Hlt & _)].
  { exfalso.
    destruct (Z_le_gt_dec dl_end DL0) as [Hle|Hgt].
    - specialize (Hearly Hle). rewrite H4 in Hearly. congruence.
    - pose proof (Hmin DL0 15 1 ltac:(lia) ltac:(lia) ltac:(lia)) as Hm.
      rewrite H4 in Hm.
      pose proof (last_candidate_improves PCLK baudrate Hadm H1DL) as Hi.
      fold DL0 in Hi. rewrite Hi in Hm. discriminate. }
  assert (HDL1 : 1 <= s_DL st').
  { destruct (Z_lt_ge_dec (s_DL st') 1) as [Hl|Hg]; [exfalso|lia].
    assert (E0 : s_DL st' = 0) by lia.
    assert (Hin : In (s_DL st', s_MulVal st', s_DivAddVal st') (candidates 0)).
    { rewrite E0. apply In_candidates. eauto. }
    pose proof (baud_err_dl_zero PCLK baudrate _ (float_of_int baudrate) Hin) as Hz.
    unfold err_of in Hz. rewrite <- H4, Hlt in Hz. discriminate. }
  assert (Hsp : in_search_space DL0 (s_DL st', s_MulVal st', s_DivAddVal st'))
    by (unfold in_search_space; lia).
  destruct (Hacc _ _ _ HDL1 Hsp) as [HnE HaE]. rewrite <- H4 in HnE, HaE.
  apply Qabs_Qle_condition in HaE.
  split; [exact HDL1|]. split; [lia|]. split; [exact H4|].
  split; [|split].
  - intros Hle. specialize (Hearly Hle).
    apply (flt_true_lt _ _ HnE f_0_001_nonneg) in Hearly.
    pose proof f_0_001_value as [_ U]. lra.
  - intros dl mv' dav' Hdl Hd Hmv Hdav.
    destruct (Hacc dl mv' dav' Hdl ltac:(unfold in_search_space; lia)) as [Hn Ha].
    apply Qabs_Qle_condition in Ha.
    pose proof (flt_false_le _ _ Hn HnE (Hmin dl mv' dav' Hd Hmv Hdav)) as Hle.
    lra.
  - intros dl mv' dav' Hdl Hd Hmv Hdav.
    destruct (Hacc dl mv' dav' Hdl ltac:(unfold in_search_space; lia)) as [Hn Ha].
    apply Qabs_Qle_condition in Ha.
    pose proof (flt_false_le _ _ Hn f_0_001_nonneg (Hlate dl mv' dav' Hd Hmv Hdav)) as Hle.
    pose proof f_0_001_value as [L _]. lra.
Qed.

Lemma baud_search_result_witness :
  exists DL dav mv,
    baud_divisors search_fuel 96000000 115200 = Divisors DL dav mv /\
    1 <= mv <= 15 /\ 0 <= dav < mv /\ 1 <= DL /\ 1 <= dav /\
    (exact_err 96000000 115200 DL mv dav
     <= exact_err 96000000 115200 26 15 1 + (1 # 131072))%Q.
Proof.
  assert (Hadm : admitted 96000000 115200).
  { unfold admitted. split; [lia|]. split; [lia|]. split; [lia|].
    split; [vm_compute; discriminate|vm_compute; reflexivity]. }
  destruct (baud_search_result 96000000 115200 Hadm)
    as (DL & dav & mv & best & dl_end & Hrun & Hmv & Hdav & Hend & _ & _ & _ & _
        & _ & _ & _ & Hex).
  change (96000000 / (16 * 115200)) with 52 in Hend, Hex.
  change (52 / 2) with 26 in Hend, Hex.
  destruct (Hex ltac:(lia)) as (HDL & Hdav1 & _ & _ & Hmin & _).
  exists DL, dav, mv.
  repeat (split; [assumption|]).
  apply Hmin; lia.
Defined.

(** C4 as stated fails, for two reasons.  The early stop: at PCLK = 96 MHz
    and baud 38400 the scan stops at dl = 81 with (81, 13, 14), error about
    0.00023, while (125, 1, 4) -- in the search space, DL0 = 156 -- gives
    38400 exactly.  The rounding: at PCLK = 9687759 and baud 19200 the whole
    space is scanned (the best rounded error is not below 0.001f) and
    (17, 6, 7) is emitted, while (18, 3, 4), scanned as well, has a smaller
    exact error; and at PCLK = 40530355 and baud 133457 the scan stops early
    with (10, 9, 10), whose rounded error is below 0.001f and whose exact
    error is above 1/1000.  And a rate above PCLK / 16 (DL0 = 0) leaves only
    the divisor 0 to scan: at PCLK = 1 MHz and baud 115200 the initial
    (0, 0, 1) is emitted. *)
Lemma baud_search_not_optimal :
  admitted 96000000 38400 /\
  baud_divisors search_fuel 96000000 38400 = Divisors 81 13 14 /\
  in_search_space (96000000 / (16 * 38400)) (125, 4, 1) /\
  flt (baud_err 96000000 38400 125 4 1) (baud_err 96000000 38400 81 14 13) = true /\
  ~ search_optimal 96000000 38400 /\
  admitted 9687759 19200 /\
  baud_divisors search_fuel 9687759 19200 = Divisors 17 6 7 /\
  flt (baud_err 9687759 19200 17 7 6) f_0_001 = false /\
  in_search_space (9687759 / (16 * 19200)) (18, 4, 3) /\
  (exact_err 9687759 19200 18 4 3 < exact_err 9687759 19200 17 7 6)%Q /\
  ~ search_optimal 9687759 19200 /\
  admitted 40530355 133457 /\
  baud_divisors search_fuel 40530355 133457 = Divisors 10 9 10 /\
  flt (baud_err 40530355 133457 10 10 9) f_0_001 = true /\
  (1 # 1000 < exact_err 40530355 133457 10 10 9)%Q /\
  admitted 1000000 115200 /\
  baud_divisors search_fuel 1000000 115200 = Divisors 0 0 1.
Proof.
  assert (Hrun : baud_divisors search_fuel 96000000 38400 = Divisors 81 13 14)
    by (vm_compute; reflexivity).
  assert (Hin : in_search_space (96000000 / (16 * 38400)) (125, 4, 1))
    by (vm_compute; repeat split; discriminate).
  assert (Hrun2 : baud_divisors search_fuel 9687759 19200 = Divisors 17 6 7)
    by (vm_compute; reflexivity).
  assert (Hin2 : in_search_space (9687759 / (16 * 19200)) (18, 4, 3))
    by (vm_compute; repeat split; discriminate).
  assert (Hlt2 : (exact_err 9687759 19200 18 4 3 < exact_err 9687759 19200 17 7 6)%Q)
    by (vm_compute; reflexivity).
  split.
  { unfold admitted. split; [lia|]. split; [lia|]. split; [lia|].
    split; [vm_compute; discriminate|vm_compute; reflexivity]. }
  split; [exact Hrun|]. split; [exact Hin|].
  split; [vm_compute; reflexivity|].
  split.
  { intros H. specialize (H 81 13 14 Hrun 125 4 1 Hin).
    vm_compute in H. apply H. reflexivity. }
  split.
  { unfold admitted. split; [lia|]. split; [lia|]. split; [lia|].
    split; [vm_compute; discriminate|vm_compute; reflexivity]. }
  split; [exact Hrun2|]. split; [vm_compute; reflexivity|].
  split; [exact Hin2|]. split; [exact Hlt2|].
  split.
  { intros H. specialize (H 17 6 7 Hrun2 18 4 3 Hin2).
    apply Qle_not_lt in H. apply H. exact Hlt2. }
  split.
  { unfold admitted. split; [lia|]. split; [lia|]. split; [lia|].
    split; [vm_compute; discriminate|vm_compute; reflexivity]. }
  split; [vm_compute; reflexivity|].
  split; [vm_compute; reflexivity|].
  split; [vm_compute; reflexivity|].
  split; [|vm_compute; reflexivity].
  unfold admitted. split; [lia|]. split; [lia|]. split; [lia|].
  split; [vm_compute; discriminate|vm_compute; reflexivity].
Qed.

(** ** serial_init returns *)

Lemma returns_bind {A B} (P : A -> Prop) (Q : B -> Prop) (c : M A) (k : A -> M B) :
  returns_with P c -> (forall a, P a -> returns_with Q (k a)) ->
  returns_with Q (bind c k).
Proof.
  intros Hc Hk m. destruct (Hc m) as (a & m1 & Hrun & Ha).
  destruct (Hk a Ha m1) as (b & m2 & Hrun2 & Hb).
  exists b, m2. split; [|exact Hb]. now rewrite (bind_of_Ret _ _ _ _ _ Hrun).
Qed.

Lemma returns_lift f : returns_with (fun _ => True) (lift f).
Proof. intros m. exists tt, (f m). auto. Qed.

Lemma returns_ret {A} (a : A) : returns_with (eq a) (ret a).
Proof. intros m. exists a, m. auto. Qed.

Lemma returns_gets {A} (f : machine -> A) : returns_with (fun _ => True) (gets f).
Proof. intros m. exists (f m), m. auto. Qed.

Lemma returns_weaken {A} (P Q : A -> Prop) (c : M A) :
  (forall a, P a -> Q a) -> returns_with P c -> returns_with Q c.
Proof.
  intros H Hc m. destruct (Hc m) as (a & m' & Hrun & Ha). eauto.
Qed.

(** At 9600 baud the search ends for every 32-bit clock: the divisor is at
    most 2^32 / 153600 < 65535. *)
Lemma baud_divisors_9600 PCLK :
  0 <= PCLK < 4294967296 ->
  exists DL dav mv, baud_divisors search_fuel PCLK 9600 = Divisors DL dav mv.
Proof.
  intros HP. unfold baud_divisors.
  change (negb (int_range (16 * 9600))) with false.
  change (u32 (16 * 9600)) with 153600. change (153600 =? 0) with false.
  cbv iota.
  destruct (negb (PCLK mod 153600 =? 0)); [|eauto].
  assert (Hq : 0 <= PCLK / 153600 < 27963).
  { split; [apply Z.div_pos; lia|apply Z.div_lt_upper_bound; lia]. }
  assert (H16 : u16 (PCLK / 153600) = PCLK / 153600)
    by (unfold u16; apply Z.mod_small; lia).
  rewrite H16.
  destruct (dlv_loop_total PCLK 9600 (PCLK / 153600) search_fuel
              (PCLK / 153600 / 2)
              (mkSearch (PCLK / 153600) 0 1 (float_of_int 9600) false))
    as [[st dl_end] Hrun].
  - lia.
  - apply Z.div_pos; lia.
  - rewrite search_fuel_value.
    assert (0 <= PCLK / 153600 / 2) by (apply Z.div_pos; lia). lia.
  - rewrite Hrun. eauto.
Qed.

Lemma u32_range x : 0 <= u32 x < 4294967296.
Proof. unfold u32. apply Z.mod_pos_bound. lia. Qed.

Lemma returns_serial_baud_9600 obj :
  uart obj = UART_0 \/ uart obj = UART_1 \/ uart obj = UART_2 \/ uart obj = UART_3 ->
  returns_with (fun _ => True) (serial_baud obj 9600).
Proof.
  intros Hu. unfold serial_baud.
  eapply returns_bind with (P := fun _ => True).
  - destruct Hu as [->|[->|[->| ->]]]; cbn; apply returns_lift.
  - intros _ _. intros m. cbv beta iota delta [bind gets].
    destruct (baud_divisors_9600 (u32 (SystemCoreClock m)) (u32_range _))
      as (DL & dav & mv & ->).
    cbv beta iota delta [bind lift]. eauto.
Qed.

Lemma returns_serial_format_8N1 obj :
  returns_with (fun _ => True) (serial_format obj 8 ParityNone 1).
Proof.
  intros m. rewrite (serial_format_legal obj 8 ParityNone 1 m eq_refl). eauto.
Qed.

Lemma returns_pinmap_peripheral p map u :
  p <> NC -> pinmap_find_peripheral p map = u -> u <> NC ->
  returns_with (eq u) (pinmap_peripheral p map).
Proof.
  intros Hp Hf Hu m. exists u, m. split; [|reflexivity].
  unfold pinmap_peripheral. apply Z.eqb_neq in Hp, Hu.
  now rewrite Hp, Hf, Hu.
Qed.

Lemma pinmap_function_found p map :
  pinmap_find_peripheral p map <> NC ->
  exists fn, pinmap_find_function p map = Some fn.
Proof.
  induction map as [|e rest IH]; cbn [pinmap_find_peripheral pinmap_find_function].
  - congruence.
  - destruct (pm_pin e =? p); [eauto|exact IH].
Qed.

Lemma returns_pinmap_pinout p map :
  pinmap_find_peripheral p map <> NC ->
  returns_with (fun _ => True) (pinmap_pinout p map).
Proof.
  intros Hf. unfold pinmap_pinout. destruct (p =? NC).
  - eapply returns_weaken; [|apply returns_ret]. auto.
  - destruct (pinmap_function_found p map Hf) as [fn ->]. apply returns_lift.
Qed.

Lemma returns_pin_mode p mode : returns_with (fun _ => True) (pin_mode p mode).
Proof.
  unfold pin_mode. destruct (p =? NC); [|apply returns_lift].
  eapply returns_weaken; [|apply returns_ret]. auto.
Qed.

Lemma uart_tx_table_peripherals p :
  let u := pinmap_find_peripheral p PinMap_UART_TX in
  u = NC \/ u = UART_0 \/ u = UART_1 \/ u = UART_2 \/ u = UART_3.
Proof.
  cbv zeta. unfold PinMap_UART_TX.
  cbn [pinmap_find_peripheral pm_pin pm_peripheral].
  repeat match goal with
         | |- context [if ?b then _ else _] => destruct b
         end; auto 6.
Qed.

(** Every pair of a TX and an RX pin that the tables map to one UART
    initialises: serial_init returns the handle of that UART, at any core
    clock. *)
Lemma serial_init_returns obj tx rx u :
  tx <> NC -> rx <> NC ->
  pinmap_find_peripheral tx PinMap_UART_TX = u ->
  pinmap_find_peripheral rx PinMap_UART_RX = u ->
  u <> NC ->
  returns_with (eq (mkSerial u (index_of_uart u (index obj))))
               (serial_init obj tx rx).
Proof.
  intros Htx Hrx Hftx Hfrx Hu.
  assert (Hfour : u = UART_0 \/ u = UART_1 \/ u = UART_2 \/ u = UART_3).
  { pose proof (uart_tx_table_peripherals tx) as H. cbv zeta in H.
    rewrite Hftx in H. destruct H as [H|H]; [contradiction|exact H]. }
  unfold serial_init.
  eapply returns_bind; [apply returns_pinmap_peripheral; eassumption|].
  intros ? <-.
  eapply returns_bind; [apply returns_pinmap_peripheral; eassumption|].
  intros ? <-.
  eapply returns_bind with (P := eq u).
  { intros m. exists u, m. unfold pinmap_merge. now rewrite Z.eqb_refl. }
  intros ? <-.
  apply Z.eqb_neq in Hu. rewrite Hu. cbn [when].
  eapply returns_bind; [apply returns_ret|]. intros _ _.
  eapply returns_bind; [apply returns_lift|]. intros _ _.
  eapply returns_bind; [apply returns_lift|]. intros _ _.
  eapply returns_bind; [apply returns_lift|]. intros _ _.
  eapply returns_bind; [apply returns_serial_baud_9600; exact Hfour|]. intros _ _.
  eapply returns_bind; [apply returns_serial_format_8N1|]. intros _ _.
  eapply returns_bind; [apply returns_pinmap_pinout; rewrite Hftx; lia|]. intros _ _.
  eapply returns_bind; [apply returns_pinmap_pinout; rewrite Hfrx; lia|]. intros _ _.
  eapply returns_bind; [apply returns_pin_mode|]. intros _ _.
  eapply returns_bind; [apply returns_pin_mode|]. intros _ _.
  eapply returns_bind; [apply returns_gets|]. intros d _.
  eapply returns_bind with (P := fun _ => True).
  { destruct (initialized d =? 0); cbn [when].
    - eapply returns_bind; [apply returns_lift|]. intros _ _.
      eapply returns_bind; [apply returns_lift|]. intros _ _.
      apply returns_lift.
    - eapply returns_weaken; [|apply returns_ret]. auto. }
  intros _ _.
  eapply returns_bind with (P := fun _ => True).
  { destruct (negb _); cbn [when]; [apply returns_lift|].
    eapply returns_weaken; [|apply returns_ret]. auto. }
  intros _ _. apply returns_ret.
Qed.

(** * Further properties of the driver *)

(** ** serial_baud: what reaches the registers *)

Lemma search_step_fields PCLK baudrate st dlv mv dav :
  in_fields (s_DL st) (s_DivAddVal st) (s_MulVal st) ->
  0 <= dlv < 65536 -> 1 <= mv <= 15 -> 1 <= dav <= mv - 1 ->
  let st' := search_step PCLK baudrate st (dlv, mv, dav) in
  in_fields (s_DL st') (s_DivAddVal st') (s_MulVal st').
Proof.
  intros Hst Hd Hmv Hdav. cbv zeta. unfold search_step.
  destruct (flt _ _); [|exact Hst]. cbn. unfold in_fields. lia.
Qed.

Lemma fold_fields PCLK baudrate dlv l : forall st,
  (forall c, In c l -> In c (candidates dlv)) ->
  0 <= dlv < 65536 ->
  in_fields (s_DL st) (s_DivAddVal st) (s_MulVal st) ->
  let st' := fold_left (search_step PCLK baudrate) l st in
  in_fields (s_DL st') (s_DivAddVal st') (s_MulVal st').
Proof.
  induction l as [|c l IH]; intros st Hl Hd Hst; cbn [fold_left]; [exact Hst|].
  apply IH; [intros c' Hc'; apply Hl; now right|exact Hd|].
  assert (Hc : In c (candidates dlv)) by (apply Hl; now left).
  apply In_candidates in Hc. destruct Hc as (mv & dav & -> & Hmv & Hdav).
  apply search_step_fields; assumption.
Qed.

Lemma dlv_loop_fields PCLK baudrate dlmax fuel : forall dlv st st' dl_end,
  0 <= dlv < 65536 ->
  in_fields (s_DL st) (s_DivAddVal st) (s_MulVal st) ->
  dlv_loop fuel PCLK baudrate dlmax dlv st = Some (st', dl_end) ->
  in_fields (s_DL st') (s_DivAddVal st') (s_MulVal st').
Proof.
  induction fuel as [|fuel IH]; intros dlv st st' dl_end Hd Hst H;
    cbn [dlv_loop] in H;
    destruct ((dlv <=? dlmax) && negb (s_hit st)); try discriminate;
    try (injection H as <- <-; exact Hst).
  eapply IH; [| |exact H].
  - unfold u16. apply Z.mod_pos_bound. lia.
  - rewrite mv_loop_flat. apply (fold_fields PCLK baudrate dlv); auto.
Qed.

(** Whatever the calculator emits fits the hardware fields, for every
    clock, rate and fuel. *)
Lemma baud_divisors_fields fuel PCLK baudrate DL dav mv :
  baud_divisors fuel PCLK baudrate = Divisors DL dav mv ->
  in_fields DL dav mv.
Proof.
  unfold baud_divisors. destruct (negb (int_range _)); [discriminate|].
  destruct (u32 (16 * baudrate) =? 0); [discriminate|].
  set (DL0 := u16 (PCLK / u32 (16 * baudrate))).
  assert (H0 : 0 <= DL0 < 65536) by (apply Z.mod_pos_bound; lia).
  destruct (negb (PCLK mod _ =? 0)).
  - destruct (dlv_loop _ _ _ _ _ _) as [[st e]|] eqn:E; [|discriminate].
    intros H. injection H as <- <- <-.
    eapply dlv_loop_fields; [| |exact E].
    + split; [apply Z.div_pos; lia|]. apply Z.div_lt_upper_bound; lia.
    + cbn. unfold in_fields. lia.
  - intros H. injection H as <- <- <-. unfold in_fields. lia.
Qed.

Lemma fdr_fields_check :
  forallb (fun mv =>
    forallb (fun dav =>
      let fdr := u8 (Z.lor (Z.shiftl dav 0) (Z.shiftl mv 4)) in
      (Z.land fdr 15 =? dav) && (Z.shiftr fdr 4 =? mv))
      (zseq 0 15)) (zseq 1 15) = true.
Proof. vm_compute. reflexivity. Qed.

Lemma fdr_fields dav mv :
  1 <= mv <= 15 -> 0 <= dav < mv ->
  let fdr := u8 (Z.lor (Z.shiftl dav 0) (Z.shiftl mv 4)) in
  Z.land fdr 15 = dav /\ Z.shiftr fdr 4 = mv.
Proof.
  intros Hmv Hdav. pose proof fdr_fields_check as H.
  rewrite forallb_forall in H.
  assert (Hin : In mv (zseq 1 15)) by (apply In_zseq; lia).
  specialize (H mv Hin). rewrite forallb_forall in H.
  assert (Hin' : In dav (zseq 0 15)) by (apply In_zseq; lia).
  specialize (H dav Hin'). cbv zeta in H |- *.
  apply andb_prop in H. lia.
Qed.

Lemma latch_bytes DL :
  0 <= DL < 65536 ->
  Z.land (Z.shiftr DL 8) 255 * 256 + Z.land (Z.shiftr DL 0) 255 = DL.
Proof.
  intros H. change 255 with (Z.ones 8). rewrite !Z.land_ones by lia.
  rewrite Z.shiftr_0_r, Z.shiftr_div_pow2 by lia. change (2 ^ 8) with 256.
  rewrite (Z.mod_small (DL / 256)).
  - pose proof (Z.div_mod DL 256). lia.
  - split; [apply Z.div_pos; lia|apply Z.div_lt_upper_bound; lia].
Qed.

(** Everything a returning serial_baud has done, in one place. *)
Lemma serial_baud_effect obj baudrate m m' :
  serial_baud obj baudrate m = Ret tt m' ->
  exists reg sh DL dav mv,
    pclksel_field (uart obj) = Some (reg, sh) /\
    baud_divisors search_fuel (u32 (SystemCoreClock m)) baudrate
    = Divisors DL dav mv /\
    pclksel m' reg = pclk_div1 (pclksel m reg) sh /\
    pclksel m' (negb reg) = pclksel m (negb reg) /\
    regs m' (uart obj)
    = (let r := regs m (uart obj) in
       mkRegs (IER r)
              (u8 (Z.land (u8 (Z.lor (LCR r) (Z.shiftl 1 7))) (Z.lnot (Z.shiftl 1 7))))
              (MCR r) (FCR r)
              (Z.land (Z.shiftr DL 0) 255) (Z.land (Z.shiftr DL 8) 255)
              (u8 (Z.lor (Z.shiftl dav 0) (Z.shiftl mv 4)))) /\
    (forall u, u <> uart obj -> regs m' u = regs m u) /\
    uart_data m' = uart_data m /\ PCONP m' = PCONP m /\
    nvic_enabled m' = nvic_enabled m /\ serial_irq_ids m' = serial_irq_ids m /\
    stdio_uart_inited m' = stdio_uart_inited m /\ stdio_uart m' = stdio_uart m /\
    trace m' = trace m /\ hw_in m' = hw_in m /\ gpio_level m' = gpio_level m.
Proof.
  unfold serial_baud, pclksel_field.
  cbv beta iota zeta delta [bind lift gets error].
  destruct (uart obj =? UART_0); [|destruct (uart obj =? UART_1);
    [|destruct (uart obj =? UART_2); [|destruct (uart obj =? UART_3);
      [|discriminate]]]];
  cbn [SystemCoreClock with_PCLKSEL0 with_PCLKSEL1];
  destruct (baud_divisors search_fuel (u32 (SystemCoreClock m)) baudrate)
    as [DL dav mv| |]; try discriminate;
  intros H; injection H as <-;
  eexists _, _, DL, dav, mv;
  (split; [reflexivity|]); (split; [reflexivity|]);
  (split; [reflexivity|]); (split; [reflexivity|]);
  (split; [cbn; rewrite !upd_same; reflexivity|]);
  (split; [intros u Hu; cbn; now rewrite !upd_other by exact Hu|]);
  repeat split.
Qed.

Lemma testbit_small a n : 0 <= a < 2 ^ n -> 0 <= n -> forall k, n <= k -> Z.testbit a k = false.
Proof.
  intros Ha Hn k Hk. destruct (Z.eq_dec a 0) as [->|Hz]; [apply Z.bits_0|].
  apply Z.bits_above_log2; [lia|].
  apply Z.lt_le_trans with n; [|exact Hk]. apply Z.log2_lt_pow2; lia.
Qed.

Lemma pclk_div1_bits sel sh k :
  0 <= sh -> sh + 1 < 32 -> 0 <= k < 32 ->
  Z.testbit (pclk_div1 sel sh) k
  = if k =? sh then true else if k =? sh + 1 then false else Z.testbit sel k.
Proof.
  intros Hsh Hhi Hk. unfold pclk_div1.
  rewrite u32_testbit, Z.lor_spec, u32_testbit, Z.land_spec, Z.lnot_spec,
    !Z.shiftl_spec by lia.
  destruct (Z.eqb_spec k sh) as [->|Hne].
  - rewrite Z.sub_diag. cbn. apply orb_true_r.
  - destruct (Z.eqb_spec k (sh + 1)) as [->|Hne'].
    + replace (sh + 1 - sh) with 1 by lia. cbn. now rewrite andb_false_r.
    + destruct (Z_lt_ge_dec k sh) as [Hlt|Hge].
      * rewrite (Z.testbit_neg_r 3 (k - sh)), (Z.testbit_neg_r 1 (k - sh)) by lia. cbn. now rewrite andb_true_r, orb_false_r.
      * rewrite (testbit_small 3 2 ltac:(lia) ltac:(lia) (k - sh)),
          (testbit_small 1 1 ltac:(lia) ltac:(lia) (k - sh)) by lia.
        cbn. now rewrite andb_true_r, orb_false_r.
Qed.

(** X1. A serial_baud that returns has programmed the tuple the calculator
    emitted, and the tuple fits the fields: DLM:DLL read back as DL (below
    65536), FDR reads back as DivAddVal in its low nibble and MulVal (1..15,
    above DivAddVal) in its high nibble.  The divisor-latch access bit is
    clear again, the other seven bits of LCR are as before, and IER, MCR,
    FCR, the registers of the other UARTs and uart_data are untouched. *)
Theorem serial_baud_registers :
  forall obj baudrate m m',
    serial_baud obj baudrate m = Ret tt m' ->
    let r := regs m (uart obj) in
    let r' := regs m' (uart obj) in
    exists DL dav mv,
      baud_divisors search_fuel (u32 (SystemCoreClock m)) baudrate
      = Divisors DL dav mv /\
      in_fields DL dav mv /\
      DLM r' * 256 + DLL r' = DL /\
      Z.land (FDR r') 15 = dav /\ Z.shiftr (FDR r') 4 = mv /\
      Z.testbit (LCR r') 7 = false /\
      (forall k, 0 <= k < 7 -> Z.testbit (LCR r') k = Z.testbit (LCR r) k) /\
      IER r' = IER r /\ MCR r' = MCR r /\ FCR r' = FCR r /\
      (forall u, u <> uart obj -> regs m' u = regs m u) /\
      uart_data m' = uart_data m.
Proof.
  intros obj baudrate m m' H r r'. apply serial_baud_effect in H.
  destruct H as (reg & sh & DL & dav & mv & _ & Hdiv & _ & _ & Hr & Ho & Hd & _).
  exists DL, dav, mv. split; [exact Hdiv|].
  pose proof (baud_divisors_fields _ _ _ _ _ _ Hdiv) as Hf.
  split; [exact Hf|]. destruct Hf as (HDL & Hmv & Hdav).
  unfold r'. rewrite Hr. cbn [IER LCR MCR FCR DLL DLM FDR].
  split; [apply latch_bytes, HDL|].
  destruct (fdr_fields dav mv Hmv Hdav) as [Hlo Hhi].
  split; [exact Hlo|]. split; [exact Hhi|].
  split.
  { rewrite u8_testbit, Z.land_spec, Z.lnot_spec by lia. cbn. apply andb_false_r. }
  split.
  { intros k Hk.
    rewrite u8_testbit, Z.land_spec, Z.lnot_spec, u8_testbit, Z.lor_spec,
      testbit_shiftl_1 by lia.
    replace (7 =? k) with false by lia. cbn.
    now rewrite orb_false_r, andb_true_r. }
  repeat (split; [reflexivity|]). split; [exact Ho|exact Hd].
Qed.

Lemma serial_baud_registers_witness :
  let m := reg_write UART_2 (set_LCR 27) (reset_machine 100000000 []) in
  let r' := regs (state_of (serial_baud (port 2) 9600 m)) UART_2 in
  DLM r' * 256 + DLL r' = 337 /\ Z.land (FDR r') 15 = 14 /\
  Z.shiftr (FDR r') 4 = 15 /\ LCR r' = 27.
Proof.
  cbv zeta.
  set (m := reg_write UART_2 (set_LCR 27) (reset_machine 100000000 [])).
  assert (Hrun : serial_baud (port 2) 9600 m
                 = Ret tt (state_of (serial_baud (port 2) 9600 m)))
    by (vm_compute; reflexivity).
  destruct (serial_baud_registers (port 2) 9600 m _ Hrun)
    as (DL & dav & mv & Hdiv & _ & H1 & H2 & H3 & _).
  assert (Hd : baud_divisors search_fuel (u32 (SystemCoreClock m)) 9600
               = Divisors 337 14 15) by (vm_compute; reflexivity).
  rewrite Hd in Hdiv. injection Hdiv as <- <- <-.
  change (uart (port 2)) with UART_2 in H1, H2, H3.
  split; [exact H1|]. split; [exact H2|]. split; [exact H3|].
  vm_compute. reflexivity.
Defined.

(** X2. serial_baud selects PCLK = CCLK/1 for its own UART and for nothing
    else: a call that returns has set the 2-bit field of the port in
    PCLKSEL0 (UART0: bits 7:6, UART1: 9:8) or PCLKSEL1 (UART2: 17:16,
    UART3: 19:18) to 01 and kept every other bit of both registers; for a
    handle that is none of the four UARTs the call ends in error
    "serial_baud" with nothing written. *)
Theorem serial_baud_clock_select :
  forall obj baudrate m,
    (pclksel_field (uart obj) = None ->
     serial_baud obj baudrate m = Fatal "serial_baud" m)
    /\ (forall m',
           serial_baud obj baudrate m = Ret tt m' ->
           exists reg sh,
             pclksel_field (uart obj) = Some (reg, sh) /\
             Z.testbit (pclksel m' reg) sh = true /\
             Z.testbit (pclksel m' reg) (sh + 1) = false /\
             (forall k, 0 <= k < 32 -> k <> sh -> k <> sh + 1 ->
                        Z.testbit (pclksel m' reg) k = Z.testbit (pclksel m reg) k) /\
             pclksel m' (negb reg) = pclksel m (negb reg)).
Proof.
  intros obj baudrate m. split.
  - unfold pclksel_field, serial_baud.
    destruct (uart obj =? UART_0); [discriminate|].
    destruct (uart obj =? UART_1); [discriminate|].
    destruct (uart obj =? UART_2); [discriminate|].
    destruct (uart obj =? UART_3); [discriminate|]. reflexivity.
  - intros m' H. apply serial_baud_effect in H.
    destruct H as (reg & sh & DL & dav & mv & Hf & _ & Hsel & Hother & _).
    exists reg, sh. split; [exact Hf|].
    assert (Hsh : 0 <= sh /\ sh + 1 < 32).
    { unfold pclksel_field in Hf.
      repeat match type of Hf with
             | (if ?b then _ else _) = _ => destruct b
             end; try discriminate; injection Hf as <- <-; lia. }
    rewrite Hsel.
    split; [rewrite pclk_div1_bits by lia; now rewrite Z.eqb_refl|].
    split.
    { rewrite pclk_div1_bits by lia.
      replace (sh + 1 =? sh) with false by lia. now rewrite Z.eqb_refl. }
    split; [|exact Hother].
    intros k Hk H1 H2. rewrite pclk_div1_bits by lia.
    replace (k =? sh) with false by lia. replace (k =? sh + 1) with false by lia.
    reflexivity.
Qed.

Lemma serial_baud_clock_select_witness :
  let m := with_PCLKSEL0 4294967295 (reset_machine 96000000 []) in
  let m' := state_of (serial_baud (port 1) 9600 m) in
  Z.testbit (PCLKSEL0 m') 8 = true /\ Z.testbit (PCLKSEL0 m') 9 = false /\
  Z.testbit (PCLKSEL0 m') 6 = true /\ PCLKSEL1 m' = 0.
Proof.
  cbv zeta.
  set (m := with_PCLKSEL0 4294967295 (reset_machine 96000000 [])).
  assert (Hrun : serial_baud (port 1) 9600 m
                 = Ret tt (state_of (serial_baud (port 1) 9600 m)))
    by (vm_compute; reflexivity).
  destruct (proj2 (serial_baud_clock_select (port 1) 9600 m) _ Hrun)
    as (reg & sh & Hf & H1 & H2 & H3 & H4).
  vm_compute in Hf. injection Hf as <- <-.
  split; [exact H1|]. split; [exact H2|].
  split; [|exact H4].
  pose proof (H3 6 ltac:(lia) ltac:(lia) ltac:(lia)) as H6.
  cbn [pclksel] in H6. rewrite H6. reflexivity.
Defined.

(** ** serial_baud: a rate above PCLK / 16 *)

Lemma fold_no_improvement PCLK baudrate l : forall st,
  (forall c, In c l -> flt (err_of PCLK baudrate c) (s_err_best st) = false) ->
  fold_left (search_step PCLK baudrate) l st = st.
Proof.
  induction l as [|c l IH]; intros st H; cbn [fold_left]; [reflexivity|].
  destruct (search_step_cases PCLK baudrate st c) as [(Hlt & _)|(_ & Heq)].
  - rewrite H in Hlt by (now left). discriminate.
  - rewrite Heq. apply IH. intros c' Hc'. apply H. now right.
Qed.

(** X3. A rate above PCLK / 16 is not refused: for 0 <= PCLK < 16 * baud
    (baud positive, 16 * baud an int) the integer divisor is 0, the search
    only visits dl = 0, where every candidate divides by zero, and the
    calculator emits (DL, DivAddVal, MulVal) = (0, 0, 1): a zero divisor
    latch. *)
Theorem baud_above_clock_zero_divisor :
  forall PCLK baudrate,
    0 < baudrate -> 16 * baudrate <= 2147483647 ->
    0 <= PCLK < 16 * baudrate ->
    baud_divisors search_fuel PCLK baudrate = Divisors 0 0 1.
Proof.
  intros PCLK baudrate Hb Hmax HP. unfold baud_divisors.
  assert (Hr : int_range (16 * baudrate) = true) by (unfold int_range; lia).
  assert (Hu : u32 (16 * baudrate) = 16 * baudrate)
    by (unfold u32; apply Z.mod_small; lia).
  assert (Hnz : (16 * baudrate =? 0) = false) by lia.
  rewrite Hr, Hu, Hnz, Z.div_small, Z.mod_small by lia.
  cbn [negb]. change (u16 0) with 0.
  destruct (PCLK =? 0); [reflexivity|]. cbn [negb].
  change (0 / 2) with 0.
  assert (Hfuel : exists n, search_fuel = S n).
  { pose proof search_fuel_value. destruct search_fuel; [lia|eauto]. }
  destruct Hfuel as [n ->]. cbn [dlv_loop s_hit]. cbn [Z.leb Z.compare negb andb].
  rewrite mv_loop_flat, fold_no_improvement
    by (intros c Hc; apply baud_err_dl_zero, Hc).
  change (u16 (0 + 1)) with 1.
  destruct n; reflexivity.
Qed.

Lemma baud_above_clock_zero_divisor_witness :
  baud_divisors search_fuel 12000000 1000000 = Divisors 0 0 1.
Proof.
  apply (baud_above_clock_zero_divisor 12000000 1000000); lia.
Defined.

(** ** serial_init: what it establishes and what it leaves *)

Lemma pinmap_peripheral_Ret p map m a m1 :
  pinmap_peripheral p map m = Ret a m1 -> m1 = m.
Proof.
  unfold pinmap_peripheral. destruct (p =? NC).
  - intros H. apply ret_Ret in H. tauto.
  - destruct (_ =? NC); [discriminate|]. intros H. apply ret_Ret in H. tauto.
Qed.

Lemma pinmap_merge_Ret a b m u m1 : pinmap_merge a b m = Ret u m1 -> m1 = m.
Proof.
  unfold pinmap_merge.
  destruct (a =? b); [|destruct (a =? NC); [|destruct (b =? NC); [|discriminate]]];
    intros H; apply ret_Ret in H; tauto.
Qed.

Lemma pinmap_pinout_Ret p map m a m1 :
  pinmap_pinout p map m = Ret a m1 -> exists t, m1 = with_trace t m.
Proof.
  unfold pinmap_pinout. destruct (p =? NC).
  - intros H. apply ret_Ret in H. destruct H as [_ ->]. exists (trace m).
    destruct m; reflexivity.
  - destruct (pinmap_find_function p map); [|discriminate].
    intros H. apply lift_Ret in H. subst. eexists. reflexivity.
Qed.

Lemma pin_mode_Ret p mode m a m1 :
  pin_mode p mode m = Ret a m1 -> exists t, m1 = with_trace t m.
Proof.
  unfold pin_mode. destruct (p =? NC).
  - intros H. apply ret_Ret in H. destruct H as [_ ->]. exists (trace m).
    destruct m; reflexivity.
  - intros H. apply lift_Ret in H. subst. eexists. reflexivity.
Qed.

Lemma pclksel_field_four u reg sh :
  pclksel_field u = Some (reg, sh) ->
  u = UART_0 \/ u = UART_1 \/ u = UART_2 \/ u = UART_3.
Proof.
  unfold pclksel_field.
  destruct (Z.eqb_spec u UART_0); [auto|].
  destruct (Z.eqb_spec u UART_1); [auto|].
  destruct (Z.eqb_spec u UART_2); [auto|].
  destruct (Z.eqb_spec u UART_3); [auto|discriminate].
Qed.

(** Everything a returning serial_init has done. *)
Lemma serial_init_effect obj tx rx m obj' m' :
  serial_init obj tx rx m = Ret obj' m' ->
  let u := uart obj' in
  let i := index obj' in
  let d := uart_data m i in
  valid_handle obj' = true /\
  (exists b, power_bit u = Some b /\
             PCONP m' = u32 (Z.lor (PCONP m) (Z.shiftl 1 b))) /\
  IER (regs m' u) = 0 /\ FCR (regs m' u) = 1 /\ LCR (regs m' u) = 3 /\
  MCR (regs m' u) = MCR (regs m u) /\
  (forall u0, u0 <> u -> regs m' u0 = regs m u0) /\
  (forall j, uart_data m' j
             = if (initialized d =? 0) && (j =? i)
               then mkData (mkGpio NC) (mkGpio NC) (count d) 1
                           (irq_set_flow d) (irq_set_api d)
               else uart_data m j) /\
  nvic_enabled m' = nvic_enabled m /\
  serial_irq_ids m' = serial_irq_ids m /\
  hw_in m' = hw_in m /\ gpio_level m' = gpio_level m /\
  (if u =? UART_0
   then stdio_uart_inited m' = 1 /\ stdio_uart m' = obj'
   else stdio_uart_inited m' = stdio_uart_inited m /\
        stdio_uart m' = stdio_uart m).
Proof.
  intros H. unfold serial_init in H.
  apply bind_Ret in H. destruct H as (utx & m1 & H1 & H).
  apply pinmap_peripheral_Ret in H1. subst m1.
  apply bind_Ret in H. destruct H as (urx & m1 & H1 & H).
  apply pinmap_peripheral_Ret in H1. subst m1.
  apply bind_Ret in H. destruct H as (u & m1 & H1 & H).
  apply pinmap_merge_Ret in H1. subst m1.
  apply bind_Ret in H. destruct H as ([] & m1 & H1 & H).
  unfold when in H1. destruct (u =? NC) eqn:Enc; [discriminate|].
  apply ret_Ret in H1. destruct H1 as [_ ->].
  apply bind_Ret in H. destruct H as ([] & m1 & H1 & H). apply lift_Ret in H1.
  apply bind_Ret in H. destruct H as ([] & m2 & H2 & H). apply lift_Ret in H2.
  apply bind_Ret in H. destruct H as ([] & m3 & H3 & H). apply lift_Ret in H3.
  apply bind_Ret in H. destruct H as ([] & m4 & H4 & H).
  apply serial_baud_effect in H4.
  destruct H4 as (reg & sh & DL & dav & mv & Hf & _ & _ & _ & Hr4 & Ho4 & Hd4
                  & Hp4 & Hn4 & Hi4 & Hs4 & Hs4' & _ & Hh4 & Hg4).
  cbn [uart] in Hf, Hr4, Ho4.
  apply bind_Ret in H. destruct H as ([] & m5 & H5 & H).
  rewrite (serial_format_legal _ 8 ParityNone 1 m4 eq_refl) in H5.
  injection H5 as H5. cbn [uart] in H5.
  apply bind_Ret in H. destruct H as ([] & m6 & H6 & H).
  apply pinmap_pinout_Ret in H6. destruct H6 as [t6 H6].
  apply bind_Ret in H. destruct H as ([] & m7 & H7 & H).
  apply pinmap_pinout_Ret in H7. destruct H7 as [t7 H7].
  apply bind_Ret in H. destruct H as ([] & m8 & H8 & H).
  apply pin_mode_Ret in H8. destruct H8 as [t8 H8].
  apply bind_Ret in H. destruct H as ([] & m9 & H9 & H).
  apply pin_mode_Ret in H9. destruct H9 as [t9 H9].
  apply bind_Ret in H. destruct H as (d & m10 & H10 & H).
  apply gets_Ret in H10. destruct H10 as [Hd ->].
  apply bind_Ret in H. destruct H as ([] & m11 & H11 & H).
  apply bind_Ret in H. destruct H as ([] & m12 & H12 & H).
  apply ret_Ret in H. destruct H as [Hobj Hm]. subst obj' m12.
  cbn [uart index] in *. cbv zeta.
  set (i := index_of_uart u (index obj)) in *.
  assert (Hfour := pclksel_field_four _ _ _ Hf).
  (* the state before the guarded slot reset *)
  assert (H9' : uart_data m9 = uart_data m /\
                regs m9 u = mkRegs 0 3 (MCR (regs m u)) 1
                              (Z.land (Z.shiftr DL 0) 255)
                              (Z.land (Z.shiftr DL 8) 255)
                              (u8 (Z.lor (Z.shiftl dav 0) (Z.shiftl mv 4))) /\
                (forall u0, u0 <> u -> regs m9 u0 = regs m u0) /\
                (exists b, power_bit u = Some b /\
                           PCONP m9 = u32 (Z.lor (PCONP m) (Z.shiftl 1 b))) /\
                nvic_enabled m9 = nvic_enabled m /\
                serial_irq_ids m9 = serial_irq_ids m /\
                hw_in m9 = hw_in m /\ gpio_level m9 = gpio_level m /\
                stdio_uart_inited m9 = stdio_uart_inited m /\
                stdio_uart m9 = stdio_uart m).
  { subst m9 m8 m7 m6 m5. cbn. rewrite upd_same, Hr4, Hd4, Hp4, Hn4, Hi4, Hh4, Hg4, Hs4, Hs4'.
    subst m3 m2. cbn. rewrite !upd_same. cbn. subst m1.
    split; [destruct (power_bit u); reflexivity|].
    split; [destruct (power_bit u); reflexivity|].
    split.
    { intros u0 Hu0. rewrite upd_other, Ho4 by exact Hu0. cbn.
      rewrite !upd_other by exact Hu0. destruct (power_bit u); reflexivity. }
    split.
    { destruct Hfour as [->|[->|[->| ->]]]; cbn; eexists; split; reflexivity. }
    repeat split; destruct (power_bit u); reflexivity. }
  clear H1 H2 H3 H5 H6 H7 H8 H9 Hr4 Ho4 Hd4 Hp4 Hn4 Hi4 Hs4 Hs4' Hh4 Hg4.
  destruct H9' as (Hd9 & Hr9 & Ho9 & Hp9 & Hn9 & Hi9 & Hh9 & Hg9 & Hs9 & Hs9').
  rewrite Hd9 in Hd. subst d.
  (* the slot reset and the stdio copy only write uart_data and stdio *)
  assert (H11' : regs m11 = regs m9 /\ PCONP m11 = PCONP m9 /\
                 nvic_enabled m11 = nvic_enabled m9 /\
                 serial_irq_ids m11 = serial_irq_ids m9 /\
                 hw_in m11 = hw_in m9 /\ gpio_level m11 = gpio_level m9 /\
                 stdio_uart_inited m11 = stdio_uart_inited m9 /\
                 stdio_uart m11 = stdio_uart m9 /\
                 forall j, uart_data m11 j
                 = if (initialized (uart_data m i) =? 0) && (j =? i)
                   then mkData (mkGpio NC) (mkGpio NC) (count (uart_data m i)) 1
                          (irq_set_flow (uart_data m i))
                          (irq_set_api (uart_data m i))
                   else uart_data m j).
  { unfold when in H11. clear H12.
    destruct (initialized (uart_data m i) =? 0); cbn [andb].
    - minv. cbn. rewrite Hd9. repeat (split; [reflexivity|]).
      intros j. unfold upd. destruct (j =? i); [|reflexivity].
      rewrite !Z.eqb_refl. reflexivity.
    - apply ret_Ret in H11. destruct H11 as [_ ->]. rewrite Hd9.
      repeat (split; [reflexivity|]). reflexivity. }
  destruct H11' as (Hr11 & Hp11 & Hn11 & Hi11 & Hh11 & Hg11 & Hs11 & Hs11' & Hd11).
  assert (Hm' : regs m' = regs m11 /\ PCONP m' = PCONP m11 /\
                nvic_enabled m' = nvic_enabled m11 /\
                serial_irq_ids m' = serial_irq_ids m11 /\
                hw_in m' = hw_in m11 /\ gpio_level m' = gpio_level m11 /\
                uart_data m' = uart_data m11 /\
                (if u =? UART_0
                 then stdio_uart_inited m' = 1 /\ stdio_uart m' = mkSerial u i
                 else stdio_uart_inited m' = stdio_uart_inited m11 /\
                      stdio_uart m' = stdio_uart m11)).
  { unfold when, STDIO_UART in H12. destruct (u =? UART_0); cbn [negb Z.eqb] in H12.
    - apply lift_Ret in H12. subst m'. repeat split.
    - apply ret_Ret in H12. destruct H12 as [_ ->]. repeat split. }
  destruct Hm' as (Hr' & Hp' & Hn' & Hi' & Hh' & Hg' & Hd' & Hstd).
  split.
  { destruct Hfour as [->|[->|[->| ->]]]; reflexivity. }
  split; [rewrite Hp', Hp11; exact Hp9|].
  rewrite Hr', Hr11, Hr9. cbn [IER FCR LCR MCR].
  repeat (split; [reflexivity|]).
  split; [intros u0 Hu0; apply Ho9, Hu0|].
  split; [intros j; rewrite Hd'; apply Hd11|].
  split; [congruence|]. split; [congruence|]. split; [congruence|].
  split; [congruence|].
  destruct (u =? UART_0); [exact Hstd|].
  destruct Hstd as [-> ->]. split; congruence.
Qed.



(** X5. What serial_init does not reset.  A returning serial_init has
    cleared both interrupt enables of the port in IER, but the requester
    flags irq_set_api and irq_set_flow, the TX counter, the callback ids and
    the NVIC enables are exactly as before.  So after re-initialising a port
    on which a requester had the RX interrupt on, the flag still says
    requested while the interrupt is disabled. *)
Theorem serial_init_keeps_requests :
  forall obj tx rx m obj' m',
    serial_init obj tx rx m = Ret obj' m' ->
    ier_bit m' obj' RxIrq = false /\ ier_bit m' obj' TxIrq = false /\
    (forall o, irq_api m' o = irq_api m o /\ irq_flow m' o = irq_flow m o /\
               tx_count m' o = tx_count m o) /\
    nvic_enabled m' = nvic_enabled m /\
    serial_irq_ids m' = serial_irq_ids m.
Proof.
  intros obj tx rx m obj' m' H. apply serial_init_effect in H. cbv zeta in H.
  destruct H as (_ & _ & Hier & _ & _ & _ & _ & Hd & Hn & Hi & _).
  unfold ier_bit. rewrite Hier.
  split; [reflexivity|]. split; [reflexivity|].
  split; [|split; assumption].
  intros o. unfold irq_api, irq_flow, tx_count. rewrite Hd.
  destruct (_ && _) eqn:E; [|auto].
  apply andb_prop in E. destruct E as [_ E]. apply Z.eqb_eq in E.
  rewrite E. cbn. auto.
Qed.

Lemma serial_init_keeps_requests_witness :
  let m1 := state_of (serial_init (mkSerial 0 0) P0_2 P0_3 (reset_machine 96000000 [])) in
  let m2 := state_of (serial_set_flow_control (port 0) FlowControlRTS P0_22 NC m1) in
  let m3 := state_of (serial_init (mkSerial 0 0) P0_2 P0_3 m2) in
  ier_bit m2 (port 0) RxIrq = true /\
  ier_bit m3 (port 0) RxIrq = false /\ irq_flow m3 (port 0) = true /\
  pin (sw_rts (uart_data m3 0)) = P0_22.
Proof.
  cbv zeta.
  set (m2 := state_of (serial_set_flow_control (port 0) FlowControlRTS P0_22 NC
                 (state_of (serial_init (mkSerial 0 0) P0_2 P0_3
                              (reset_machine 96000000 []))))).
  assert (Hrun : serial_init (mkSerial 0 0) P0_2 P0_3 m2
                 = Ret (port 0) (state_of (serial_init (mkSerial 0 0) P0_2 P0_3 m2)))
    by (vm_compute; reflexivity).
  destruct (serial_init_keeps_requests _ _ _ _ _ _ Hrun) as (Hrx & _ & Hflags & _).
  split; [vm_compute; reflexivity|]. split; [exact Hrx|].
  split; [|vm_compute; reflexivity].
  destruct (Hflags (port 0)) as (_ & -> & _). vm_compute. reflexivity.
Defined.

(** ** Interrupt dispatch and the callback registry *)

(** X6. The dispatcher uart_irq by cases.  A code other than 1 (TX) and 2
    (RX) returns with nothing changed.  On TX the RTS pin is never written;
    on RX it is written -- driven to 1 -- exactly when the slot holds a
    software RTS pin.  Then, with no callback id registered for the port
    the dispatcher returns; with an id it calls the registered function
    through the pointer, once, as its last action, with that id and the
    decoded event -- undefined behaviour when the pointer is null. *)
Theorem uart_irq_dispatch :
  forall handler_code iir index m,
    let g := sw_rts (uart_data m index) in
    let id := serial_irq_ids m index in
    let fn := irq_handler m in
    let irq := if iir =? 1 then TxIrq else RxIrq in
    let m1 := if (iir =? 2) && negb (pin g =? NC) then gpio_write g 1 m else m in
    (iir <> 1 -> iir <> 2 -> uart_irq handler_code iir index m = Ret tt m) /\
    (iir = 1 \/ iir = 2 -> id = 0 ->
     uart_irq handler_code iir index m = Ret tt m1) /\
    (iir = 1 \/ iir = 2 -> id <> 0 -> fn = 0 ->
     uart_irq handler_code iir index m = Undef m1) /\
    (iir = 1 \/ iir = 2 -> id <> 0 -> fn <> 0 ->
     uart_irq handler_code iir index m
     = handler_code fn id irq (emit (EvHandler fn id irq) m1)) /\
    (iir = 1 -> m1 = m) /\
    (forall q, gpio_level m1 q
               = if (iir =? 2) && negb (pin g =? NC) && (q =? pin g) then 1
                 else gpio_level m q) /\
    trace m1 = (if (iir =? 2) && negb (pin g =? NC) then [EvGpioWrite (pin g) 1]
                else []) ++ trace m /\
    regs m1 = regs m /\ uart_data m1 = uart_data m /\
    serial_irq_ids m1 = serial_irq_ids m /\ hw_in m1 = hw_in m.
Proof.
  intros handler_code iir index m. cbv zeta.
  rewrite uart_irq_run. cbv zeta.
  split; [intros H1 H2;
          assert (E : (iir =? 1) || (iir =? 2) = false) by lia;
          assert (E2 : (iir =? 2) = false) by lia;
          rewrite E, E2; reflexivity|].
  split; [intros Hi Hid;
          assert (E : (iir =? 1) || (iir =? 2) = true) by lia;
          rewrite E, Hid; reflexivity|].
  split; [intros Hi Hid Hfn;
          assert (E : (iir =? 1) || (iir =? 2) = true) by lia;
          apply Z.eqb_neq in Hid; rewrite E, Hid, Hfn; reflexivity|].
  split; [intros Hi Hid Hfn;
          assert (E : (iir =? 1) || (iir =? 2) = true) by lia;
          apply Z.eqb_neq in Hid, Hfn; rewrite E, Hid, Hfn; reflexivity|].
  split; [intros ->; reflexivity|].
  destruct ((iir =? 2) && negb (pin (sw_rts (uart_data m index)) =? NC));
    cbn [andb]; (split; [intros q; cbn; unfold upd; reflexivity|]);
    cbn; repeat split; reflexivity.
Qed.

(** X7. The callback function is one static shared by all ports, the ids
    are per port: after port [a] registers (ha, ida) and then another port
    [b] registers (hb, idb), an RX or TX interrupt of port [a] calls [hb]
    -- the last function registered -- with port [a]'s own id; and when the
    function port [b] registered is null, the interrupt of port [a] is
    undefined behaviour although port [a] registered a function. *)
Theorem shared_handler_last_writer :
  forall handler_code a b ha ida hb idb iir m,
    index a <> index b -> ida <> 0 -> iir = 1 \/ iir = 2 ->
    let m2 := serial_irq_handler b hb idb (serial_irq_handler a ha ida m) in
    let g := sw_rts (uart_data m (index a)) in
    let irq := if iir =? 1 then TxIrq else RxIrq in
    let m3 := if (iir =? 2) && negb (pin g =? NC) then gpio_write g 1 m2 else m2 in
    uart_irq handler_code iir (index a) m2
    = if hb =? 0 then Undef m3
      else handler_code hb ida irq (emit (EvHandler hb ida irq) m3).
Proof.
  intros handler_code a b ha ida hb idb iir m Hab Hid Hi. cbv zeta.
  rewrite uart_irq_run. cbv zeta.
  assert (Hids : serial_irq_ids
                   (serial_irq_handler b hb idb (serial_irq_handler a ha ida m))
                   (index a) = ida).
  { cbn. rewrite upd_other by exact Hab. apply upd_same. }
  rewrite Hids.
  apply Z.eqb_neq in Hid. rewrite Hid.
  assert (Hc : (iir =? 1) || (iir =? 2) = true) by lia.
  rewrite Hc. cbn [negb andb]. reflexivity.
Qed.

Lemma shared_handler_last_writer_witness :
  let handler_code := fun (fn id irq : Z) => lift (with_PCONP (fn + id)) in
  let m2 := serial_irq_handler (port 1) 200 22
              (serial_irq_handler (port 0) 100 11
                 (data_write 0 (set_sw_rts (mkGpio NC)) (reset_machine 96000000 []))) in
  uart_irq handler_code 2 0 m2
  = Ret tt (with_PCONP 211 (emit (EvHandler 200 11 RxIrq) m2)).
Proof.
  cbv zeta.
  exact (shared_handler_last_writer
           (fun (fn id irq : Z) => lift (with_PCONP (fn + id)))
           (port 0) (port 1) 100 11 200 22 2
           (data_write 0 (set_sw_rts (mkGpio NC)) (reset_machine 96000000 []))
           ltac:(cbn; lia) ltac:(lia) (or_intror eq_refl)).
Defined.

(** X8. serial_free only zeroes the port's callback id.  Afterwards an
    interrupt of the port calls no handler (a software RTS pin is still
    raised on RX), while the registers -- the IER enable bits among them --,
    the interrupt controller, the power bit, the port's slot and the ids of
    the other ports are as before: the interrupt source itself stays on. *)
Theorem serial_free_silences :
  forall handler_code obj iir m,
    let m1 := serial_free obj m in
    let p := pin (sw_rts (uart_data m (index obj))) in
    (exists m',
       uart_irq handler_code iir (index obj) m1 = Ret tt m' /\
       trace m' = (if (iir =? 2) && negb (p =? NC) then [EvGpioWrite p 1] else [])
                  ++ trace m) /\
    regs m1 = regs m /\ nvic_enabled m1 = nvic_enabled m /\
    nvic_vector m1 = nvic_vector m /\ PCONP m1 = PCONP m /\
    uart_data m1 = uart_data m /\ irq_handler m1 = irq_handler m /\
    (forall j, j <> index obj -> serial_irq_ids m1 j = serial_irq_ids m j).
Proof.
  intros handler_code obj iir m. cbv zeta. split.
  - rewrite uart_irq_run. cbv zeta.
    assert (Hids : serial_irq_ids (serial_free obj m) (index obj) = 0).
    { cbn. apply upd_same. }
    rewrite Hids. change (negb (0 =? 0)) with false. rewrite andb_false_r.
    change (uart_data (serial_free obj m)) with (uart_data m).
    eexists. split; [reflexivity|].
    destruct ((iir =? 2) && negb (pin (sw_rts (uart_data m (index obj))) =? NC));
      reflexivity.
  - repeat split. intros j Hj. cbn. now apply upd_other.
Qed.





(** ** The arbiter and the interrupt controller *)


Lemma valid_handle_eq a b :
  valid_handle a = true -> valid_handle b = true -> index a = index b -> a = b.
Proof.
  intros Ha Hb E. apply valid_handle_inv in Ha. apply valid_handle_inv in Hb.
  destruct a as [ua ia], b as [ub ib]. cbn in *. destruct Ha as [_ ->], Hb as [_ ->].
  now subst.
Qed.

Lemma valid_handle_uart_neq a b :
  valid_handle a = true -> valid_handle b = true -> index a <> index b ->
  uart b <> uart a.
Proof.
  intros Ha Hb E. apply valid_handle_inv in Ha. apply valid_handle_inv in Hb.
  destruct Ha as [Hi Hu], Hb as [Hj Hv]. rewrite Hu, Hv. intros H.
  apply uart_of_index_inj in H; lia.
Qed.

Lemma is_direction_cases irq :
  is_direction irq = true -> irq = RxIrq \/ irq = TxIrq.
Proof. unfold is_direction. lia. Qed.




Lemma api_call_keeps_flow o irq e m obj :
  irq_set_flow (uart_data (serial_irq_set o irq e m) (index obj))
  = irq_set_flow (uart_data m (index obj)).
Proof.
  unfold serial_irq_set. rewrite internal_uart_data. cbn. unfold upd.
  destruct (index obj =? index o) eqn:E; [|reflexivity].
  apply Z.eqb_eq in E. rewrite E. reflexivity.
Qed.

Lemma api_call_keeps_bit o irq e m obj j :
  valid_handle obj = true -> valid_handle o = true -> is_direction irq = true ->
  0 <= j < 32 ->
  irq_set_flow (uart_data m (index obj)) <> 0 ->
  ier_bit m obj j = true ->
  ier_bit (serial_irq_set o irq e m) obj j = true.
Proof.
  intros Hobj Ho Hd Hj Hf Hb. unfold serial_irq_set.
  destruct (Z.eq_dec (index o) (index obj)) as [E|E].
  - assert (o = obj) by (now apply valid_handle_eq). subst o.
    apply is_direction_cases in Hd.
    rewrite internal_ier_bit by (unfold RxIrq, TxIrq in *; lia).
    change (ier_bit (data_write (index obj) (set_irq_set_api (u8 e)) m) obj j)
      with (ier_bit m obj j).
    rewrite Hb.
    destruct (Z.eqb_spec e 0) as [->|He]; cbn [negb]; [|apply orb_true_r].
    cbn [uart_data data_write with_uart_data]. rewrite upd_same.
    cbn [irq_set_api irq_set_flow set_irq_set_api]. change (u8 0) with 0.
    rewrite Z.add_0_l. apply Z.eqb_neq in Hf. rewrite Hf. reflexivity.
  - assert (Hu : uart obj <> uart o) by (apply valid_handle_uart_neq; auto).
    unfold ier_bit. rewrite internal_regs_other by exact Hu. exact Hb.
Qed.

(** X11. While the flow-control engine holds its request on a port
    (irq_set_flow is not 0), no sequence of public serial_irq_set calls --
    on this or any other port, for either direction, with any enable value
    -- clears an IER bit of the port that was set, and the engine's request
    flag stays as it was. *)
Theorem flow_request_holds_enable_bits :
  forall cs obj m j,
    valid_handle obj = true ->
    forallb (fun c => call_wf c && is_api_call c) cs = true ->
    0 <= j < 32 ->
    irq_set_flow (uart_data m (index obj)) <> 0 ->
    ier_bit m obj j = true ->
    let m' := run_irq_calls cs m in
    ier_bit m' obj j = true /\
    irq_set_flow (uart_data m' (index obj)) = irq_set_flow (uart_data m (index obj)).
Proof.
  induction cs as [|c cs IH]; intros obj m j Hobj Hcs Hj Hf Hb; cbv zeta.
  - split; [exact Hb|reflexivity].
  - cbn [forallb] in Hcs. apply andb_prop in Hcs. destruct Hcs as [Hc Hcs].
    apply andb_prop in Hc. destruct Hc as [Hw Ha].
    destruct c as [o i e|o i e]; [|discriminate Ha].
    unfold call_wf in Hw. cbn [call_obj call_irq] in Hw.
    apply andb_prop in Hw. destruct Hw as [Hv Hd].
    unfold run_irq_calls. cbn [fold_left run_irq_call].
    pose proof (api_call_keeps_flow o i e m obj) as Hk.
    destruct (IH obj (serial_irq_set o i e m) j Hobj Hcs Hj) as [H1 H2].
    + rewrite Hk. exact Hf.
    + now apply api_call_keeps_bit.
    + split; [exact H1|]. unfold run_irq_calls in H2. rewrite H2. exact Hk.
Qed.

Lemma flow_request_holds_enable_bits_witness :
  let m := serial_flow_irq_set (port 0) RxIrq 1 (reset_machine 96000000 []) in
  let m' := run_irq_calls [ApiCall (port 0) RxIrq 1; ApiCall (port 0) RxIrq 0] m in
  ier_bit m' (port 0) RxIrq = true /\
  irq_set_flow (uart_data m' (index (port 0)))
  = irq_set_flow (uart_data m (index (port 0))).
Proof.
  apply (flow_request_holds_enable_bits
           [ApiCall (port 0) RxIrq 1; ApiCall (port 0) RxIrq 0] (port 0)
           (serial_flow_irq_set (port 0) RxIrq 1 (reset_machine 96000000 []))
           RxIrq).
  - reflexivity.
  - reflexivity.
  - unfold RxIrq. lia.
  - cbn. lia.
  - reflexivity.
Defined.

(** ** The line-control register *)

Lemma lcr_word_range d p s :
  legal_format d p s = true -> 0 <= lcr_word d p s < 64.
Proof.
  intros H. apply legal_format_cases in H.
  destruct H as (Hd & Hs & Hp).
  destruct Hd as [->|[->|[->| ->]]], Hs as [->| ->],
    Hp as [->|[->|[->|[->| ->]]]]; vm_compute; split; congruence.
Qed.

(** X12. serial_format does not read the line-control register, it
    overwrites it: for a legal triple the new LCR is a word below 64
    whatever the register held, so a break in progress (bit 6) and an open
    divisor latch (bit 7) are both ended -- serial_format after
    serial_break_set leaves the same registers as serial_format alone --
    and nothing but this one register changes. *)
Theorem serial_format_overwrites_lcr :
  forall obj d p s m,
    legal_format d p s = true ->
    exists m',
      serial_format obj d p s m = Ret tt m' /\
      0 <= LCR (regs m' (uart obj)) < 64 /\
      Z.testbit (LCR (regs m' (uart obj))) 6 = false /\
      Z.testbit (LCR (regs m' (uart obj))) 7 = false /\
      set_LCR (LCR (regs m (uart obj))) (regs m' (uart obj)) = regs m (uart obj) /\
      (forall u, u <> uart obj -> regs m' u = regs m u) /\
      uart_data m' = uart_data m /\ trace m' = trace m /\
      exists m'',
        serial_format obj d p s (serial_break_set obj m) = Ret tt m'' /\
        forall u, regs m'' u = regs m' u.
Proof.
  intros obj d p s m H. pose proof (lcr_word_range d p s H) as Hr.
  eexists. split; [apply serial_format_legal; exact H|].
  cbn [regs reg_write with_regs uart_data trace]. rewrite upd_same.
  cbn [LCR set_LCR IER MCR FCR DLL DLM FDR].
  split; [exact Hr|].
  split; [apply testbit_small with (n := 6); lia|].
  split; [apply testbit_small with (n := 6); lia|].
  split; [destruct (regs m (uart obj)); reflexivity|].
  split; [intros u Hu; now apply upd_other|].
  split; [reflexivity|]. split; [reflexivity|].
  eexists. split; [apply serial_format_legal; exact H|].
  intros u. unfold serial_break_set. cbn [regs reg_write with_regs].
  unfold upd. destruct (u =? uart obj) eqn:E; [|reflexivity].
  rewrite Z.eqb_refl. reflexivity.
Qed.

Lemma serial_format_overwrites_lcr_witness :
  exists m',
    serial_format (port 0) 7 ParityEven 2
      (reg_write UART_0 (set_LCR 255) (reset_machine 96000000 [])) = Ret tt m' /\
    LCR (regs m' UART_0) = 30.
Proof.
  destruct (serial_format_overwrites_lcr (port 0) 7 ParityEven 2
              (reg_write UART_0 (set_LCR 255) (reset_machine 96000000 []))
              eq_refl) as (m' & Hrun & _).
  exists m'. split; [exact Hrun|].
  vm_compute in Hrun. injection Hrun as <-. reflexivity.
Defined.

(** X13. The order of the checks in serial_format: the stop bits are
    looked at first, then the data bits, then the parity, and the first
    failing check decides the message; with several bad arguments only the
    first is reported. *)
Theorem serial_format_first_error :
  forall obj d p s m,
    (s <> 1 -> s <> 2 ->
     serial_format obj d p s m = Fatal "Invalid stop bits specified" m) /\
    (s = 1 \/ s = 2 -> d < 5 \/ 8 < d ->
     serial_format obj d p s m
     = Fatal "Invalid number of bits (%d) in serial format, should be 5..8" m) /\
    (s = 1 \/ s = 2 -> 5 <= d <= 8 -> p < 0 \/ 4 < p ->
     serial_format obj d p s m = Fatal "Invalid serial parity setting" m).
Proof.
  intros obj d p s m. unfold serial_format, bind, when, error, ret.
  split; [|split].
  - intros H1 H2.
    assert (E : negb (s =? 1) && negb (s =? 2) = true) by lia.
    now rewrite E.
  - intros Hs Hd.
    assert (E : negb (s =? 1) && negb (s =? 2) = false) by lia.
    assert (E' : (d <? 5) || (d >? 8) = true) by lia.
    now rewrite E, E'.
  - intros Hs Hd Hp.
    assert (E : negb (s =? 1) && negb (s =? 2) = false) by lia.
    assert (E' : (d <? 5) || (d >? 8) = false) by lia.
    rewrite E, E'. unfold parity_bits.
    unfold ParityNone, ParityOdd, ParityEven, ParityForced1, ParityForced0.
    destruct (p =? 0) eqn:E0; [lia|]. destruct (p =? 1) eqn:E1; [lia|].
    destruct (p =? 2) eqn:E2; [lia|]. destruct (p =? 3) eqn:E3; [lia|].
    destruct (p =? 4) eqn:E4; [lia|]. reflexivity.
Qed.

Lemma lcr_decode_low_bits w w' :
  (forall j, 0 <= j < 6 -> Z.testbit w' j = Z.testbit w j) ->
  lcr_decode w' = lcr_decode w.
Proof.
  intros H.
  assert (H1 : lcr_data_bits w' = lcr_data_bits w).
  { unfold lcr_data_bits. apply Z.bits_inj'. intros n Hn.
    rewrite !Z.land_spec.
    destruct (Z.ltb_spec n 2) as [L|L]; [now rewrite H by lia|].
    rewrite (testbit_small 3 2 ltac:(lia) ltac:(lia) n) by lia. now rewrite !andb_false_r. }
  assert (H2 : lcr_stop_bit w' = lcr_stop_bit w).
  { unfold lcr_stop_bit. apply Z.bits_inj'. intros n Hn.
    rewrite !Z.land_spec, !Z.shiftr_spec by lia.
    destruct (Z.ltb_spec n 1) as [L|L]; [now rewrite H by lia|].
    rewrite (testbit_small 1 1 ltac:(lia) ltac:(lia) n) by lia. now rewrite !andb_false_r. }
  assert (H3 : lcr_parity_enable w' = lcr_parity_enable w).
  { unfold lcr_parity_enable. apply Z.bits_inj'. intros n Hn.
    rewrite !Z.land_spec, !Z.shiftr_spec by lia.
    destruct (Z.ltb_spec n 1) as [L|L]; [now rewrite H by lia|].
    rewrite (testbit_small 1 1 ltac:(lia) ltac:(lia) n) by lia. now rewrite !andb_false_r. }
  assert (H4 : lcr_parity_select w' = lcr_parity_select w).
  { unfold lcr_parity_select. apply Z.bits_inj'. intros n Hn.
    rewrite !Z.land_spec, !Z.shiftr_spec by lia.
    destruct (Z.ltb_spec n 2) as [L|L]; [now rewrite H by lia|].
    rewrite (testbit_small 3 2 ltac:(lia) ltac:(lia) n) by lia. now rewrite !andb_false_r. }
  unfold lcr_decode. now rewrite H1, H2, H3, H4.
Qed.

Lemma break_set_bits w j :
  0 <= j < 8 ->
  Z.testbit (u8 (Z.lor w (Z.shiftl 1 6))) j = (j =? 6) || Z.testbit w j.
Proof.
  intros Hj. rewrite u8_testbit, Z.lor_spec, testbit_shiftl_1 by lia.
  rewrite Z.eqb_sym. apply orb_comm.
Qed.

Lemma break_clear_bits w j :
  0 <= j < 8 ->
  Z.testbit (u8 (Z.land w (Z.lnot (Z.shiftl 1 6)))) j
  = negb (j =? 6) && Z.testbit w j.
Proof.
  intros Hj. rewrite u8_testbit, Z.land_spec, Z.lnot_spec, testbit_shiftl_1 by lia.
  rewrite Z.eqb_sym. apply andb_comm.
Qed.

(** X14. serial_break_set and serial_break_clear change bit 6 of the
    port's line-control register and nothing else: bit 6 ends up 1
    (resp. 0), the other seven bits keep their values, so the character
    format decoded from the register is the same before and after, and a
    set followed by a clear restores every bit of a register whose break
    bit was clear. *)
Theorem serial_break_only_bit6 :
  forall obj m,
    let w := LCR (regs m (uart obj)) in
    let ws := LCR (regs (serial_break_set obj m) (uart obj)) in
    let wc := LCR (regs (serial_break_clear obj m) (uart obj)) in
    let wsc := LCR (regs (serial_break_clear obj (serial_break_set obj m)) (uart obj)) in
    (forall j, 0 <= j < 8 ->
       Z.testbit ws j = (j =? 6) || Z.testbit w j /\
       Z.testbit wc j = negb (j =? 6) && Z.testbit w j /\
       Z.testbit wsc j = negb (j =? 6) && Z.testbit w j) /\
    lcr_decode ws = lcr_decode w /\ lcr_decode wc = lcr_decode w /\
    set_LCR w (regs (serial_break_set obj m) (uart obj)) = regs m (uart obj) /\
    set_LCR w (regs (serial_break_clear obj m) (uart obj)) = regs m (uart obj) /\
    (forall u, u <> uart obj ->
       regs (serial_break_set obj m) u = regs m u /\
       regs (serial_break_clear obj m) u = regs m u).
Proof.
  intros obj m. cbv zeta. unfold serial_break_set, serial_break_clear.
  cbn [regs reg_write with_regs]. rewrite !upd_same. cbn [LCR set_LCR].
  split; [|split; [|split; [|split; [|split]]]].
  - intros j Hj. rewrite break_set_bits, !break_clear_bits, break_set_bits by exact Hj.
    split; [reflexivity|]. split; [reflexivity|].
    destruct (j =? 6); reflexivity.
  - apply lcr_decode_low_bits. intros j Hj. rewrite break_set_bits by lia.
    assert (E : (j =? 6) = false) by lia. now rewrite E.
  - apply lcr_decode_low_bits. intros j Hj. rewrite break_clear_bits by lia.
    assert (E : (j =? 6) = false) by lia. now rewrite E.
  - destruct (regs m (uart obj)); reflexivity.
  - destruct (regs m (uart obj)); reflexivity.
  - intros u Hu. now rewrite !upd_other by exact Hu.
Qed.

(** ** Blocking reads and writes *)

Lemma after_io_snoc e evs rest l m :
  after_io evs rest (emit e (with_hw_in l m)) = after_io (e :: evs) rest m.
Proof.
  unfold after_io, emit, with_trace, with_hw_in. cbn.
  rewrite <- app_assoc. reflexivity.
Qed.

Lemma readable_step obj m v rest :
  hw_in m = v :: rest ->
  serial_readable obj m
  = Ret (Z.land v 1) (emit (EvRead (uart obj) LSR v) (with_hw_in rest m)).
Proof.
  intros H. unfold serial_readable, bind, hw_read, lift, ret. now rewrite H.
Qed.

Lemma spin_readable_run obj polls : forall fuel m lsr rest,
  hw_in m = polls ++ lsr :: rest ->
  forallb (fun v => Z.land v 1 =? 0) polls = true ->
  Z.land lsr 1 <> 0 ->
  (List.length polls < fuel)%nat ->
  spin_until fuel (serial_readable obj) m
  = Ret tt (after_io (lsr_polls (uart obj) (polls ++ [lsr])) rest m).
Proof.
  induction polls as [|p ps IH]; intros fuel m lsr rest Hin Hp Hl Hf;
    (destruct fuel as [|fuel]; [cbn in Hf; lia|]); cbn [spin_until].
  - rewrite (bind_of_Ret _ _ _ _ _ (readable_step obj m lsr rest Hin)).
    apply Z.eqb_neq in Hl. rewrite Hl. reflexivity.
  - cbn [app] in Hin.
    rewrite (bind_of_Ret _ _ _ _ _ (readable_step obj m p _ Hin)).
    cbn [forallb] in Hp. apply andb_prop in Hp. destruct Hp as [Hp0 Hp].
    rewrite Hp0.
    rewrite (IH fuel _ lsr rest); [|reflexivity|exact Hp|exact Hl|cbn in Hf; lia].
    f_equal. unfold lsr_polls. cbn [app map].
    unfold after_io, emit, with_trace, with_hw_in. cbn.
    rewrite <- app_assoc. reflexivity.
Qed.

Lemma spin_readable_starve obj l : forall fuel m,
  hw_in m = l ->
  forallb (fun v => Z.land v 1 =? 0) l = true ->
  (List.length l < fuel)%nat ->
  spin_until fuel (serial_readable obj) m
  = Spin (after_io (lsr_polls (uart obj) l) [] m).
Proof.
  induction l as [|p ps IH]; intros fuel m Hin Hp Hf;
    (destruct fuel as [|fuel]; [cbn in Hf; lia|]); cbn [spin_until].
  - unfold serial_readable, bind, hw_read. rewrite Hin.
    unfold after_io, with_trace, with_hw_in. cbn.
    destruct m; cbn in *. subst. reflexivity.
  - rewrite (bind_of_Ret _ _ _ _ _ (readable_step obj m p _ Hin)).
    cbn [forallb] in Hp. apply andb_prop in Hp. destruct Hp as [Hp0 Hp].
    rewrite Hp0.
    rewrite (IH fuel _); [|reflexivity|exact Hp|cbn in Hf; lia].
    f_equal. unfold lsr_polls. cbn [map].
    unfold after_io, emit, with_trace, with_hw_in. cbn.
    rewrite <- app_assoc. reflexivity.
Qed.

(** X15. serial_getc polls the line status until bit 0 (data ready) is
    set and takes the byte offered next: with hardware answers
    [polls ++ lsr :: data :: rest], where no value of [polls] has bit 0 and
    [lsr] has it, the call returns [data] as read, has consumed exactly
    those answers, and has logged the polls in order, then the lowering of
    the software RTS pin when the slot holds one, then the RBR read; the
    pin is the only level written, registers and slots are untouched. *)
Theorem serial_getc_takes_first_ready :
  forall obj m polls lsr data rest,
    hw_in m = polls ++ lsr :: data :: rest ->
    forallb (fun v => Z.land v 1 =? 0) polls = true ->
    Z.land lsr 1 <> 0 ->
    let p := pin (sw_rts (uart_data m (index obj))) in
    exists m',
      serial_getc obj m = Ret data m' /\
      hw_in m' = rest /\
      trace m' = EvRead (uart obj) RBR data
                 :: (if p =? NC then [] else [EvGpioWrite p 0])
                 ++ rev (lsr_polls (uart obj) (polls ++ [lsr])) ++ trace m /\
      (forall q, gpio_level m' q
                 = if negb (p =? NC) && (q =? p) then 0 else gpio_level m q) /\
      uart_data m' = uart_data m /\ regs m' = regs m.
Proof.
  intros obj m polls lsr data rest Hin Hp Hl. cbv zeta.
  assert (Hb : busy_wait (serial_readable obj) m
               = Ret tt (after_io (lsr_polls (uart obj) (polls ++ [lsr]))
                                  (data :: rest) m)).
  { unfold busy_wait. apply spin_readable_run; [exact Hin|exact Hp|exact Hl|].
    rewrite Hin, length_app. cbn. lia. }
  unfold serial_getc. rewrite (bind_of_Ret _ _ _ _ _ Hb).
  cbv beta iota delta [bind gets when lift ret hw_read].
  change (uart_data (after_io (lsr_polls (uart obj) (polls ++ [lsr]))
                              (data :: rest) m)) with (uart_data m).
  rewrite (Z.eqb_sym NC).
  destruct (pin (sw_rts (uart_data m (index obj))) =? NC) eqn:E; cbn [negb andb].
  - eexists. split; [reflexivity|]. cbn. repeat split; reflexivity.
  - eexists. split; [reflexivity|]. cbn.
    split; [reflexivity|]. split; [reflexivity|].
    split; [intros q; unfold upd; reflexivity|]. split; reflexivity.
Qed.

Lemma serial_getc_takes_first_ready_witness :
  exists m',
    serial_getc (port 0) (reset_machine 96000000 [96; 96; 97; 65; 7]) = Ret 65 m' /\
    hw_in m' = [7].
Proof.
  destruct (serial_getc_takes_first_ready (port 0)
              (reset_machine 96000000 [96; 96; 97; 65; 7]) [96; 96] 97 65 [7]
              eq_refl eq_refl ltac:(cbn; lia))
    as (m' & Hrun & Hin & _).
  exists m'. split; [exact Hrun|exact Hin].
Defined.

(** X16. Without data serial_getc does nothing but poll: when no answer of
    the hardware has bit 0 of the line status set, the call is still
    waiting after all of them, and all it has done is read the line status
    once per answer -- the receive buffer is not read and a software RTS
    pin is not lowered. *)
Theorem serial_getc_only_polls_without_data :
  forall obj m,
    forallb (fun v => Z.land v 1 =? 0) (hw_in m) = true ->
    serial_getc obj m = Spin (after_io (lsr_polls (uart obj) (hw_in m)) [] m).
Proof.
  intros obj m Hp. unfold serial_getc, bind, busy_wait.
  rewrite (spin_readable_starve obj (hw_in m)); [reflexivity|reflexivity|exact Hp|lia].
Qed.

Lemma serial_getc_only_polls_without_data_witness :
  serial_getc (port 0) (reset_machine 96000000 [96; 0; 32])
  = Spin (after_io (lsr_polls (uart (port 0)) [96; 0; 32]) []
                   (reset_machine 96000000 [96; 0; 32])).
Proof.
  apply (serial_getc_only_polls_without_data (port 0)
           (reset_machine 96000000 [96; 0; 32])).
  reflexivity.
Defined.

Lemma spin_writable_full obj l : forall fuel m,
  pin (sw_cts (uart_data m (index obj))) = NC ->
  16 <= tx_count m obj ->
  hw_in m = l ->
  forallb (fun v => Z.land v 32 =? 0) l = true ->
  (List.length l < fuel)%nat ->
  spin_until fuel (serial_writable obj) m
  = Spin (after_io (lsr_polls (uart obj) l) [] m).
Proof.
  induction l as [|p ps IH]; intros fuel m Hpin Hc Hin Hp Hf;
    (destruct fuel as [|fuel]; [cbn in Hf; lia|]); cbn [spin_until].
  - unfold serial_writable. cbv beta iota delta [bind gets ret lift hw_read].
    rewrite Hpin. change (negb (NC =? NC)) with false. cbv beta iota.
    change (negb (1 =? 0)) with true. cbv beta iota. rewrite Hin.
    unfold after_io, with_trace, with_hw_in. cbn.
    destruct m; cbn in *. subst. reflexivity.
  - unfold bind at 1. rewrite (writable_nc_step obj m p ps Hpin Hin).
    cbn [forallb] in Hp. apply andb_prop in Hp. destruct Hp as [Hp0 Hp].
    rewrite Hp0.
    assert (E : (tx_count m obj >=? 16) = true) by lia.
    rewrite E. cbn [Z.eqb].
    rewrite (IH fuel _); [|exact Hpin|exact Hc|reflexivity|exact Hp|cbn in Hf; lia].
    f_equal. unfold lsr_polls. cbn [map].
    unfold after_io, emit, with_trace, with_hw_in. cbn.
    rewrite <- app_assoc. reflexivity.
Qed.

Lemma spin_writable_cts obj l : forall fuel m,
  pin (sw_cts (uart_data m (index obj))) <> NC ->
  hw_in m = l ->
  forallb (fun v => negb (v =? 0)) l = true ->
  (List.length l < fuel)%nat ->
  spin_until fuel (serial_writable obj) m
  = Spin (after_io (gpio_samples (pin (sw_cts (uart_data m (index obj)))) l) [] m).
Proof.
  induction l as [|p ps IH]; intros fuel m Hpin Hin Hp Hf;
    (destruct fuel as [|fuel]; [cbn in Hf; lia|]); cbn [spin_until].
  - unfold serial_writable, gpio_read.
    cbv beta iota delta [bind gets ret lift hw_read].
    assert (E : (NC =? pin (sw_cts (uart_data m (index obj)))) = false) by lia.
    rewrite E. cbn [negb]. rewrite Hin.
    unfold after_io, with_trace, with_hw_in. cbn.
    destruct m; cbn in *. subst. reflexivity.
  - cbn [forallb] in Hp. apply andb_prop in Hp. destruct Hp as [Hp0 Hp].
    assert (Hv : p <> 0) by lia.
    unfold bind at 1. rewrite (writable_cts_high obj m p ps Hpin Hin Hv).
    cbn [Z.eqb].
    rewrite (IH fuel _); [|exact Hpin|reflexivity|exact Hp|cbn in Hf; lia].
    f_equal. unfold gpio_samples. cbn [map].
    unfold after_io, emit, with_trace, with_hw_in. cbn.
    rewrite <- app_assoc. reflexivity.
Qed.

(** X17. With the TX credit used up (counter at 16 or more) and no
    software CTS pin, serial_putc does not write while the hardware does
    not report the transmitter empty: when no line-status answer has bit 5
    set, the call is still waiting after all of them, having only polled
    the line status -- THR is never written and the counter is unchanged.
    serial_clear resets the FIFOs (FCR = 7) but not the counter: after it
    the same call waits in the same way. *)
Theorem serial_putc_waits_when_full :
  forall obj c m,
    pin (sw_cts (uart_data m (index obj))) = NC ->
    16 <= tx_count m obj ->
    forallb (fun v => Z.land v 32 =? 0) (hw_in m) = true ->
    serial_putc obj c m = Spin (after_io (lsr_polls (uart obj) (hw_in m)) [] m) /\
    FCR (regs (serial_clear obj m) (uart obj)) = 7 /\
    serial_putc obj c (serial_clear obj m)
    = Spin (after_io (lsr_polls (uart obj) (hw_in m)) [] (serial_clear obj m)).
Proof.
  intros obj c m Hpin Hc Hp. split; [|split].
  - unfold serial_putc. unfold bind at 1. unfold busy_wait.
    rewrite (spin_writable_full obj (hw_in m));
      [reflexivity|exact Hpin|exact Hc|reflexivity|exact Hp|lia].
  - cbn. rewrite upd_same. reflexivity.
  - unfold serial_putc. unfold bind at 1. unfold busy_wait.
    rewrite (spin_writable_full obj (hw_in m));
      [reflexivity|exact Hpin|exact Hc|reflexivity|exact Hp|cbn; lia].
Qed.

Lemma serial_putc_waits_when_full_witness :
  let m := data_write 0 (set_count 16)
             (data_write 0 (set_sw_cts (mkGpio NC)) (reset_machine 96000000 [0; 1; 64])) in
  serial_putc (port 0) 65 m
  = Spin (after_io (lsr_polls (uart (port 0)) (hw_in m)) [] m) /\
  FCR (regs (serial_clear (port 0) m) (uart (port 0))) = 7 /\
  serial_putc (port 0) 65 (serial_clear (port 0) m)
  = Spin (after_io (lsr_polls (uart (port 0)) (hw_in m)) [] (serial_clear (port 0) m)).
Proof.
  apply (serial_putc_waits_when_full (port 0) 65
           (data_write 0 (set_count 16)
              (data_write 0 (set_sw_cts (mkGpio NC))
                 (reset_machine 96000000 [0; 1; 64])))).
  - reflexivity.
  - vm_compute. congruence.
  - reflexivity.
Defined.

(** X18. With a software CTS pin in the slot, serial_putc samples the pin
    before anything else and goes no further while it reads high: when
    every answer of the hardware is a non-zero pin level, the call is still
    waiting after all of them, having only sampled the pin -- the line
    status is not read, THR is not written. *)
Theorem serial_putc_waits_for_cts :
  forall obj c m,
    pin (sw_cts (uart_data m (index obj))) <> NC ->
    forallb (fun v => negb (v =? 0)) (hw_in m) = true ->
    serial_putc obj c m
    = Spin (after_io (gpio_samples (pin (sw_cts (uart_data m (index obj))))
                                   (hw_in m)) [] m).
Proof.
  intros obj c m Hpin Hp.
  unfold serial_putc. unfold bind at 1. unfold busy_wait.
  rewrite (spin_writable_cts obj (hw_in m));
    [reflexivity|exact Hpin|reflexivity|exact Hp|lia].
Qed.

Lemma serial_putc_waits_for_cts_witness :
  let m := data_write 0 (set_sw_cts (mkGpio P0_17)) (reset_machine 96000000 [1; 1]) in
  serial_putc (port 0) 65 m
  = Spin (after_io (gpio_samples (pin (sw_cts (uart_data m (index (port 0)))))
                                 (hw_in m)) [] m).
Proof.
  apply (serial_putc_waits_for_cts (port 0) 65
           (data_write 0 (set_sw_cts (mkGpio P0_17)) (reset_machine 96000000 [1; 1]))).
  - vm_compute. congruence.
  - reflexivity.
Defined.

(** X19. Filling the FIFO: from a counter c0 >= 0, with no software CTS
    pin, n calls of serial_putc on one port with c0 + n <= 16, answered by
    n line-status values without the transmitter-empty bit, all return;
    each took exactly one poll and wrote exactly its byte, truncated to 8
    bits, in call order, and the counter ends at c0 + n. *)
Theorem run_putcs_fills_fifo :
  forall obj cs lsrs rest m,
    pin (sw_cts (uart_data m (index obj))) = NC ->
    0 <= tx_count m obj ->
    tx_count m obj + Z.of_nat (List.length cs) <= 16 ->
    List.length lsrs = List.length cs ->
    forallb (fun v => Z.land v 32 =? 0) lsrs = true ->
    hw_in m = lsrs ++ rest ->
    exists m',
      run_putcs (map (fun c => (obj, c)) cs) m = Ret tt m' /\
      tx_count m' obj = tx_count m obj + Z.of_nat (List.length cs) /\
      hw_in m' = rest /\
      trace m' = rev (tx_events (uart obj) lsrs cs) ++ trace m /\
      regs m' = regs m /\ gpio_level m' = gpio_level m.
Proof.
  intros obj cs. induction cs as [|c cs IH];
    intros lsrs rest m Hpin H0 Hroom Hlen Hp Hin.
  - destruct lsrs; [|discriminate Hlen]. cbn in *.
    exists m. repeat split; try reflexivity; try lia. exact Hin.
  - destruct lsrs as [|lsr lsrs]; [discriminate Hlen|].
    cbn [List.length] in *. cbn [forallb] in Hp.
    apply andb_prop in Hp. destruct Hp as [Hp0 Hp].
    cbn [app] in Hin. cbn [map run_putcs].
    assert (Hl : Z.land lsr 32 = 0) by lia.
    assert (Hc : tx_count m obj < 16) by lia.
    rewrite (bind_of_Ret _ _ _ _ _
               (putc_room_step obj c m lsr (lsrs ++ rest) Hpin Hin Hl Hc)).
    set (m1 := data_write (index obj) (fun d => set_count (u8 (count d + 1)) d)
                 (emit (EvWrite (uart obj) THR (u8 c))
                    (emit (EvRead (uart obj) LSR lsr) (with_hw_in (lsrs ++ rest) m)))).
    assert (Hc1 : tx_count m1 obj = tx_count m obj + 1).
    { unfold m1, tx_count. cbn. rewrite upd_same. cbn.
      apply u8_small. unfold tx_count in *. lia. }
    assert (Hpin1 : pin (sw_cts (uart_data m1 (index obj))) = NC).
    { unfold m1. cbn. rewrite upd_same. exact Hpin. }
    destruct (IH lsrs rest m1 Hpin1) as (m' & Hrun & Hcnt & Hrest & Htr & Hregs & Hg).
    + lia.
    + lia.
    + lia.
    + exact Hp.
    + reflexivity.
    + exists m'. split; [exact Hrun|]. split; [lia|]. split; [exact Hrest|].
      split; [|split; [exact Hregs|exact Hg]].
      rewrite Htr. unfold tx_events. cbn [combine flat_map fst snd app rev].
      unfold m1. cbn [trace data_write with_uart_data emit with_trace].
      rewrite <- !app_assoc. reflexivity.
Qed.

Lemma run_putcs_fills_fifo_witness :
  let m := data_write 0 (set_sw_cts (mkGpio NC)) (reset_machine 96000000 [0; 0; 0; 9]) in
  exists m',
    run_putcs (map (fun c => (port 0, c)) [72; 105; 289]) m = Ret tt m' /\
    tx_count m' (port 0) = tx_count m (port 0) + 3 /\
    hw_in m' = [9].
Proof.
  cbv zeta.
  destruct (run_putcs_fills_fifo (port 0) [72; 105; 289] [0; 0; 0] [9]
              (data_write 0 (set_sw_cts (mkGpio NC))
                 (reset_machine 96000000 [0; 0; 0; 9])))
    as (m' & Hrun & Hcnt & Hin & _).
  - reflexivity.
  - vm_compute. congruence.
  - vm_compute. congruence.
  - reflexivity.
  - reflexivity.
  - reflexivity.
  - exists m'. split; [exact Hrun|]. split; [exact Hcnt|exact Hin].
Defined.

(** ** Flow control: what a call leaves behind *)







Lemma flow_on_IER_bit obj m j :
  0 <= j < 32 ->
  Z.testbit (IER (regs (serial_flow_irq_set obj RxIrq 1 m) (uart obj))) j
  = (RxIrq =? j) || Z.testbit (IER (regs m (uart obj))) j.
Proof.
  intros Hj. unfold serial_flow_irq_set.
  change (Z.testbit (IER (regs ?x (uart obj))) j) with (ier_bit x obj j).
  rewrite internal_ier_bit by (unfold RxIrq; lia). reflexivity.
Qed.

Lemma flow_off_IER_bit obj m j :
  0 <= j < 32 ->
  Z.testbit (IER (regs (serial_flow_irq_set obj RxIrq 0 m) (uart obj))) j
  = if irq_set_api (uart_data m (index obj)) =? 0
    then Z.testbit (IER (regs m (uart obj))) j && negb (RxIrq =? j)
    else Z.testbit (IER (regs m (uart obj))) j.
Proof.
  intros Hj. unfold serial_flow_irq_set.
  change (Z.testbit (IER (regs ?x (uart obj))) j) with (ier_bit x obj j).
  rewrite internal_ier_bit by (unfold RxIrq; lia).
  cbn [negb Z.eqb uart_data data_write with_uart_data]. rewrite upd_same.
  cbn [irq_set_api irq_set_flow set_irq_set_flow]. change (u8 0) with 0.
  rewrite Z.add_0_r. reflexivity.
Qed.

(** X21. The RX enable bit after serial_set_flow_control, for every
    argument: it is set when the call ends in software RTS (the channel is
    asked for and cannot be done in hardware); otherwise it is what it was
    if the public API holds a request on the port, and cleared if not --
    every call first withdraws the engine's own request.  The TX enable
    bit is never changed. *)
Theorem flow_control_rx_enable_bit :
  forall obj type rxflow txflow m,
    exists m',
      serial_set_flow_control obj type rxflow txflow m = Ret tt m' /\
      ier_bit m' obj RxIrq
      = (wants_rts type rxflow && negb (hw_rts obj rxflow))
        || (ier_bit m obj RxIrq && irq_api m obj) /\
      ier_bit m' obj TxIrq = ier_bit m obj TxIrq.
Proof.
  intros obj type rxflow txflow m.
  unfold serial_set_flow_control, wants_rts, hw_rts, irq_api, ier_bit.
  cbv beta iota delta [bind when lift ret].
  destruct (Z.eqb_spec (uart obj) UART_1) as [E1|E1];
  destruct (Z.eqb_spec FlowControlNone type);
  destruct (Z.eqb_spec FlowControlCTS type);
  destruct (Z.eqb_spec FlowControlRTS type);
  destruct (Z.eqb_spec FlowControlRTSCTS type);
  try (exfalso; unfold FlowControlNone, FlowControlCTS, FlowControlRTS,
         FlowControlRTSCTS in *; lia);
  destruct (Z.eqb_spec NC txflow); destruct (Z.eqb_spec NC rxflow);
  try destruct (UART_1 =? pinmap_find_peripheral txflow PinMap_UART_CTS);
  try destruct (UART_1 =? pinmap_find_peripheral rxflow PinMap_UART_RTS);
  cbn [andb orb negb]; cbv beta iota; eexists; (split; [reflexivity|]).
  all: try rewrite <- !E1.
  all: try rewrite !flow_on_IER_bit by (unfold RxIrq, TxIrq; lia).
  all: repeat (cbn [uart_data regs trace data_write reg_write with_uart_data
               with_regs gpio_write emit with_trace with_gpio_level gpio_init
               fst snd IER set_MCR set_FCR]
          || rewrite upd_same).
  all: try rewrite !flow_off_IER_bit by (unfold RxIrq, TxIrq; lia).
  all: repeat (cbn [uart_data regs trace data_write reg_write with_uart_data
               with_regs gpio_write emit with_trace with_gpio_level gpio_init
               fst snd IER set_MCR set_FCR]
          || rewrite upd_same).
  all: change (RxIrq =? RxIrq) with true; change (RxIrq =? TxIrq) with false;
       cbn [negb orb andb]; rewrite ?andb_true_r, ?andb_false_r.
  all: try (destruct (irq_set_api (uart_data m (index obj)) =? 0); cbn [negb];
            rewrite ?andb_true_r, ?andb_false_r; split; reflexivity).
Qed.

Lemma mcr_clear_bit M j :
  0 <= j < 8 ->
  Z.testbit (u8 (Z.land M (Z.lnot UART_MCR_FLOWCTRL_MASK))) j
  = Z.testbit M j && negb ((j =? 6) || (j =? 7)).
Proof.
  intros Hj. rewrite u8_testbit, Z.land_spec, Z.lnot_spec by lia.
  unfold UART_MCR_FLOWCTRL_MASK, UART_MCR_RTSEN_MASK, UART_MCR_CTSEN_MASK.
  rewrite Z.lor_spec, !testbit_shiftl_1 by lia.
  now rewrite (Z.eqb_sym 6), (Z.eqb_sym 7).
Qed.

Lemma mcr_rts_bit M j :
  0 <= j < 8 ->
  Z.testbit (u8 (Z.lor M UART_MCR_RTSEN_MASK)) j = Z.testbit M j || (j =? 6).
Proof.
  intros Hj. rewrite u8_testbit, Z.lor_spec by lia.
  unfold UART_MCR_RTSEN_MASK. rewrite testbit_shiftl_1 by lia.
  now rewrite (Z.eqb_sym 6).
Qed.

Lemma mcr_cts_bit M j :
  0 <= j < 8 ->
  Z.testbit (u8 (Z.lor M UART_MCR_CTSEN_MASK)) j = Z.testbit M j || (j =? 7).
Proof.
  intros Hj. rewrite u8_testbit, Z.lor_spec by lia.
  unfold UART_MCR_CTSEN_MASK. rewrite testbit_shiftl_1 by lia.
  now rewrite (Z.eqb_sym 7).
Qed.

(** X22. How serial_set_flow_control decides each channel, for every
    argument.  A channel is done in hardware only when its pin is the UART1
    flow pin of the table and the port is UART1: then its enable bit in
    UART1's MCR (6 for RTS, 7 for CTS) is set and the slot holds no software
    pin.  A channel that is asked for but cannot be done in hardware leaves
    its pin in the slot and its MCR bit clear.  On UART1 bits 6 and 7 are
    exactly that and bits 0..5 keep their values; a call on another port
    never changes UART1's MCR.  FCR is written (7) exactly when RTS is asked
    for.  Mode none asks for nothing, so it needs no case of its own. *)
Theorem flow_control_channel_decision :
  forall obj type rxflow txflow m,
    exists m',
      serial_set_flow_control obj type rxflow txflow m = Ret tt m' /\
      let d := uart_data m' (index obj) in
      pin (sw_rts d)
      = (if wants_rts type rxflow && negb (hw_rts obj rxflow) then rxflow else NC) /\
      pin (sw_cts d)
      = (if wants_cts type txflow && negb (hw_cts obj txflow) then txflow else NC) /\
      (forall j, 0 <= j < 8 ->
         Z.testbit (MCR (regs m' UART_1)) j
         = if uart obj =? UART_1 then
             if j =? 6 then wants_rts type rxflow && hw_rts obj rxflow
             else if j =? 7 then wants_cts type txflow && hw_cts obj txflow
             else Z.testbit (MCR (regs m UART_1)) j
           else Z.testbit (MCR (regs m UART_1)) j) /\
      FCR (regs m' (uart obj))
      = (if wants_rts type rxflow then 7 else FCR (regs m (uart obj))).
Proof.
  intros obj type rxflow txflow m.
  unfold serial_set_flow_control, wants_rts, wants_cts, hw_rts, hw_cts.
  cbv beta iota delta [bind when lift ret].
  destruct (Z.eqb_spec (uart obj) UART_1) as [E1|E1];
  destruct (Z.eqb_spec FlowControlNone type);
  destruct (Z.eqb_spec FlowControlCTS type);
  destruct (Z.eqb_spec FlowControlRTS type);
  destruct (Z.eqb_spec FlowControlRTSCTS type);
  try (exfalso; unfold FlowControlNone, FlowControlCTS, FlowControlRTS,
         FlowControlRTSCTS in *; lia);
  destruct (Z.eqb_spec NC txflow); destruct (Z.eqb_spec NC rxflow);
  try destruct (UART_1 =? pinmap_find_peripheral txflow PinMap_UART_CTS);
  try destruct (UART_1 =? pinmap_find_peripheral rxflow PinMap_UART_RTS);
  cbn [andb orb negb]; cbv beta iota; eexists; (split; [reflexivity|]); cbv zeta.
  all: (split; [flow_simpl; reflexivity|]).
  all: (split; [flow_simpl; reflexivity|]).
  all: split; [|flow_simpl; try rewrite E1; flow_simpl; reflexivity].
  all: intros j Hj.
  all: try rewrite <- !E1.
  all: flow_simpl.
  all: rewrite ?upd_other by congruence; flow_simpl.
  all: repeat ((rewrite mcr_rts_bit by lia) || (rewrite mcr_cts_bit by lia)
               || (rewrite mcr_clear_bit by lia)).
  all: try reflexivity.
  all: destruct (j =? 6) eqn:E6; destruct (j =? 7) eqn:E7;
       try (exfalso; lia);
       destruct (Z.testbit (MCR (regs m (uart obj))) j); reflexivity.
Qed.

(** ** Interrupt entry *)

Lemma iir_field v : Z.land (Z.shiftr v 1) 7 = (v / 2) mod 8.
Proof.
  rewrite Z.shiftr_div_pow2 by lia. change 7 with (Z.ones 3).
  rewrite Z.land_ones by lia. reflexivity.
Qed.

(** X23. An interrupt entry (uart0_irq .. uart3_irq are uart_isr at the
    port's register block and index) reads IIR exactly once and decodes only
    its bits 3:1, the number (v / 2) mod 8: bit 0 -- the interrupt-pending
    flag -- and the bits above 3 are not looked at.  What follows the read
    is the dispatch of that number: nothing for a number other than 1 and
    2; else the RTS write on 2 with a software RTS pin, and then the return
    when no id is registered, or the call of the registered function
    through the pointer -- undefined behaviour when it is null. *)
Theorem uart_isr_decodes_iir :
  forall handler_code u i v rest m,
    hw_in m = v :: rest ->
    let iir := (v / 2) mod 8 in
    let g := sw_rts (uart_data m i) in
    let id := serial_irq_ids m i in
    let fn := irq_handler m in
    let irq := if iir =? 1 then TxIrq else RxIrq in
    let m0 := emit (EvRead u IIR v) (with_hw_in rest m) in
    let m1 := if (iir =? 2) && negb (pin g =? NC) then gpio_write g 1 m0 else m0 in
    uart_isr handler_code u i m
    = if ((iir =? 1) || (iir =? 2)) && negb (id =? 0)
      then if fn =? 0 then Undef m1
           else handler_code fn id irq (emit (EvHandler fn id irq) m1)
      else Ret tt m1.
Proof.
  intros handler_code u i v rest m Hin. cbv zeta. rewrite <- iir_field.
  unfold uart_isr. unfold bind at 1. unfold bind at 1. unfold hw_read.
  rewrite Hin. cbv beta iota delta [lift].
  rewrite uart_irq_run. reflexivity.
Qed.

Lemma uart_isr_decodes_iir_witness :
  let handler_code := fun (fn id irq : Z) => lift (with_PCONP (fn + id)) in
  let m := serial_irq_handler (port 0) 100 11
             (data_write 0 (set_sw_rts (mkGpio NC)) (reset_machine 96000000 [197])) in
  uart_isr handler_code UART_0 0 m
  = Ret tt (with_PCONP 111
              (emit (EvHandler 100 11 RxIrq)
                 (emit (EvRead UART_0 IIR 197) (with_hw_in [] m)))).
Proof.
  cbv zeta.
  exact (uart_isr_decodes_iir
           (fun (fn id irq : Z) => lift (with_PCONP (fn + id)))
           UART_0 0 197 []
           (serial_irq_handler (port 0) 100 11
              (data_write 0 (set_sw_rts (mkGpio NC))
                 (reset_machine 96000000 [197])))
           eq_refl).
Defined.

(** ** serial_baud: undefined rates, and termination *)

(** X24. serial_baud evaluates PCLK % (16 * baudrate) without a check: a
    rate of 0 divides by zero and a rate whose 16-fold does not fit an int
    overflows, both undefined behaviour in C.  On a port of the chip the
    clock select has been written by then -- the port's 2-bit field is 01,
    the other bits of both PCLKSEL registers are as before -- and nothing
    else has: no UART register, no per-port data, no event. *)
Theorem serial_baud_undefined_rate :
  forall obj baudrate m,
    pclksel_field (uart obj) <> None ->
    baudrate = 0 \/ 134217727 < baudrate \/ baudrate < -134217728 ->
    exists reg sh m',
      pclksel_field (uart obj) = Some (reg, sh) /\
      serial_baud obj baudrate m = Undef m' /\
      pclksel m' reg = pclk_div1 (pclksel m reg) sh /\
      Z.testbit (pclksel m' reg) sh = true /\
      Z.testbit (pclksel m' reg) (sh + 1) = false /\
      (forall k, 0 <= k < 32 -> k <> sh -> k <> sh + 1 ->
                 Z.testbit (pclksel m' reg) k = Z.testbit (pclksel m reg) k) /\
      pclksel m' (negb reg) = pclksel m (negb reg) /\
      regs m' = regs m /\ uart_data m' = uart_data m /\
      PCONP m' = PCONP m /\ trace m' = trace m.
Proof.
  intros obj baudrate m Hf Hb.
  assert (Hd : baud_divisors search_fuel (u32 (SystemCoreClock m)) baudrate
               = DivUndefined).
  { unfold baud_divisors, int_range.
    destruct Hb as [-> |Hb]; [reflexivity|].
    assert (E : (-2147483648 <=? 16 * baudrate) && (16 * baudrate <=? 2147483647)
                = false) by lia.
    now rewrite E. }
  assert (Hbits : forall sel sh, 0 <= sh < 31 ->
            Z.testbit (pclk_div1 sel sh) sh = true /\
            Z.testbit (pclk_div1 sel sh) (sh + 1) = false /\
            (forall k, 0 <= k < 32 -> k <> sh -> k <> sh + 1 ->
                       Z.testbit (pclk_div1 sel sh) k = Z.testbit sel k)).
  { intros sel sh Hsh.
    pose proof (pclk_div1_bits sel sh) as H.
    split; [|split].
    - rewrite H by lia. rewrite Z.eqb_refl. reflexivity.
    - rewrite H by lia.
      assert (E : (sh + 1 =? sh) = false) by lia. rewrite E, Z.eqb_refl.
      reflexivity.
    - intros k Hk H1 H2. rewrite H by lia.
      assert (E1 : (k =? sh) = false) by lia.
      assert (E2 : (k =? sh + 1) = false) by lia.
      rewrite E1, E2. reflexivity. }
  unfold serial_baud. unfold pclksel_field in *.
  cbv beta iota zeta delta [bind lift gets error].
  destruct (uart obj =? UART_0); [|destruct (uart obj =? UART_1);
    [|destruct (uart obj =? UART_2); [|destruct (uart obj =? UART_3);
      [|congruence]]]];
  cbn [SystemCoreClock with_PCLKSEL0 with_PCLKSEL1]; rewrite Hd;
  eexists _, _, _; (split; [reflexivity|]); (split; [reflexivity|]);
  cbn [pclksel negb PCLKSEL0 PCLKSEL1 with_PCLKSEL0 with_PCLKSEL1 regs uart_data
       PCONP trace];
  (split; [reflexivity|]);
  match goal with
  | |- context [pclk_div1 ?sel ?sh] =>
      destruct (Hbits sel sh ltac:(lia)) as (B1 & B2 & B3)
  end;
  (split; [exact B1|]); (split; [exact B2|]); (split; [exact B3|]);
  repeat split; reflexivity.
Qed.

Lemma serial_baud_undefined_rate_witness :
  exists m',
    serial_baud (port 0) 0 (reset_machine 96000000 []) = Undef m' /\
    PCLKSEL0 m' = 64 /\
    regs m' = regs (reset_machine 96000000 []).
Proof.
  destruct (serial_baud_undefined_rate (port 0) 0 (reset_machine 96000000 []))
    as (reg & sh & m' & Hf & Hrun & Hsel & _ & _ & _ & _ & Hregs & _).
  - discriminate.
  - left. reflexivity.
  - exists m'. split; [exact Hrun|]. split; [|exact Hregs].
    vm_compute in Hf. injection Hf as <- <-. exact Hsel.
Defined.

Lemma baud_divisors_total PCLK baudrate :
  0 < baudrate <= 134217727 ->
  u16 (PCLK / (16 * baudrate)) < 65535 ->
  exists DL dav mv, baud_divisors search_fuel PCLK baudrate = Divisors DL dav mv.
Proof.
  intros Hb HDL. unfold baud_divisors, int_range.
  assert (E : (-2147483648 <=? 16 * baudrate) && (16 * baudrate <=? 2147483647)
              = true) by lia.
  rewrite E. cbn [negb].
  assert (Hu : u32 (16 * baudrate) = 16 * baudrate)
    by (unfold u32; apply Z.mod_small; lia).
  rewrite Hu.
  assert (E0 : (16 * baudrate =? 0) = false) by lia.
  rewrite E0.
  destruct (negb (PCLK mod (16 * baudrate) =? 0)); [|eauto].
  set (DL := u16 (PCLK / (16 * baudrate))) in *.
  assert (HDL0 : 0 <= DL) by (unfold DL, u16; apply Z.mod_pos_bound; lia).
  destruct (dlv_loop_total PCLK baudrate DL search_fuel (DL / 2)
              (mkSearch DL 0 1 (float_of_int baudrate) false))
    as [[st dl_end] Hrun].
  - exact HDL.
  - apply Z.div_pos; lia.
  - rewrite search_fuel_value.
    assert (0 <= DL / 2) by (apply Z.div_pos; lia). lia.
  - rewrite Hrun. eauto.
Qed.

(** X25. serial_baud returns for every positive rate whose 16-fold is an
    int, on every port of the chip, at every core clock, provided the
    16-bit divisor PCLK / (16 baud) is not 65535 -- the one value at which
    the 16-bit loop counter of the search can wrap: the search loop ends
    and the registers are programmed. *)
Theorem serial_baud_returns :
  forall obj baudrate m,
    pclksel_field (uart obj) <> None ->
    0 < baudrate <= 134217727 ->
    u16 (u32 (SystemCoreClock m) / (16 * baudrate)) < 65535 ->
    exists m', serial_baud obj baudrate m = Ret tt m'.
Proof.
  intros obj baudrate m Hf Hb HDL.
  destruct (baud_divisors_total (u32 (SystemCoreClock m)) baudrate Hb HDL)
    as (DL & dav & mv & Hd).
  unfold serial_baud. unfold pclksel_field in Hf.
  cbv beta iota zeta delta [bind lift gets error].
  destruct (uart obj =? UART_0); [|destruct (uart obj =? UART_1);
    [|destruct (uart obj =? UART_2); [|destruct (uart obj =? UART_3);
      [|congruence]]]];
  cbn [SystemCoreClock with_PCLKSEL0 with_PCLKSEL1]; rewrite Hd;
  eexists; reflexivity.
Qed.

Lemma serial_baud_returns_witness :
  exists m', serial_baud (port 3) 115200 (reset_machine 96000000 []) = Ret tt m'.
Proof.
  apply (serial_baud_returns (port 3) 115200 (reset_machine 96000000 [])).
  - discriminate.
  - lia.
  - vm_compute. reflexivity.
Defined.

(** * FunctionPointer.h *)

(** X28. FunctionPointer0: the last attach decides what call() does,
    whatever the object held before.  After attach(function), call() runs
    that function, or nothing when it is null.  After attach(object, member)
    -- the address of a member caller is never null -- call() runs the
    member caller on that object and storage, or nothing when the object is
    null, and the member caller reads back from the storage exactly the
    member pointer that was copied in.  A static attach leaves the storage
    alone, a member attach only overwrites as many words as the member
    pointer has. *)
Theorem function_pointer0_last_attach :
  forall this caller object member function,
    caller <> 0 ->
    let fs := FunctionPointer0.attach this function in
    let fm := FunctionPointer0.attach_member this caller object member in
    FunctionPointer0.call fs
    = (if function =? 0 then FunctionPointer0.Nothing
       else FunctionPointer0.Function function) /\
    FunctionPointer0._member fs = FunctionPointer0._member this /\
    FunctionPointer0.call fm
    = (if object =? 0 then FunctionPointer0.Nothing
       else FunctionPointer0.Membercaller caller object
              (FunctionPointer0._member fm)) /\
    FunctionPointer0.membercaller (List.length member) object
      (FunctionPointer0._member fm) = (object, member) /\
    skipn (List.length member) (FunctionPointer0._member fm)
    = skipn (List.length member) (FunctionPointer0._member this) /\
    FunctionPointer0.call (FunctionPointer0.attach fm function)
    = FunctionPointer0.call fs.
Proof.
  intros this caller object member function Hc. cbv zeta.
  unfold FunctionPointer0.call, FunctionPointer0.attach,
    FunctionPointer0.attach_member, FunctionPointer0.membercaller.
  cbn [FunctionPointer0._p FunctionPointer0._member FunctionPointer0._membercaller].
  apply Z.eqb_neq in Hc. rewrite Hc. cbn [Z.eqb andb negb].
  split; [destruct (function =? 0); reflexivity|].
  split; [reflexivity|].
  split; [destruct (object =? 0); reflexivity|].
  split; [f_equal; rewrite firstn_app, Nat.sub_diag, firstn_all; cbn;
          apply app_nil_r|].
  split; [|reflexivity].
  rewrite skipn_app, Nat.sub_diag, skipn_all. reflexivity.
Qed.

Lemma function_pointer0_last_attach_witness :
  let this := FunctionPointer0.mk 0 [1; 2; 3; 4] 0 in
  FunctionPointer0.call (FunctionPointer0.attach_member this 4096 536870912 [8193; 0])
  = FunctionPointer0.Membercaller 4096 536870912 [8193; 0; 3; 4] /\
  FunctionPointer0.membercaller 2 536870912 [8193; 0; 3; 4]
  = (536870912, [8193; 0]).
Proof.
  cbv zeta.
  destruct (function_pointer0_last_attach (FunctionPointer0.mk 0 [1; 2; 3; 4] 0)
              4096 536870912 [8193; 0] 0 ltac:(lia))
    as (_ & _ & Hcall & Hback & _).
  split; [exact Hcall|exact Hback].
Defined.

(** X29. FunctionPointer1: call(a) after attach(function) returns the
    function's result on [a], or (R)0 for a null function; after
    attach(object, member) it returns the member caller's result on that
    object, storage and [a], or (R)0 for a null object; operator() is
    call.  For every state of the object, the conversion to bool is true
    exactly when call reaches a function or a member caller, and false
    exactly when call returns (R)0: testing the object tells whether
    calling it does anything. *)
Theorem function_pointer1_call_and_bool :
  forall (A1 : Type) this caller object member function (a : A1),
    caller <> 0 ->
    let fs := FunctionPointer1.attach this function in
    let fm := FunctionPointer1.attach_member this caller object member in
    FunctionPointer1.call fs a
    = (if function =? 0 then FunctionPointer1.Zero
       else FunctionPointer1.Function function a) /\
    FunctionPointer1.call fm a
    = (if object =? 0 then FunctionPointer1.Zero
       else FunctionPointer1.Membercaller caller object
              (FunctionPointer1._member fm) a) /\
    FunctionPointer1.membercaller (List.length member) object
      (FunctionPointer1._member fm) = (object, member) /\
    FunctionPointer1.operator_call this a = FunctionPointer1.call this a /\
    (FunctionPointer1.operator_bool this = false <->
     FunctionPointer1.call this a = FunctionPointer1.Zero).
Proof.
  intros A1 this caller object member function a Hc. cbv zeta.
  unfold FunctionPointer1.operator_call, FunctionPointer1.operator_bool,
    FunctionPointer1.call, FunctionPointer1.attach,
    FunctionPointer1.attach_member, FunctionPointer1.membercaller.
  cbn [FunctionPointer1._p FunctionPointer1._member FunctionPointer1._membercaller].
  apply Z.eqb_neq in Hc. rewrite Hc. cbn [Z.eqb andb negb].
  split; [destruct (function =? 0); reflexivity|].
  split; [destruct (object =? 0); reflexivity|].
  split; [f_equal; rewrite firstn_app, Nat.sub_diag, firstn_all; cbn;
          apply app_nil_r|].
  split; [reflexivity|].
  destruct (FunctionPointer1._membercaller this =? 0); cbn [andb negb];
    destruct (FunctionPointer1._p this =? 0); cbn [andb negb];
    split; intros H; try reflexivity; discriminate H.
Qed.

Lemma function_pointer1_call_and_bool_witness :
  let this := FunctionPointer1.mk 0 [1; 2; 3; 4] 0 in
  FunctionPointer1.call (FunctionPointer1.attach this 4660) 7%nat
  = FunctionPointer1.Function 4660 7%nat /\
  (FunctionPointer1.operator_bool this = false <->
   FunctionPointer1.call this 7%nat = FunctionPointer1.Zero).
Proof.
  cbv zeta.
  destruct (function_pointer1_call_and_bool nat
              (FunctionPointer1.mk 0 [1; 2; 3; 4] 0)
              4096 536870912 [8193; 0] 4660 7%nat ltac:(lia))
    as (Hcall & _ & _ & _ & Hbool).
  split; [exact Hcall|exact Hbool].
Defined.
